(** * Text normalizer and retry policy of slide_creator_v3.py

    A shallow embedding of [postprocess] (lines 218-245) and of the retry
    decorator around [call_llm] (lines 251-257).

    A Python [str] is a sequence of Unicode code points: it is modelled as a
    list of [Z].  Code points are written in hexadecimal; the comments give
    the glyph as U+XXXX. *)

From Stdlib Require Import ZArith List Bool Lia Arith.
Import ListNotations.

Local Open Scope Z_scope.

Definition str := list Z.

(** ** Character tables of the Python runtime

    [re] in [str] mode and the [str] methods consult the Unicode database of
    the interpreter.  The tables below are those of CPython 3.11
    (Unicode 14.0). *)
Module Unicode.

(** [in_table c t]: code point [c] is one of the entries of [t]. *)
Definition in_table (c : Z) (t : list Z) : bool := existsb (Z.eqb c) t.

(** [in_ranges c t]: [c] lies in one of the closed intervals of [t]. *)
Definition in_ranges (c : Z) (t : list (Z * Z)) : bool :=
  existsb (fun r => (fst r <=? c) && (c <=? snd r)) t.

(** Characters for which [str.isspace] holds; this is also the class [\s]
    of a [str] pattern and the set removed by [str.strip()]. *)
Definition space_table : list Z :=
  [0x9; 0xA; 0xB; 0xC; 0xD; 0x1C; 0x1D; 0x1E; 0x1F; 0x20; 0x85; 0xA0;
   0x1680; 0x2000; 0x2001; 0x2002; 0x2003; 0x2004; 0x2005; 0x2006;
   0x2007; 0x2008; 0x2009; 0x200A; 0x2028; 0x2029; 0x202F; 0x205F;
   0x3000].

Definition is_space (c : Z) : bool := in_table c space_table.

(** Line boundaries recognised by [str.splitlines]. *)
Definition linebreak_table : list Z :=
  [0xA; 0xB; 0xC; 0xD; 0x1C; 0x1D; 0x1E; 0x85; 0x2028; 0x2029].

Definition is_linebreak (c : Z) : bool := in_table c linebreak_table.

(** General category Nd: the class [\d] of a [str] pattern. *)
Definition digit_ranges : list (Z * Z) :=
  [(0x30, 0x39); (0x660, 0x669); (0x6F0, 0x6F9); (0x7C0, 0x7C9);
   (0x966, 0x96F); (0x9E6, 0x9EF); (0xA66, 0xA6F); (0xAE6, 0xAEF);
   (0xB66, 0xB6F); (0xBE6, 0xBEF); (0xC66, 0xC6F); (0xCE6, 0xCEF);
   (0xD66, 0xD6F); (0xDE6, 0xDEF); (0xE50, 0xE59); (0xED0, 0xED9);
   (0xF20, 0xF29); (0x1040, 0x1049); (0x1090, 0x1099); (0x17E0, 0x17E9);
   (0x1810, 0x1819); (0x1946, 0x194F); (0x19D0, 0x19D9); (0x1A80, 0x1A89);
   (0x1A90, 0x1A99); (0x1B50, 0x1B59); (0x1BB0, 0x1BB9); (0x1C40, 0x1C49);
   (0x1C50, 0x1C59); (0xA620, 0xA629); (0xA8D0, 0xA8D9); (0xA900, 0xA909);
   (0xA9D0, 0xA9D9); (0xA9F0, 0xA9F9); (0xAA50, 0xAA59); (0xABF0, 0xABF9);
   (0xFF10, 0xFF19); (0x104A0, 0x104A9); (0x10D30, 0x10D39);
   (0x11066, 0x1106F); (0x110F0, 0x110F9); (0x11136, 0x1113F);
   (0x111D0, 0x111D9); (0x112F0, 0x112F9); (0x11450, 0x11459);
   (0x114D0, 0x114D9); (0x11650, 0x11659); (0x116C0, 0x116C9);
   (0x11730, 0x11739); (0x118E0, 0x118E9); (0x11950, 0x11959);
   (0x11C50, 0x11C59); (0x11D50, 0x11D59); (0x11DA0, 0x11DA9);
   (0x16A60, 0x16A69); (0x16AC0, 0x16AC9); (0x16B50, 0x16B59);
   (0x1D7CE, 0x1D7FF); (0x1E140, 0x1E149); (0x1E2F0, 0x1E2F9);
   (0x1E950, 0x1E959); (0x1FBF0, 0x1FBF9)].

Definition is_digit (c : Z) : bool := in_ranges c digit_ranges.

End Unicode.

(** ** The [str] methods used by [postprocess] *)
Module Str.

Fixpoint drop_while (p : Z -> bool) (s : str) : str :=
  match s with
  | [] => []
  | c :: s' => if p c then drop_while p s' else s
  end.

Fixpoint take_while (p : Z -> bool) (s : str) : str :=
  match s with
  | [] => []
  | c :: s' => if p c then c :: take_while p s' else []
  end.

(** Removal of the longest suffix whose characters all satisfy [p]. *)
Fixpoint drop_trailing (p : Z -> bool) (s : str) : str :=
  match s with
  | [] => []
  | c :: s' => if forallb p s then [] else c :: drop_trailing p s'
  end.

(** [s.strip()]: whitespace removed at both ends. *)
Definition strip (s : str) : str :=
  drop_trailing Unicode.is_space (drop_while Unicode.is_space s).

(** [s.splitlines()]: the lines of [s] without their terminators.  A
    carriage return directly followed by a line feed is one terminator; a
    terminator at the very end opens no further line. *)
Fixpoint splitlines (s : str) : list str :=
  match s with
  | [] => []
  | c :: s' =>
      if Unicode.is_linebreak c then
        [] :: match s' with
              | d :: s'' =>
                  if (c =? 0xD) && (d =? 0xA) then splitlines s''
                  else splitlines s'
              | [] => []
              end
      else
        match splitlines s' with
        | [] => [[c]]
        | l :: ls => (c :: l) :: ls
        end
  end.

(** [sep.join(ls)]. *)
Fixpoint join (sep : str) (ls : list str) : str :=
  match ls with
  | [] => []
  | l :: ls' =>
      match ls' with
      | [] => l
      | _ :: _ => l ++ sep ++ join sep ls'
      end
  end.

(** [starts_with old s]: [old] is a prefix of [s]. *)
Fixpoint starts_with (old s : str) : bool :=
  match old with
  | [] => true
  | o :: old' =>
      match s with
      | [] => false
      | c :: s' => (c =? o) && starts_with old' s'
      end
  end.

(** [s.replace(old, new)] for a non-empty [old]: the occurrences of [old]
    are found from left to right without overlap.  [skip] counts the
    characters of the occurrence under replacement that remain to be
    passed over. *)
Fixpoint replace_from (old new : str) (skip : nat) (s : str) : str :=
  match s with
  | [] => []
  | c :: s' =>
      match skip with
      | S k => replace_from old new k s'
      | O =>
          if starts_with old s
          then new ++ replace_from old new (Nat.pred (length old)) s'
          else c :: replace_from old new 0 s'
      end
  end.

Definition replace (old new : str) (s : str) : str := replace_from old new 0 s.

(** Number of positions of [s] at which [old] occurs. *)
Fixpoint count_occ (old s : str) : nat :=
  match s with
  | [] => 0%nat
  | c :: s' => ((if starts_with old s then 1 else 0) + count_occ old s')%nat
  end.

End Str.

(** ** The fragment of [re] used by [postprocess]

    A backtracking matcher in continuation-passing style, as the engine of
    [re] explores a pattern: alternatives and repetition counts are tried in
    priority order, and the first choice under which the rest of the pattern
    succeeds wins.  Repetition is over one-character classes only, which is
    all the five patterns of the program need. *)
Module Re.

Inductive regex : Type :=
| Lit (c : Z)                       (* a literal character *)
| Cls (p : Z -> bool)               (* a character class: [..], [^..], \s, \d *)
| Seq (r1 r2 : regex)               (* r1 r2 *)
| Alt (r1 r2 : regex)               (* r1|r2 *)
| Star (greedy : bool) (p : Z -> bool)  (* X* (greedy) or X*? (lazy) *)
| Plus (p : Z -> bool)              (* X+ (greedy) *)
| Bol                               (* ^ without MULTILINE *)
| Eol                               (* $ without MULTILINE *)
| LookBehind (p : Z -> bool).       (* (?<=X) for a one-character X *)

(** A continuation receives the character before the current position
    ([None] at the start of the subject), the rest of the subject and the
    number of characters matched so far. *)
Definition cont := option Z -> str -> nat -> option nat.

Fixpoint star_greedy (p : Z -> bool) (k : cont)
    (prev : option Z) (s : str) (n : nat) : option nat :=
  match s with
  | c :: s' =>
      if p c then
        match star_greedy p k (Some c) s' (S n) with
        | Some m => Some m
        | None => k prev s n
        end
      else k prev s n
  | [] => k prev s n
  end.

Fixpoint star_lazy (p : Z -> bool) (k : cont)
    (prev : option Z) (s : str) (n : nat) : option nat :=
  match k prev s n with
  | Some m => Some m
  | None =>
      match s with
      | c :: s' => if p c then star_lazy p k (Some c) s' (S n) else None
      | [] => None
      end
  end.

(** [$] holds at the end of the subject and just before a line feed that
    ends the subject. *)
Definition at_eol (s : str) : bool :=
  match s with
  | [] => true
  | c :: s' => (c =? 0xA) && match s' with [] => true | _ :: _ => false end
  end.

Fixpoint run (r : regex) (k : cont) (prev : option Z) (s : str) (n : nat)
    : option nat :=
  match r with
  | Lit c =>
      match s with
      | x :: s' => if x =? c then k (Some x) s' (S n) else None
      | [] => None
      end
  | Cls p =>
      match s with
      | x :: s' => if p x then k (Some x) s' (S n) else None
      | [] => None
      end
  | Seq r1 r2 => run r1 (run r2 k) prev s n
  | Alt r1 r2 =>
      match run r1 k prev s n with
      | Some m => Some m
      | None => run r2 k prev s n
      end
  | Star true p => star_greedy p k prev s n
  | Star false p => star_lazy p k prev s n
  | Plus p =>
      match s with
      | x :: s' => if p x then star_greedy p k (Some x) s' (S n) else None
      | [] => None
      end
  | Bol => match prev with None => k prev s n | Some _ => None end
  | Eol => if at_eol s then k prev s n else None
  | LookBehind p =>
      match prev with
      | Some c => if p c then k prev s n else None
      | None => None
      end
  end.

(** [match_at r prev s]: length of the match of [r] that starts at the
    head of [s], where [prev] is the character before it. *)
Definition match_at (r : regex) (prev : option Z) (s : str) : option nat :=
  run r (fun _ _ n => Some n) prev s 0.

(** A literal string as a pattern. *)
Fixpoint lits (l : str) (r : regex) : regex :=
  match l with
  | [] => r
  | c :: l' => Seq (Lit c) (lits l' r)
  end.

(** [re.sub(r, repl, s)] for a replacement without group references: the
    subject is scanned from left to right, the leftmost match is replaced
    and the scan resumes behind it.  [skip] counts the characters of the
    current match still to be passed over.  None of the patterns of the
    program matches the empty string (see [patterns_nonempty] below), so the
    branch for an empty match is never taken by [postprocess]; it follows
    the behaviour of greedy patterns. *)
Fixpoint sub_from (r : regex) (repl : str) (skip : nat) (prev : option Z)
    (s : str) : str :=
  match s with
  | [] =>
      match skip, match_at r prev [] with
      | O, Some O => repl
      | _, _ => []
      end
  | c :: s' =>
      match skip with
      | S k => sub_from r repl k (Some c) s'
      | O =>
          match match_at r prev s with
          | Some (S m) => repl ++ sub_from r repl m (Some c) s'
          | Some O => repl ++ c :: sub_from r repl 0 (Some c) s'
          | None => c :: sub_from r repl 0 (Some c) s'
          end
      end
  end.

Definition sub (r : regex) (repl : str) (s : str) : str :=
  sub_from r repl 0 None s.

End Re.

(** ** The normalizer *)
Module Normalizer.

Import Unicode Str Re.

(** The class [[P U+FF50 U+FF30]] of line 224: capital P, full-width small
    p, full-width capital P. *)
Definition is_pvariant (c : Z) : bool :=
  (c =? 0x50) || (c =? 0xFF50) || (c =? 0xFF30).

(** Line 224: [[P U+FF50 U+FF30]\s*=\s*]. *)
Definition re_pvalue : regex :=
  Seq (Cls is_pvariant)
      (Seq (Star true is_space) (Seq (Lit 0x3D) (Star true is_space))).

(** The replacement ["p="]. *)
Definition s_p_eq : str := [0x70; 0x3D].

(** Line 227: [(?<=\d) U+6708]. *)
Definition c_month : Z := 0x6708.
Definition re_month : regex := Seq (LookBehind is_digit) (Lit c_month).

(** The replacement U+30F6 U+6708. *)
Definition s_kagetsu : str := [0x30F6; c_month].

(** Line 234: the class [[U+300C U+300E U+201C U+0022 U+FF02]]. *)
Definition is_opening (c : Z) : bool :=
  (c =? 0x300C) || (c =? 0x300E) || (c =? 0x201C) || (c =? 0x22)
  || (c =? 0xFF02).

(** Line 235: the class [[U+300D U+300E U+201D U+0022 U+FF02]]. *)
Definition is_closing (c : Z) : bool :=
  (c =? 0x300D) || (c =? 0x300E) || (c =? 0x201D) || (c =? 0x22)
  || (c =? 0xFF02).

Definition re_open : regex := Seq Bol (Plus is_opening).
Definition re_close : regex := Seq (Plus is_closing) Eol.

(** Line 241: U+5BFE U+7167 U+7FA4 and its replacement
    U+30B3 U+30F3 U+30C8 U+30ED U+30FC U+30EB U+7FA4. *)
Definition s_taishogun : str := [0x5BFE; 0x7167; 0x7FA4].
Definition s_control : str :=
  [0x30B3; 0x30F3; 0x30C8; 0x30ED; 0x30FC; 0x30EB; 0x7FA4].

(** Line 242: ["Freedom from"] and its replacement U+56DE U+907F. *)
Definition s_freedom_from : str :=
  [0x46; 0x72; 0x65; 0x65; 0x64; 0x6F; 0x6D; 0x20; 0x66; 0x72; 0x6F; 0x6D].
Definition s_kaihi : str := [0x56DE; 0x907F].

(** Line 243: U+30B9 U+30E9 U+30A4 U+30C9 U+306B, then [[^\n U+3002]*?],
    then (U+63D0 U+793A | U+8868 U+793A), then [[^\n U+3002]*?], then
    U+3002. *)
Definition s_slide_ni : str := [0x30B9; 0x30E9; 0x30A4; 0x30C9; 0x306B].
Definition s_teiji : str := [0x63D0; 0x793A].
Definition s_hyoji : str := [0x8868; 0x793A].
Definition c_maru : Z := 0x3002.
Definition not_nl_maru (c : Z) : bool := negb ((c =? 0xA) || (c =? c_maru)).

Definition re_slide : regex :=
  lits s_slide_ni
    (Seq (Star false not_nl_maru)
       (Seq (Alt (lits [0x63D0] (Lit 0x793A)) (lits [0x8868] (Lit 0x793A)))
          (Seq (Star false not_nl_maru) (Lit c_maru)))).

(** Pass 1, line 224. *)
Definition pvalue_pass (text : str) : str := sub re_pvalue s_p_eq text.

(** Pass 2, line 227. *)
Definition month_pass (text : str) : str := sub re_month s_kagetsu text.

(** Lines 233-235: the replacement for the title line. *)
Definition clean_title (line : str) : str :=
  let t := strip line in
  let t := sub re_open [] t in
  let t := sub re_close [] t in
  t.

(** Lines 231-237: the loop stops at the first line whose [strip()] is not
    empty and replaces it. *)
Fixpoint strip_title (lines : list str) : list str :=
  match lines with
  | [] => []
  | line :: rest =>
      match strip line with
      | _ :: _ => clean_title line :: rest
      | [] => line :: strip_title rest
      end
  end.

(** Pass 3, lines 230-238. *)
Definition title_pass (text : str) : str :=
  join [0xA] (strip_title (splitlines text)).

(** Pass 4, lines 241-242. *)
Definition terminology_pass (text : str) : str :=
  replace s_freedom_from s_kaihi (replace s_taishogun s_control text).

(** Pass 5, line 243. *)
Definition slide_pass (text : str) : str := sub re_slide [] text.

(** [postprocess], lines 218-245. *)
Definition postprocess (text : str) : str :=
  match text with
  | [] => text
  | _ :: _ =>
      let text := pvalue_pass text in
      let text := month_pass text in
      let text := title_pass text in
      let text := terminology_pass text in
      let text := slide_pass text in
      text
  end.

(** The same loop with the index of [enumerate] and the item assignment
    [lines[i] = t] written out.  The assignment is the one step of
    [postprocess] that can raise ([IndexError] when [i] is out of range):
    [None] stands for the exception. *)
Definition assign_item (lines : list str) (i : nat) (t : str)
    : option (list str) :=
  if (i <? length lines)%nat
  then Some (firstn i lines ++ t :: skipn (S i) lines)
  else None.

Fixpoint title_loop (lines rest : list str) (i : nat) : option (list str) :=
  match rest with
  | [] => Some lines
  | line :: rest' =>
      match strip line with
      | _ :: _ => assign_item lines i (clean_title line)
      | [] => title_loop lines rest' (S i)
      end
  end.

(** [postprocess] with the exception made explicit. *)
Definition postprocess_raising (text : str) : option str :=
  match text with
  | [] => Some text
  | _ :: _ =>
      let text := pvalue_pass text in
      let text := month_pass text in
      let lines := splitlines text in
      match title_loop lines lines 0 with
      | Some lines =>
          let text := join [0xA] lines in
          let text := terminology_pass text in
          let text := slide_pass text in
          Some text
      | None => None
      end
  end.

End Normalizer.

(** ** The retry decorator of [call_llm] (lines 251-256) *)
Module Retry.

(** The exception classes that decide the behaviour of the decorator: the
    hierarchy of the [openai] package (version 1), rooted in [Exception],
    and [OtherError] for an exception class outside of it. *)
Inductive exn_class : Type :=
| Exception_
| OpenAIError
| APIError
| APIResponseValidationError
| APIStatusError
| APIConnectionError
| APITimeoutError
| BadRequestError
| AuthenticationError
| PermissionDeniedError
| NotFoundError
| ConflictError
| UnprocessableEntityError
| RateLimitError
| InternalServerError
| OtherError.

(** The direct base class. *)
Definition base (c : exn_class) : option exn_class :=
  match c with
  | Exception_ => None
  | OpenAIError => Some Exception_
  | APIError => Some OpenAIError
  | APIResponseValidationError => Some APIError
  | APIStatusError => Some APIError
  | APIConnectionError => Some APIError
  | APITimeoutError => Some APIConnectionError
  | BadRequestError => Some APIStatusError
  | AuthenticationError => Some APIStatusError
  | PermissionDeniedError => Some APIStatusError
  | NotFoundError => Some APIStatusError
  | ConflictError => Some APIStatusError
  | UnprocessableEntityError => Some APIStatusError
  | RateLimitError => Some APIStatusError
  | InternalServerError => Some APIStatusError
  | OtherError => Some Exception_
  end.

Definition exn_eqb (a b : exn_class) : bool :=
  match a, b with
  | Exception_, Exception_ | OpenAIError, OpenAIError | APIError, APIError
  | APIResponseValidationError, APIResponseValidationError
  | APIStatusError, APIStatusError | APIConnectionError, APIConnectionError
  | APITimeoutError, APITimeoutError | BadRequestError, BadRequestError
  | AuthenticationError, AuthenticationError
  | PermissionDeniedError, PermissionDeniedError
  | NotFoundError, NotFoundError | ConflictError, ConflictError
  | UnprocessableEntityError, UnprocessableEntityError
  | RateLimitError, RateLimitError
  | InternalServerError, InternalServerError
  | OtherError, OtherError => true
  | _, _ => false
  end.

(** [issubclass_upto d c k]: [k] is reached from [c] in at most [d] steps
    along [base]. *)
Fixpoint issubclass_upto (depth : nat) (c k : exn_class) : bool :=
  exn_eqb c k ||
  match depth with
  | O => false
  | S d =>
      match base c with
      | Some b => issubclass_upto d b k
      | None => false
      end
  end.

(** The hierarchy is five classes deep. *)
Definition issubclass (c k : exn_class) : bool := issubclass_upto 5 c k.

(** One attempt either returns the text of the response or raises. *)
Inductive outcome : Type :=
| Returned (text : str)
| Raised (e : exn_class).

(** [retry_if_exception_type(classes)]: the attempt raised an instance of
    one of [classes]. *)
Definition retry_if_exception_type (classes : list exn_class) (o : outcome)
    : bool :=
  match o with
  | Raised e => existsb (issubclass e) classes
  | Returned _ => false
  end.

(** [wait_exponential(multiplier, min, max)] with the default base 2, as
    tenacity has it from version 8 on:
    [max(max(0, min), min(multiplier * 2 ** (attempt_number - 1), max))]. *)
Definition wait_exponential (multiplier min max : Z) (attempt_number : nat)
    : Z :=
  Z.max (Z.max 0 min)
        (Z.min (multiplier * 2 ^ (Z.of_nat attempt_number - 1)) max).

(** [stop_after_attempt(n)]. *)
Definition stop_after_attempt (max_attempt_number attempt_number : nat)
    : bool :=
  (max_attempt_number <=? attempt_number)%nat.

Record policy : Type := {
  retry : outcome -> bool;
  wait : nat -> Z;
  stop : nat -> bool
}.

(** The loop of the decorator with [reraise=True]: an outcome that the
    [retry] predicate rejects is handed to the caller as it is (a value is
    returned, an exception raised); when [stop] holds, the exception of the
    last attempt is raised; otherwise the loop sleeps and tries again.
    [fn n] is the outcome of attempt number [n] of the wrapped function;
    the result pairs the final outcome with the sleeps in order.  [None]
    means that [fuel] attempts did not suffice. *)
Fixpoint attempts (pol : policy) (fn : nat -> outcome) (fuel : nat)
    (attempt_number : nat) (slept : list Z) : option (outcome * list Z) :=
  match fuel with
  | O => None
  | S fuel' =>
      let o := fn attempt_number in
      if negb (retry pol o) then Some (o, slept)
      else if stop pol attempt_number then Some (o, slept)
      else attempts pol fn fuel' (S attempt_number)
             (slept ++ [wait pol attempt_number])
  end.

(** Lines 251-256. *)
Definition call_llm_policy : policy := {|
  retry := retry_if_exception_type [APIError; RateLimitError; APITimeoutError];
  wait := wait_exponential 1 2 20;
  stop := stop_after_attempt 4
|}.

(** [call_llm] as its caller sees it: [service n] is the outcome of the
    [n]-th request to the API. *)
Definition call_llm (service : nat -> outcome) (fuel : nat)
    : option (outcome * list Z) :=
  attempts call_llm_policy service fuel 1 [].

End Retry.

(** ** The application around the normalizer

    The script of slide_creator_v3.py outside of [postprocess] and
    [call_llm]: the password gate (lines 28-76), [extract_slides_text]
    (206-213), [hash_bytes] (215-216), [_reset_output] (247-249),
    [to_docx] (286-299), the generation step (320-339) and the display
    (344-354).  A run of the script is a function of the session state and
    of the values of the widgets.  What the script obtains from outside
    (the hash function, the PDF reader, the document writer, the text of
    the rules) is a variable of the section; the answers of the API are
    given with each run. *)
Module App.

Import Unicode Str Normalizer Retry.

(** A [bytes] object: every element is a byte, 0 to 255. *)
Definition bytes := list Z.

(** [chr(c).encode("utf-8")]; [None] stands for [UnicodeEncodeError],
    which the strict codec raises for a surrogate. *)
Definition encode_char (c : Z) : option bytes :=
  if c <? 0x80 then Some [c]
  else if c <? 0x800 then
    Some [Z.lor 0xC0 (Z.shiftr c 6); Z.lor 0x80 (Z.land c 0x3F)]
  else if (0xD800 <=? c) && (c <=? 0xDFFF) then None
  else if c <? 0x10000 then
    Some [Z.lor 0xE0 (Z.shiftr c 12);
          Z.lor 0x80 (Z.land (Z.shiftr c 6) 0x3F);
          Z.lor 0x80 (Z.land c 0x3F)]
  else
    Some [Z.lor 0xF0 (Z.shiftr c 18);
          Z.lor 0x80 (Z.land (Z.shiftr c 12) 0x3F);
          Z.lor 0x80 (Z.land (Z.shiftr c 6) 0x3F);
          Z.lor 0x80 (Z.land c 0x3F)].

(** [s.encode("utf-8")]. *)
Fixpoint encode (s : str) : option bytes :=
  match s with
  | [] => Some []
  | c :: s' =>
      match encode_char c, encode s' with
      | Some b, Some bs => Some (b ++ bs)
      | _, _ => None
      end
  end.

(** [a == b] on strings. *)
Fixpoint str_eqb (a b : str) : bool :=
  match a, b with
  | [], [] => true
  | x :: a', y :: b' => (x =? y) && str_eqb a' b'
  | _, _ => false
  end.

(** [text.split(sep)] for a separator of one character. *)
Fixpoint split (sep : Z) (text : str) : list str :=
  match text with
  | [] => [[]]
  | c :: text' =>
      if c =? sep then [] :: split sep text'
      else
        match split sep text' with
        | l :: ls => (c :: l) :: ls
        | [] => [[c]]
        end
  end.

(** What [extract_text()] does on one page: it returns a text, returns
    [None], or raises. *)
Inductive page : Type :=
| PageText (t : str)
| PageNone
| PageRaises.

(** The loop of [extract_slides_text] (lines 210-212); [None] stands for
    the exception of a page. *)
Fixpoint extract_pages (pages : list page) : option (list str) :=
  match pages with
  | [] => Some []
  | p :: ps =>
      match p with
      | PageRaises => None
      | PageText t =>
          match extract_pages ps with
          | Some slides => Some (t :: slides)
          | None => None
          end
      | PageNone =>
          match extract_pages ps with
          | Some slides => Some ([] :: slides)
          | None => None
          end
      end
  end.

(** [st.session_state] with the five keys that the script uses; [None]
    is a missing key. *)
Record session : Type := {
  auth_ok : option bool;
  api_key : option str;
  gen_text : option str;
  docx_bytes : option bytes;
  last_key : option str
}.

Definition empty_session : session :=
  {| auth_ok := None; api_key := None; gen_text := None;
     docx_bytes := None; last_key := None |}.

(** Lines 247-249. *)
Definition _reset_output (ss : session) : session :=
  {| auth_ok := auth_ok ss; api_key := api_key ss; gen_text := None;
     docx_bytes := None; last_key := None |}.

(** The values of the widgets in one run: the two text inputs, the login
    button, the uploaded file (name and content) and the run button. *)
Record widgets : Type := {
  input_pw : str;
  input_api_key : str;
  login : bool;
  uploaded : option (str * bytes);
  run_btn : bool
}.

(** How a run of the script ends. *)
Inductive halt : Type :=
| Crashed                      (* an exception outside of a [try] *)
| StopInfo                     (* lines 66-68: not logged in *)
| StopNoKey                    (* lines 71-73: no API key *)
| StopError (e : exn_class)    (* lines 337-339 *)
| Done (shown : option (str * bytes * str)).
                               (* lines 344-354: text, file and widget key *)

(** Line 28. *)
Definition DEFAULT_PASSWORD_HASH : str := [].

(** Lines 33-34; [env] is the value of [APP_PASSWORD_HASH] in the
    environment. *)
Definition _get_password_hash (env : option str) : str :=
  strip (match env with Some v => v | None => DEFAULT_PASSWORD_HASH end).

(** The separator of line 323. *)
Definition page_break : str :=
  [0xA; 0xA; 0x2D; 0x2D; 0x2D; 0x20; 0x70; 0x61; 0x67; 0x65; 0x20; 0x62;
   0x72; 0x65; 0x61; 0x6B; 0x20; 0x2D; 0x2D; 0x2D; 0xA; 0xA].

(** The prefix ["dl-"] of line 352. *)
Definition s_dl : str := [0x64; 0x6C; 0x2D].

Section Script.

(** [hashlib.sha256(b).hexdigest()]. *)
Variable sha256_hexdigest : bytes -> str.

(** The constant [RULES] of lines 81-201. *)
Variable RULES : str.

(** [pdfplumber.open(b).pages] with the behaviour of [extract_text] on
    each page; [None] when the file cannot be opened. *)
Variable open_pdf : bytes -> option (list page).

(** The document with the paragraphs given, in the style of lines
    289-291, saved to bytes; [None] when the library raises. *)
Variable save_docx : list str -> option bytes.

(** Lines 30-31. *)
Definition _sha256 (text : str) : option str :=
  match encode text with
  | Some b => Some (sha256_hexdigest b)
  | None => None
  end.

(** Lines 215-216. *)
Definition hash_bytes (b : bytes) : str := sha256_hexdigest b.

(** Lines 206-213. *)
Definition extract_slides_text (uploaded_pdf : bytes) : option (list str) :=
  match open_pdf uploaded_pdf with
  | Some pages => extract_pages pages
  | None => None
  end.

(** Lines 286-299. *)
Definition to_docx (text : str) : option bytes := save_docx (split 0xA text).

(** Line 325. *)
Definition cache_key (name : str) (pdf_bytes : bytes) : option str :=
  match encode name, encode RULES with
  | Some n, Some r => Some (hash_bytes (n ++ pdf_bytes ++ r))
  | _, _ => None
  end.

(** Lines 52-63; [None] stands for the exception of [_sha256]. *)
Definition login_step (env : option str) (w : widgets) (ss : session)
    : option session :=
  match _get_password_hash env with
  | (_ :: _) as required_hash =>
      if login w then
        match _sha256 (input_pw w) with
        | Some digest =>
            Some {| auth_ok := Some (str_eqb digest required_hash);
                    api_key := Some (strip (input_api_key w));
                    gen_text := gen_text ss; docx_bytes := docx_bytes ss;
                    last_key := last_key ss |}
        | None => None
        end
      else Some ss
  | [] =>
      if login w then
        Some {| auth_ok := Some true;
                api_key := Some (strip (input_api_key w));
                gen_text := gen_text ss; docx_bytes := docx_bytes ss;
                last_key := last_key ss |}
      else Some ss
  end.

(** Lines 344-354. *)
Definition display (ss : session) : halt :=
  match gen_text ss, docx_bytes ss with
  | Some text, Some data =>
      Done (Some (text, data,
                  s_dl ++ match last_key ss with Some k => k | None => [] end))
  | _, _ => Done None
  end.

(** Lines 320-339, then the display.  [service p n] is the outcome of the
    [n]-th request to the API for the slides text [p].  The first [None]
    means that [fuel] attempts did not suffice for [call_llm]. *)
Definition generate (w : widgets) (service : str -> nat -> outcome)
    (fuel : nat) (ss : session) : option (session * halt) :=
  match uploaded w, run_btn w with
  | Some (name, pdf_bytes), true =>
      match extract_slides_text pdf_bytes with
      | None => Some (ss, Crashed)
      | Some slides =>
          let slides_joined := join page_break slides in
          match cache_key name pdf_bytes with
          | None => Some (ss, Crashed)
          | Some key =>
              match call_llm (service slides_joined) fuel with
              | None => None
              | Some (Raised e, _) => Some (ss, StopError e)
              | Some (Returned raw_text, _) =>
                  let final_text := postprocess raw_text in
                  match to_docx final_text with
                  | None => Some (ss, StopError OtherError)
                  | Some data =>
                      let ss' :=
                        {| auth_ok := auth_ok ss; api_key := api_key ss;
                           gen_text := Some final_text;
                           docx_bytes := Some data;
                           last_key := Some key |} in
                      Some (ss', display ss')
                  end
              end
          end
      end
  | _, _ => Some (ss, display ss)
  end.

(** One run of the script, lines 45-354. *)
Definition script (env : option str) (w : widgets)
    (service : str -> nat -> outcome) (fuel : nat) (ss : session)
    : option (session * halt) :=
  match login_step env w ss with
  | None => Some (ss, Crashed)
  | Some ss1 =>
      match auth_ok ss1 with
      | Some true =>
          match strip (match api_key ss1 with Some k => k | None => [] end) with
          | [] => Some (ss1, StopNoKey)
          | _ :: _ => generate w service fuel ss1
          end
      | _ => Some (ss1, StopInfo)
      end
  end.

(** What happens to the session: a run of the script, or the callback of
    the uploader (line 308). *)
Inductive event : Type :=
| Rerun (w : widgets) (service : str -> nat -> outcome)
| UploaderChanged.

Definition step (env : option str) (ss : session) (ev : event) : session :=
  match ev with
  | Rerun w service =>
      match script env w service 4 ss with
      | Some (ss', _) => ss'
      | None => ss
      end
  | UploaderChanged => _reset_output ss
  end.

(** The session after a sequence of events, from a fresh session. *)
Definition run (env : option str) (evs : list event) : session :=
  fold_left (step env) evs empty_session.

End Script.

End App.

(** ** Notions used in the statements *)
Module Props.

Import Unicode Str Re Normalizer.

(** A line is blank when [strip()] leaves nothing of it. *)
Definition blank (line : str) : Prop := strip line = [].

(** [contains w s]: [w] occurs somewhere in [s]. *)
Fixpoint contains (w s : str) : bool :=
  match s with
  | [] => starts_with w []
  | _ :: s' => starts_with w s || contains w s'
  end.

(** The closing set that matches the opening class of line 234, glyph for
    glyph: U+300D U+300F U+201D U+0022 U+FF02. *)
Definition is_closing_spec (c : Z) : bool :=
  (c =? 0x300D) || (c =? 0x300F) || (c =? 0x201D) || (c =? 0x22)
  || (c =? 0xFF02).

(** The title line as the specification words it: surrounding whitespace
    trimmed, then the leading run of opening glyphs and the trailing run of
    glyphs of the matching closing set removed. *)
Definition spec_title_line (line : str) : str :=
  drop_trailing is_closing_spec (drop_while is_opening (strip line)).

(** The white corner brackets U+300E and U+300F: the two glyphs on which
    the class of line 235 and the matching closing set differ. *)
Definition white_corner (c : Z) : bool := (c =? 0x300E) || (c =? 0x300F).

(** The longest suffix of [s] whose characters all satisfy [p]. *)
Fixpoint trailing_run (p : Z -> bool) (s : str) : str :=
  match s with
  | [] => []
  | _ :: s' => if forallb p s then s else trailing_run p s'
  end.

(** [plain_tail line]: behind its leading opening glyphs, the trimmed line
    ends in no run of closing glyphs that holds a white corner bracket. *)
Definition plain_tail (line : str) : bool :=
  forallb (fun c => negb (white_corner c))
    (trailing_run (fun c => is_closing_spec c || white_corner c)
       (drop_while is_opening (strip line))).

(** [no_match r prev s]: the pattern [r] matches at no position of [s],
    where [prev] is the character in front of [s]. *)
Fixpoint no_match (r : regex) (prev : option Z) (s : str) : Prop :=
  match_at r prev s = None /\
  match s with
  | [] => True
  | c :: s' => no_match r (Some c) s'
  end.

(** The state of a reader of lines: at the start of a line, inside a
    line, or just behind a carriage return. *)
Inductive lstate : Type := Closed | Opened | AfterCR.

(** Number of lines that [splitlines] finds in [s] when the reader is in
    state [q]. *)
Fixpoint count_lines (q : lstate) (s : str) : nat :=
  match s with
  | [] => match q with Opened => 1 | _ => 0 end
  | c :: s' =>
      if c =? 0xD then S (count_lines AfterCR s')
      else if (c =? 0xA) && match q with AfterCR => true | _ => false end
      then count_lines Closed s'
      else if is_linebreak c then S (count_lines Closed s')
      else count_lines Opened s'
  end.

(** [shrinks t s]: [t] arises from [s] by deleting characters and by
    replacing a character that is no line boundary with a non-empty block
    of such characters. *)
Inductive shrinks : str -> str -> Prop :=
| shrinks_nil : shrinks [] []
| shrinks_keep c t s : shrinks t s -> shrinks (c :: t) (c :: s)
| shrinks_drop c t s : shrinks t s -> shrinks t (c :: s)
| shrinks_block u c t s :
    u <> [] -> Forall (fun x => is_linebreak x = false) u ->
    is_linebreak c = false ->
    shrinks t s -> shrinks (u ++ t) (c :: s).

(** Length of the match of the p-value pattern at the head of [s]. *)
Definition pvalue_len (s : str) : option nat :=
  match s with
  | c :: s' =>
      if is_pvariant c then
        match drop_while is_space s' with
        | e :: s'' =>
            if e =? 0x3D
            then Some (S (length (take_while is_space s'))
                       + S (length (take_while is_space s'')))%nat
            else None
        | [] => None
        end
      else None
  | [] => None
  end.

(** Length of the match of the month pattern at the head of [s], behind
    the character [prev]. *)
Definition month_len (prev : option Z) (s : str) : option nat :=
  match prev, s with
  | Some d, c :: _ => if is_digit d && (c =? c_month) then Some 1%nat else None
  | _, _ => None
  end.

(** Length of the match of [re_open] at the head of [s]. *)
Definition open_len (prev : option Z) (s : str) : option nat :=
  match prev, s with
  | None, c :: s' =>
      if is_opening c then Some (S (length (take_while is_opening s')))
      else None
  | _, _ => None
  end.

(** Length of the match of [re_close] at the head of [s]. *)
Definition close_len (s : str) : option nat :=
  match s with
  | c :: s' =>
      if is_closing c && at_eol (drop_while is_closing s')
      then Some (S (length (take_while is_closing s')))
      else None
  | [] => None
  end.

(** [has_verb x]: one of the two verbs occurs in [x]. *)
Definition has_verb (x : str) : bool :=
  contains s_teiji x || contains s_hyoji x.

(** What follows the words of [re_slide]: a run [x] free of line feed and
    full stop that holds a verb, then the full stop. *)
Definition slide_tail_len (s : str) : option nat :=
  match drop_while not_nl_maru s with
  | c :: _ =>
      if (c =? c_maru) && has_verb (take_while not_nl_maru s)
      then Some (S (length (take_while not_nl_maru s)))
      else None
  | [] => None
  end.

(** Length of the match of [re_slide] at the head of [s]. *)
Definition slide_len (s : str) : option nat :=
  if starts_with s_slide_ni s
  then match slide_tail_len (skipn 5 s) with
       | Some n => Some (5 + n)%nat
       | None => None
       end
  else None.

(** [unmatched len s]: the match function [len] finds nothing at any
    position of [s]. *)
Fixpoint unmatched (len : str -> option nat) (s : str) : Prop :=
  match s with
  | [] => True
  | _ :: s' => len s = None /\ unmatched len s'
  end.

(** [subseq t s]: [t] arises from [s] by deleting characters. *)
Inductive subseq : str -> str -> Prop :=
| subseq_nil : subseq [] []
| subseq_keep c t s : subseq t s -> subseq (c :: t) (c :: s)
| subseq_drop c t s : subseq t s -> subseq t (c :: s).

End Props.

(** ** Notions used in the statements about the application *)
Module AppProps.

Import Unicode Str Normalizer Retry App.

(** The entry of [extract_slides_text] for a page. *)
Definition page_text (p : page) : str :=
  match p with
  | PageText t => t
  | PageNone | PageRaises => []
  end.

(** A digit of a lower-case hexadecimal numeral. *)
Definition lower_hex (c : Z) : bool :=
  ((0x30 <=? c) && (c <=? 0x39)) || ((0x61 <=? c) && (c <=? 0x66)).

(** A surrogate code point. *)
Definition surrogate (c : Z) : bool := (0xD800 <=? c) && (c <=? 0xDFFF).

(** The three artifacts of a generation. *)
Definition artifacts (ss : session) : option str * option bytes * option str :=
  (gen_text ss, docx_bytes ss, last_key ss).

(** A session is consistent when its artifacts are all there or all
    missing, the stored document is the one made from the stored text, the
    stored text is a result of the normalizer, and the stored API key is
    trimmed. *)
Definition consistent (save_docx : list str -> option bytes) (ss : session)
    : Prop :=
  match gen_text ss, docx_bytes ss, last_key ss with
  | None, None, None => True
  | Some text, Some data, Some _ =>
      save_docx (split 0xA text) = Some data /\
      exists raw, text = postprocess raw
  | _, _, _ => False
  end /\
  match api_key ss with
  | Some k => strip k = k
  | None => True
  end.

End AppProps.

(* ------------------------------------------------------------------ *)
(** * Properties *)
(* ------------------------------------------------------------------ *)

Import Unicode Str Re Normalizer Props.

(** ** Characters *)

Lemma in_table_In c t : in_table c t = true <-> In c t.
Proof.
  unfold in_table. rewrite existsb_exists. split.
  - intros [x [Hx He]]. apply Z.eqb_eq in He. now subst.
  - intros H. exists c. split; [assumption | apply Z.eqb_refl].
Qed.

Lemma linebreak_is_space c : is_linebreak c = true -> is_space c = true.
Proof.
  unfold is_linebreak, is_space. rewrite !in_table_In.
  unfold linebreak_table, space_table. simpl. intuition.
Qed.

Lemma pvariant_cases c :
  is_pvariant c = true -> c = 0x50 \/ c = 0xFF50 \/ c = 0xFF30.
Proof.
  unfold is_pvariant. rewrite !orb_true_iff, !Z.eqb_eq. tauto.
Qed.

Lemma pvariant_not_space c : is_pvariant c = true -> is_space c = false.
Proof. intros H. destruct (pvariant_cases c H) as [-> | [-> | ->]]; reflexivity. Qed.

Lemma pvariant_not_eq c : is_pvariant c = true -> (c =? 0x3D) = false.
Proof. intros H. destruct (pvariant_cases c H) as [-> | [-> | ->]]; reflexivity. Qed.

Lemma pvariant_not_linebreak c : is_pvariant c = true -> is_linebreak c = false.
Proof. intros H. destruct (pvariant_cases c H) as [-> | [-> | ->]]; reflexivity. Qed.

Lemma space_not_eq c : is_space c = true -> (c =? 0x3D) = false.
Proof.
  intros H. destruct (c =? 0x3D) eqn:E; [| reflexivity].
  apply Z.eqb_eq in E. subst c. discriminate H.
Qed.

Lemma space_not_pvariant c : is_space c = true -> is_pvariant c = false.
Proof.
  intros H. destruct (is_pvariant c) eqn:E; [| reflexivity].
  rewrite (pvariant_not_space c E) in H. discriminate.
Qed.

Lemma closing_cases c :
  is_closing c = true ->
  c = 0x300D \/ c = 0x300E \/ c = 0x201D \/ c = 0x22 \/ c = 0xFF02.
Proof.
  unfold is_closing. rewrite !orb_true_iff, !Z.eqb_eq. tauto.
Qed.

Lemma closing_not_lf c : is_closing c = true -> (c =? 0xA) = false.
Proof.
  intros H.
  destruct (closing_cases c H) as [-> | [-> | [-> | [-> | ->]]]]; reflexivity.
Qed.

(** ** Lists *)

Lemma take_drop_while p s : take_while p s ++ drop_while p s = s.
Proof.
  induction s as [| c s IH]; simpl; [reflexivity |].
  destruct (p c); simpl; [now rewrite IH | reflexivity].
Qed.

Lemma drop_while_head p s c s' : drop_while p s = c :: s' -> p c = false.
Proof.
  induction s as [| x s IH]; simpl; [discriminate |].
  destruct (p x) eqn:E; [assumption |].
  intros H. injection H as -> _. assumption.
Qed.

Lemma drop_while_app_all p w s :
  Forall (fun c => p c = true) w -> drop_while p (w ++ s) = drop_while p s.
Proof.
  induction 1 as [| c w Hc _ IH]; simpl; [reflexivity |].
  now rewrite Hc.
Qed.

Lemma take_while_app_all p w s :
  Forall (fun c => p c = true) w ->
  take_while p (w ++ s) = w ++ take_while p s.
Proof.
  induction 1 as [| c w Hc _ IH]; simpl; [reflexivity |].
  now rewrite Hc, IH.
Qed.

(** ** The matcher *)

Lemma star_greedy_final p prev s n :
  star_greedy p (fun _ _ m => Some m) prev s n
  = Some (n + length (take_while p s))%nat.
Proof.
  revert prev n. induction s as [| c s IH]; intros prev n; simpl.
  - f_equal. lia.
  - destruct (p c); simpl.
    + rewrite IH. f_equal. lia.
    + f_equal. lia.
Qed.

(** A greedy repetition whose continuation cannot start with a character
    of the class takes the whole run: giving characters back never helps. *)
Lemma star_greedy_commit p (k : cont) :
  (forall pv c s n, p c = true -> k pv (c :: s) n = None) ->
  (forall pv pv' s n, k pv s n = k pv' s n) ->
  forall s prev n,
    star_greedy p k prev s n
    = k prev (drop_while p s) (n + length (take_while p s))%nat.
Proof.
  intros Hfail Hprev. induction s as [| c s IH]; intros prev n; simpl.
  - f_equal. lia.
  - destruct (p c) eqn:E; simpl.
    + rewrite IH. rewrite (Hprev (Some c) prev).
      replace (S n + length (take_while p s))%nat
        with (n + S (length (take_while p s)))%nat by lia.
      destruct (k prev (drop_while p s) _) eqn:K; [reflexivity |].
      now apply Hfail.
    + f_equal. lia.
Qed.

Lemma match_pvalue prev s : match_at re_pvalue prev s = pvalue_len s.
Proof.
  unfold match_at, re_pvalue, pvalue_len. simpl.
  destruct s as [| c s]; [reflexivity |].
  destruct (is_pvariant c); [| reflexivity].
  rewrite star_greedy_commit.
  - destruct (drop_while is_space s) as [| e s'']; [reflexivity |].
    destruct (e =? 0x3D); [| reflexivity].
    rewrite star_greedy_final. f_equal. lia.
  - intros pv x t n Hx. now rewrite (space_not_eq x Hx).
  - reflexivity.
Qed.

Lemma match_month prev s : match_at re_month prev s = month_len prev s.
Proof.
  unfold match_at, re_month, month_len. simpl.
  destruct prev as [d |]; [| now destruct s].
  destruct (is_digit d); simpl.
  - destruct s as [| c s]; [reflexivity |]. now destruct (c =? c_month).
  - now destruct s.
Qed.

Lemma match_open prev s : match_at re_open prev s = open_len prev s.
Proof.
  unfold match_at, re_open, open_len. simpl.
  destruct prev as [d |]; [now destruct s |].
  destruct s as [| c s]; [reflexivity |].
  destruct (is_opening c); [| reflexivity].
  now rewrite star_greedy_final.
Qed.

Lemma match_close prev s : match_at re_close prev s = close_len s.
Proof.
  unfold match_at, re_close, close_len. simpl.
  destruct s as [| c s]; [reflexivity |].
  destruct (is_closing c); simpl; [| reflexivity].
  rewrite star_greedy_commit.
  - destruct (at_eol (drop_while is_closing s)); [f_equal; lia | reflexivity].
  - intros pv x t n Hx. unfold at_eol. now rewrite (closing_not_lf x Hx).
  - reflexivity.
Qed.
Lemma starts_with_take_while p w s :
  Forall (fun c => p c = true) w ->
  starts_with w (take_while p s) = starts_with w s.
Proof.
  intros Hw. revert s. induction Hw as [| o w Ho _ IH]; intros s; simpl.
  - reflexivity.
  - destruct s as [| c s]; simpl; [reflexivity |].
    destruct (p c) eqn:E; simpl.
    + now rewrite IH.
    + destruct (c =? o) eqn:Eo; [| reflexivity].
      apply Z.eqb_eq in Eo. subst o. congruence.
Qed.

Lemma not_nl_maru_maru c : (c =? c_maru) = true -> not_nl_maru c = false.
Proof. intros H. apply Z.eqb_eq in H. now subst c. Qed.

Lemma lazy_to_maru prev s n :
  star_lazy not_nl_maru (run (Lit c_maru) (fun _ _ m => Some m)) prev s n
  = match drop_while not_nl_maru s with
    | c :: _ =>
        if c =? c_maru
        then Some (S (n + length (take_while not_nl_maru s)))
        else None
    | [] => None
    end.
Proof.
  revert prev n. induction s as [| c s IH]; intros prev n; simpl.
  - reflexivity.
  - destruct (c =? c_maru) eqn:E.
    + rewrite (not_nl_maru_maru c E), E. simpl. f_equal. lia.
    + destruct (not_nl_maru c) eqn:P.
      * pose proof (IH (Some c) (S n)) as H. simpl in H. rewrite H.
        destruct (drop_while not_nl_maru s) as [| d t]; [reflexivity |].
        destruct (d =? c_maru); [simpl; f_equal; lia | reflexivity].
      * rewrite E. reflexivity.
Qed.

(** The continuation behind the first lazy run of [re_slide]. *)
Lemma verb_then_maru prev s n :
  run (Alt (lits [0x63D0] (Lit 0x793A)) (lits [0x8868] (Lit 0x793A)))
      (run (Seq (Star false not_nl_maru) (Lit c_maru)) (fun _ _ m => Some m))
      prev s n
  = if starts_with s_teiji s || starts_with s_hyoji s
    then match drop_while not_nl_maru (skipn 2 s) with
         | c :: _ =>
             if c =? c_maru
             then Some (S (S (S n)) + length (take_while not_nl_maru (skipn 2 s)))%nat
             else None
         | [] => None
         end
    else None.
Proof.
  simpl. destruct s as [| x s]; [reflexivity |].
  destruct s as [| y s].
  - simpl. destruct (x =? 0x63D0), (x =? 0x8868); reflexivity.
  - cbn [starts_with s_teiji s_hyoji skipn].
    destruct (x =? 0x63D0) eqn:E1.
    + apply Z.eqb_eq in E1. subst x. simpl.
      destruct (y =? 0x793A); simpl; [| reflexivity].
      pose proof (lazy_to_maru (Some y) s (S (S n))) as L. simpl in L.
      rewrite L. destruct (drop_while not_nl_maru s) as [| d t]; [reflexivity |].
      destruct (d =? c_maru); reflexivity.
    + destruct (x =? 0x8868) eqn:E2; [| reflexivity].
      simpl. destruct (y =? 0x793A); simpl; [| reflexivity].
      pose proof (lazy_to_maru (Some y) s (S (S n))) as L. simpl in L.
      rewrite L. destruct (drop_while not_nl_maru s) as [| d t]; [reflexivity |].
      destruct (d =? c_maru); reflexivity.
Qed.

Lemma teiji_in_class : Forall (fun c => not_nl_maru c = true) s_teiji.
Proof. repeat constructor. Qed.

Lemma hyoji_in_class : Forall (fun c => not_nl_maru c = true) s_hyoji.
Proof. repeat constructor. Qed.

Lemma verb_head_shape s :
  starts_with s_teiji s || starts_with s_hyoji s = true ->
  exists x y t, s = x :: y :: t /\ not_nl_maru x = true /\ not_nl_maru y = true.
Proof.
  destruct s as [| x [| y t]]; simpl.
  - discriminate.
  - rewrite !andb_false_r. discriminate.
  - intros H. exists x, y, t. split; [reflexivity |].
    apply orb_true_iff in H. rewrite !andb_true_r in H.
    destruct H as [H | H]; apply andb_true_iff in H; destruct H as [H1 H2];
      apply Z.eqb_eq in H1, H2; subst; split; reflexivity.
Qed.

Lemma has_verb_cons c x :
  has_verb (c :: x)
  = (starts_with s_teiji (c :: x) || starts_with s_hyoji (c :: x)) || has_verb x.
Proof.
  unfold has_verb. cbn [contains].
  destruct (starts_with s_teiji (c :: x)), (starts_with s_hyoji (c :: x)),
    (contains s_teiji x), (contains s_hyoji x); reflexivity.
Qed.

Lemma slide_tail prev s n :
  star_lazy not_nl_maru
    (run (Alt (lits [0x63D0] (Lit 0x793A)) (lits [0x8868] (Lit 0x793A)))
       (run (Seq (Star false not_nl_maru) (Lit c_maru)) (fun _ _ m => Some m)))
    prev s n
  = match slide_tail_len s with
    | Some m => Some (n + m)%nat
    | None => None
    end.
Proof.
  revert prev n. induction s as [| c s IH]; intros prev n.
  - reflexivity.
  - cbn [star_lazy]. rewrite verb_then_maru.
    unfold slide_tail_len.
    destruct (starts_with s_teiji (c :: s) || starts_with s_hyoji (c :: s)) eqn:V.
    + destruct (verb_head_shape _ V) as [x [y [t [Es [Px Py]]]]].
      injection Es as -> ->.
      assert (Hv : has_verb (take_while not_nl_maru (x :: y :: t)) = true).
      { cbn [take_while]. rewrite Px, Py. rewrite has_verb_cons.
        simpl in V |- *. now rewrite V. }
      rewrite Hv. cbn [skipn drop_while take_while]. rewrite Px, Py.
      destruct (drop_while not_nl_maru t) as [| d u] eqn:D.
      * rewrite (IH (Some x) (S n)). unfold slide_tail_len.
        cbn [drop_while]. rewrite Py, D. reflexivity.
      * destruct (d =? c_maru) eqn:Ed.
        -- simpl. f_equal. lia.
        -- rewrite (IH (Some x) (S n)). unfold slide_tail_len.
           cbn [drop_while]. rewrite Py, D, Ed. reflexivity.
    + cbn [drop_while take_while].
      destruct (not_nl_maru c) eqn:P.
      * rewrite (IH (Some c) (S n)). unfold slide_tail_len.
        rewrite has_verb_cons.
        assert (V' : starts_with s_teiji (c :: take_while not_nl_maru s)
                     || starts_with s_hyoji (c :: take_while not_nl_maru s) = false).
        { rewrite <- V.
          rewrite <- (starts_with_take_while not_nl_maru s_teiji (c :: s) teiji_in_class).
          rewrite <- (starts_with_take_while not_nl_maru s_hyoji (c :: s) hyoji_in_class).
          cbn [take_while]. now rewrite P. }
        rewrite V'. simpl orb.
        destruct (drop_while not_nl_maru s) as [| d u]; [reflexivity |].
        destruct ((d =? c_maru) && has_verb (take_while not_nl_maru s));
          [f_equal; simpl; lia | reflexivity].
      * rewrite andb_false_r. reflexivity.
Qed.

Lemma run_lits l r (k : cont) : forall prev s n,
  run (lits l r) k prev s n
  = if starts_with l s
    then run r k (fold_left (fun _ c => Some c) l prev)
           (skipn (length l) s) (n + length l)%nat
    else None.
Proof.
  induction l as [| o l IH]; intros prev s n.
  - simpl. f_equal. lia.
  - cbn [lits starts_with]. cbn [run].
    destruct s as [| c s]; [reflexivity |].
    destruct (c =? o) eqn:E; [| reflexivity].
    apply Z.eqb_eq in E. subst o.
    change (run (lits l r) k (Some c) s (S n) =
            if starts_with l s
            then run r k (fold_left (fun _ c => Some c) l (Some c))
                   (skipn (length l) s) (n + S (length l))%nat
            else None).
    rewrite IH. destruct (starts_with l s); [| reflexivity].
    f_equal. lia.
Qed.

Lemma match_slide prev s : match_at re_slide prev s = slide_len s.
Proof.
  unfold match_at, re_slide, slide_len. rewrite run_lits.
  destruct (starts_with s_slide_ni s); [| reflexivity].
  cbn [run]. rewrite slide_tail. reflexivity.
Qed.

(** None of the five patterns matches the empty string. *)
Lemma patterns_nonempty prev s :
  match_at re_pvalue prev s <> Some 0%nat /\
  match_at re_month prev s <> Some 0%nat /\
  match_at re_open prev s <> Some 0%nat /\
  match_at re_close prev s <> Some 0%nat /\
  match_at re_slide prev s <> Some 0%nat.
Proof.
  rewrite match_pvalue, match_month, match_open, match_close, match_slide.
  repeat split.
  - unfold pvalue_len. destruct s as [| c s]; [discriminate |].
    destruct (is_pvariant c); [| discriminate].
    destruct (drop_while is_space s) as [| e t]; [discriminate |].
    destruct (e =? 0x3D); discriminate.
  - unfold month_len. destruct prev as [d |], s as [| c s]; try discriminate.
    destruct (is_digit d && (c =? c_month)); discriminate.
  - unfold open_len. destruct prev as [d |], s as [| c s]; try discriminate.
    destruct (is_opening c); discriminate.
  - unfold close_len. destruct s as [| c s]; [discriminate |].
    destruct (is_closing c && at_eol (drop_while is_closing s)); discriminate.
  - unfold slide_len. destruct (starts_with s_slide_ni s); [| discriminate].
    destruct (slide_tail_len (skipn 5 s)); discriminate.
Qed.

(** ** Substitution in general *)
Section Sub.

Variable r : regex.
Variable repl : str.

Lemma sub_from_chars c : forall s skip prev,
  In c (sub_from r repl skip prev s) -> In c s \/ In c repl.
Proof.
  induction s as [| x s IH]; intros skip prev; simpl.
  - destruct skip; [| tauto]. destruct (match_at r prev []) as [[| m] |]; tauto.
  - destruct skip as [| k].
    + destruct (match_at r prev (x :: s)) as [[| m] |]; simpl;
        rewrite ?in_app_iff; simpl; intros H.
      * destruct H as [H | [H | H]]; [tauto | tauto |].
        destruct (IH _ _ H); tauto.
      * destruct H as [H | H]; [tauto |]. destruct (IH _ _ H); tauto.
      * destruct H as [H | H]; [tauto |]. destruct (IH _ _ H); tauto.
    + intros H. destruct (IH _ _ H); tauto.
Qed.

Hypothesis nonempty : forall prev s, match_at r prev s <> Some 0%nat.

Lemma sub_from_nil skip prev : sub_from r repl skip prev [] = [].
Proof.
  simpl. destruct skip; [| reflexivity].
  destruct (match_at r prev []) as [[| m] |] eqn:E; try reflexivity.
  now apply nonempty in E.
Qed.

Lemma sub_from_cons prev c s :
  sub_from r repl 0 prev (c :: s)
  = match match_at r prev (c :: s) with
    | Some n => repl ++ sub_from r repl (Nat.pred n) (Some c) s
    | None => c :: sub_from r repl 0 (Some c) s
    end.
Proof.
  cbn [sub_from]. destruct (match_at r prev (c :: s)) as [[| m] |] eqn:E;
    try reflexivity.
  now apply nonempty in E.
Qed.

(** A substitution whose matches begin with a character that is no line
    boundary, and whose replacement is empty or free of line boundaries,
    only shrinks the text. *)
Lemma sub_from_shrinks :
  (repl = [] \/
   (Forall (fun x => is_linebreak x = false) repl /\
    forall prev c s n, match_at r prev (c :: s) = Some n ->
                       is_linebreak c = false)) ->
  forall s skip prev, shrinks (sub_from r repl skip prev s) s.
Proof.
  intros Hrepl. induction s as [| c s IH]; intros skip prev.
  - rewrite sub_from_nil. constructor.
  - destruct skip as [| k].
    + rewrite sub_from_cons.
      destruct (match_at r prev (c :: s)) as [n |] eqn:E.
      * destruct Hrepl as [-> | [Hr Hc]].
        -- simpl. apply shrinks_drop, IH.
        -- destruct repl as [| h t] eqn:Er.
           ++ simpl. apply shrinks_drop, IH.
           ++ apply shrinks_block; [discriminate | assumption | | apply IH].
              eapply Hc, E.
      * apply shrinks_keep, IH.
    + cbn [sub_from]. apply shrinks_drop, IH.
Qed.

End Sub.

(** ** Counting lines *)

Lemma not_linebreak_neq c :
  is_linebreak c = false -> (c =? 0xD) = false /\ (c =? 0xA) = false.
Proof.
  intros H. split.
  - destruct (c =? 0xD) eqn:E; [| reflexivity].
    apply Z.eqb_eq in E. subst c. discriminate H.
  - destruct (c =? 0xA) eqn:E; [| reflexivity].
    apply Z.eqb_eq in E. subst c. discriminate H.
Qed.

Lemma count_lines_plain q c s :
  is_linebreak c = false -> count_lines q (c :: s) = count_lines Opened s.
Proof.
  intros H. destruct (not_linebreak_neq c H) as [H1 H2].
  cbn [count_lines]. now rewrite H1, H2, H.
Qed.

Lemma count_lines_closed_opened s :
  (count_lines Closed s <= count_lines Opened s <= S (count_lines Closed s))%nat.
Proof. destruct s as [| c s]; simpl; lia. Qed.

Lemma count_lines_aftercr_closed s :
  (count_lines AfterCR s <= count_lines Closed s <= S (count_lines AfterCR s))%nat.
Proof.
  destruct s as [| c s]; cbn [count_lines]; [lia |].
  destruct (c =? 0xD); [lia |].
  destruct (c =? 0xA) eqn:E; simpl.
  - apply Z.eqb_eq in E. subst c. simpl. lia.
  - lia.
Qed.

Lemma count_lines_opened_aftercr s :
  (count_lines Opened s <= S (count_lines AfterCR s))%nat.
Proof.
  destruct s as [| c s]; cbn [count_lines]; [lia |].
  destruct (c =? 0xD); [lia |].
  destruct (c =? 0xA) eqn:E; simpl.
  - apply Z.eqb_eq in E. subst c. simpl. lia.
  - destruct (is_linebreak c); lia.
Qed.

(** One more character in front never lowers the count. *)
Lemma count_lines_prepend q c s :
  (count_lines q s <= count_lines q (c :: s))%nat.
Proof.
  pose proof (count_lines_closed_opened s).
  pose proof (count_lines_aftercr_closed s).
  pose proof (count_lines_opened_aftercr s).
  cbn [count_lines]. destruct (c =? 0xD).
  - destruct q; lia.
  - destruct (c =? 0xA) eqn:E.
    + apply Z.eqb_eq in E. subst c. destruct q; simpl; lia.
    + simpl. destruct (is_linebreak c); destruct q; lia.
Qed.

Lemma count_lines_block q u t :
  u <> [] -> Forall (fun x => is_linebreak x = false) u ->
  count_lines q (u ++ t) = count_lines Opened t.
Proof.
  intros Hne Hu. revert q. induction Hu as [| x u Hx Hu IH]; intros q.
  - congruence.
  - simpl app. rewrite (count_lines_plain q x _ Hx).
    destruct u as [| y u]; [reflexivity |].
    apply IH. discriminate.
Qed.

Lemma shrinks_count_lines t s :
  shrinks t s -> forall q, (count_lines q t <= count_lines q s)%nat.
Proof.
  induction 1 as [| c t s _ IH | c t s _ IH | u c t s Hne Hu Hc _ IH]; intros q.
  - lia.
  - cbn [count_lines]. destruct (c =? 0xD).
    + apply le_n_S, IH.
    + destruct ((c =? 0xA) && match q with AfterCR => true | _ => false end).
      * apply IH.
      * destruct (is_linebreak c); [apply le_n_S |]; apply IH.
  - etransitivity; [apply IH | apply count_lines_prepend].
  - rewrite (count_lines_block q u t Hne Hu), (count_lines_plain q c s Hc).
    apply IH.
Qed.

Lemma splitlines_nil s : splitlines s = [] -> s = [].
Proof.
  destruct s as [| c s]; [reflexivity |]. simpl.
  destruct (is_linebreak c); [discriminate |].
  destruct (splitlines s); discriminate.
Qed.

Lemma count_lines_aftercr_other c s :
  (c =? 0xA) = false ->
  count_lines AfterCR (c :: s) = count_lines Closed (c :: s).
Proof. intros H. cbn [count_lines]. now rewrite H. Qed.

Lemma splitlines_length s : length (splitlines s) = count_lines Closed s.
Proof.
  induction s as [s IH] using (well_founded_induction
    (well_founded_ltof _ (@length Z))).
  destruct s as [| c s]; [reflexivity |].
  cbn [splitlines].
  destruct (is_linebreak c) eqn:L.
  - cbn [length]. destruct s as [| d s].
    + cbn [count_lines]. rewrite L. destruct (c =? 0xD), (c =? 0xA); reflexivity.
    + destruct (c =? 0xD) eqn:E1.
      * destruct (d =? 0xA) eqn:E2; cbn [andb].
        -- rewrite IH by (unfold ltof; simpl; lia).
           cbn [count_lines]. rewrite E1.
           apply Z.eqb_eq in E2. subst d. reflexivity.
        -- rewrite IH by (unfold ltof; simpl; lia).
           rewrite <- (count_lines_aftercr_other d s E2).
           cbn [count_lines]. rewrite E1. reflexivity.
      * cbn [andb]. rewrite IH by (unfold ltof; simpl; lia).
        cbn [count_lines]. rewrite E1, L.
        destruct (c =? 0xA); reflexivity.
  - rewrite (count_lines_plain Closed c s L).
    pose proof (IH s ltac:(unfold ltof; simpl; lia)) as Hs.
    destruct (splitlines s) as [| l ls] eqn:S.
    + apply splitlines_nil in S. subst s. reflexivity.
    + cbn [length] in *. rewrite Hs.
      destruct s as [| d s]; [discriminate S |]. reflexivity.
Qed.

(** ** [str.replace] *)

Lemma starts_with_head o old c s :
  starts_with (o :: old) (c :: s) = true -> c = o.
Proof.
  simpl. intros H. apply andb_true_iff in H. destruct H as [H _].
  now apply Z.eqb_eq in H.
Qed.

Lemma replace_from_chars old new c : forall s skip,
  In c (replace_from old new skip s) -> In c s \/ In c new.
Proof.
  induction s as [| x s IH]; intros skip; simpl; [tauto |].
  destruct skip as [| k].
  - destruct (starts_with old (x :: s)); simpl; rewrite ?in_app_iff; intros H.
    + destruct H as [H | H]; [tauto |]. destruct (IH _ H); tauto.
    + destruct H as [H | H]; [tauto |]. destruct (IH _ H); tauto.
  - intros H. destruct (IH _ H); tauto.
Qed.

Lemma replace_from_shrinks o old new :
  is_linebreak o = false -> new <> [] ->
  Forall (fun x => is_linebreak x = false) new ->
  forall s skip, shrinks (replace_from (o :: old) new skip s) s.
Proof.
  intros Ho Hne Hnew. induction s as [| c s IH]; intros skip.
  - constructor.
  - cbn [replace_from]. destruct skip as [| k].
    + destruct (starts_with (o :: old) (c :: s)) eqn:E.
      * apply shrinks_block; try assumption; [| apply IH].
        apply starts_with_head in E. now subst c.
      * apply shrinks_keep, IH.
    + apply shrinks_drop, IH.
Qed.

(** ** Lines *)

Lemma Forall_drop_while (P : Z -> Prop) p s :
  Forall P s -> Forall P (drop_while p s).
Proof.
  induction 1 as [| c s Hc Hs IH]; simpl; [constructor |].
  destruct (p c); [assumption | now constructor].
Qed.

Lemma Forall_drop_trailing (P : Z -> Prop) p s :
  Forall P s -> Forall P (drop_trailing p s).
Proof.
  induction 1 as [| c s Hc Hs IH]; cbn [drop_trailing]; [constructor |].
  destruct (forallb p (c :: s)); now constructor.
Qed.

Lemma Forall_strip (P : Z -> Prop) s : Forall P s -> Forall P (strip s).
Proof. intros H. now apply Forall_drop_trailing, Forall_drop_while. Qed.

Lemma Forall_sub_delete (P : Z -> Prop) r s :
  Forall P s -> Forall P (sub r [] s).
Proof.
  rewrite !Forall_forall. intros H c Hc.
  destruct (sub_from_chars r [] c s 0%nat None Hc) as [Hin | []].
  now apply H.
Qed.

Lemma Forall_clean_title (P : Z -> Prop) line :
  Forall P line -> Forall P (clean_title line).
Proof.
  intros H. unfold clean_title.
  now apply Forall_sub_delete, Forall_sub_delete, Forall_strip.
Qed.

Lemma strip_title_Forall (P : Z -> Prop) ls :
  Forall (Forall P) ls -> Forall (Forall P) (strip_title ls).
Proof.
  induction 1 as [| l ls Hl Hls IH]; cbn [strip_title]; [constructor |].
  destruct (strip l).
  - now constructor.
  - constructor; [now apply Forall_clean_title | assumption].
Qed.

Lemma strip_title_length ls : length (strip_title ls) = length ls.
Proof.
  induction ls as [| l ls IH]; cbn [strip_title]; [reflexivity |].
  destruct (strip l); simpl; [now rewrite IH | reflexivity].
Qed.

Lemma splitlines_no_linebreak s :
  Forall (Forall (fun c => is_linebreak c = false)) (splitlines s).
Proof.
  induction s as [s IH] using (well_founded_induction
    (well_founded_ltof _ (@length Z))).
  destruct s as [| c s]; [constructor |].
  cbn [splitlines]. destruct (is_linebreak c) eqn:L.
  - constructor; [constructor |].
    destruct s as [| d s]; [constructor |].
    destruct ((c =? 0xD) && (d =? 0xA)); apply IH; unfold ltof; simpl; lia.
  - pose proof (IH s ltac:(unfold ltof; simpl; lia)) as Hs.
    destruct (splitlines s) as [| l ls].
    + repeat constructor. assumption.
    + inversion Hs; subst. constructor; [now constructor | assumption].
Qed.

Lemma in_join c sep : forall ls,
  In c (join sep ls) -> In c sep \/ exists l, In l ls /\ In c l.
Proof.
  induction ls as [| l ls IH]; cbn [join]; [intros [] |].
  destruct ls as [| l' ls'].
  - intros H. right. exists l. simpl. tauto.
  - rewrite !in_app_iff. intros [H | [H | H]].
    + right. exists l. simpl. tauto.
    + tauto.
    + destruct (IH H) as [H' | [x [Hx Hc]]]; [tauto |].
      right. exists x. simpl in *. tauto.
Qed.

Lemma count_lines_line q l :
  Forall (fun c => is_linebreak c = false) l ->
  (count_lines q l <= 1)%nat.
Proof.
  intros H. revert q. induction H as [| c l Hc _ IH]; intros q.
  - destruct q; simpl; lia.
  - rewrite (count_lines_plain q c l Hc). apply IH.
Qed.

Lemma count_lines_line_lf q l rest :
  Forall (fun c => is_linebreak c = false) l ->
  match q with AfterCR => l <> [] | _ => True end ->
  count_lines q (l ++ 0xA :: rest) = S (count_lines Closed rest).
Proof.
  intros H. revert q. induction H as [| c l Hc _ IH]; intros q Hq.
  - destruct q; try reflexivity. congruence.
  - simpl app. rewrite (count_lines_plain q c _ Hc). now apply IH.
Qed.

Lemma count_lines_join ls :
  Forall (Forall (fun c => is_linebreak c = false)) ls ->
  (count_lines Closed (join [0xA%Z] ls) <= length ls)%nat.
Proof.
  induction 1 as [| l ls Hl Hls IH]; cbn [join]; [simpl; lia |].
  destruct ls as [| l' ls'].
  - simpl. apply count_lines_line, Hl.
  - change (l ++ [0xA] ++ join [0xA] (l' :: ls'))
      with (l ++ 0xA :: join [0xA] (l' :: ls')).
    rewrite (count_lines_line_lf Closed l _ Hl I).
    change (length (l :: l' :: ls')) with (S (length (l' :: ls'))).
    apply le_n_S, IH.
Qed.

Lemma title_pass_lines s :
  (length (splitlines (title_pass s)) <= length (splitlines s))%nat.
Proof.
  rewrite splitlines_length. unfold title_pass.
  rewrite <- (strip_title_length (splitlines s)).
  apply count_lines_join, strip_title_Forall, splitlines_no_linebreak.
Qed.

(** ** The passes only shrink the text *)

Lemma nonempty_pvalue prev s : match_at re_pvalue prev s <> Some 0%nat.
Proof. apply patterns_nonempty. Qed.

Lemma nonempty_month prev s : match_at re_month prev s <> Some 0%nat.
Proof. apply patterns_nonempty. Qed.

Lemma nonempty_open prev s : match_at re_open prev s <> Some 0%nat.
Proof. apply patterns_nonempty. Qed.

Lemma nonempty_close prev s : match_at re_close prev s <> Some 0%nat.
Proof. apply patterns_nonempty. Qed.

Lemma nonempty_slide prev s : match_at re_slide prev s <> Some 0%nat.
Proof. apply patterns_nonempty. Qed.

Lemma pvalue_pass_shrinks s : shrinks (pvalue_pass s) s.
Proof.
  apply sub_from_shrinks; [apply nonempty_pvalue |].
  right. split; [repeat constructor |].
  intros prev c t n. rewrite match_pvalue. unfold pvalue_len.
  destruct (is_pvariant c) eqn:E; [| discriminate].
  intros _. now apply pvariant_not_linebreak.
Qed.

Lemma month_pass_shrinks s : shrinks (month_pass s) s.
Proof.
  apply sub_from_shrinks; [apply nonempty_month |].
  right. split; [repeat constructor |].
  intros prev c t n. rewrite match_month. unfold month_len.
  destruct prev as [d |]; [| discriminate].
  destruct (is_digit d); [| discriminate]. simpl.
  destruct (c =? c_month) eqn:E; [| discriminate].
  apply Z.eqb_eq in E. subst c. reflexivity.
Qed.

Lemma slide_pass_shrinks s : shrinks (slide_pass s) s.
Proof. apply sub_from_shrinks; [apply nonempty_slide | now left]. Qed.

Lemma terminology_pass_lines q s :
  (count_lines q (terminology_pass s) <= count_lines q s)%nat.
Proof.
  unfold terminology_pass, replace.
  etransitivity; [apply shrinks_count_lines, replace_from_shrinks |
                  apply shrinks_count_lines, replace_from_shrinks];
    try reflexivity; try discriminate; repeat constructor.
Qed.

(** ** Line terminators in the output *)

Lemma title_pass_linebreaks s c :
  In c (title_pass s) -> is_linebreak c = true -> c = 0xA.
Proof.
  unfold title_pass. intros Hin Hc.
  destruct (in_join c [0xA] _ Hin) as [[H | []] | [l [Hl Hcl]]]; [now subst |].
  pose proof (strip_title_Forall _ _ (splitlines_no_linebreak s)) as F.
  rewrite Forall_forall in F. specialize (F l Hl).
  rewrite Forall_forall in F. specialize (F c Hcl). congruence.
Qed.

Lemma terminology_pass_chars s c :
  In c (terminology_pass s) -> In c s \/ In c s_control \/ In c s_kaihi.
Proof.
  unfold terminology_pass, replace. intros H.
  apply replace_from_chars in H. destruct H as [H | H]; [| tauto].
  apply replace_from_chars in H. tauto.
Qed.

Lemma postprocess_linebreaks s c :
  In c (postprocess s) -> is_linebreak c = true -> c = 0xA.
Proof.
  destruct s as [| x s]; [intros [] |].
  unfold postprocess, slide_pass, sub. intros Hin Hc.
  apply sub_from_chars in Hin. destruct Hin as [Hin | []].
  apply terminology_pass_chars in Hin.
  destruct Hin as [Hin | [Hin | Hin]].
  - now apply (title_pass_linebreaks _ c Hin).
  - simpl in Hin. repeat (destruct Hin as [<- | Hin]; [discriminate Hc |]).
    destruct Hin.
  - simpl in Hin. repeat (destruct Hin as [<- | Hin]; [discriminate Hc |]).
    destruct Hin.
Qed.

Lemma count_lf_line l :
  Forall (fun c => is_linebreak c = false) l -> List.count_occ Z.eq_dec l 0xA = 0%nat.
Proof.
  induction 1 as [| c l Hc _ IH]; [reflexivity |].
  simpl. destruct (Z.eq_dec c 0xA) as [-> | _]; [discriminate Hc | exact IH].
Qed.

Lemma count_lf_join ls :
  Forall (Forall (fun c => is_linebreak c = false)) ls ->
  List.count_occ Z.eq_dec (join [0xA] ls) 0xA = Nat.pred (length ls).
Proof.
  induction 1 as [| l ls Hl Hls IH]; [reflexivity |].
  cbn [join]. destruct ls as [| l' ls'].
  - simpl. now apply count_lf_line.
  - rewrite !count_occ_app, IH, (count_lf_line l Hl). reflexivity.
Qed.

Lemma title_pass_count_lf s :
  List.count_occ Z.eq_dec (title_pass s) 0xA = Nat.pred (length (splitlines s)).
Proof.
  unfold title_pass.
  rewrite count_lf_join, strip_title_length; [reflexivity |].
  apply strip_title_Forall, splitlines_no_linebreak.
Qed.

(** C10 (amended). The output of the normalizer holds no carriage return
    and no line boundary other than the line feed; the text that leaves
    the title step holds one line feed less than the input has lines, so
    every terminator has become one line feed and a terminator at the very
    end is dropped. *)
Theorem postprocess_line_terminators :
  (forall s c, In c (postprocess s) -> is_linebreak c = true -> c = 0xA) /\
  (forall s, ~ In 0xD (postprocess s)) /\
  (forall s, List.count_occ Z.eq_dec (title_pass s) 0xA
             = Nat.pred (length (splitlines s))).
Proof.
  split; [exact postprocess_linebreaks | split].
  - intros s H. apply postprocess_linebreaks in H; [discriminate | reflexivity].
  - exact title_pass_count_lf.
Qed.

Lemma postprocess_line_terminators_witness :
  In 0xA (postprocess [0x61; 0xD; 0xA; 0x62]) /\ is_linebreak 0xA = true /\
  0xA = 0xA.
Proof.
  split; [simpl; tauto | split; [reflexivity |]].
  apply (proj1 postprocess_line_terminators [0x61; 0xD; 0xA; 0x62] 0xA);
    [simpl; tauto | reflexivity].
Defined.

(** C10, as stated, fails: a text that ends with two terminators leaves
    the normalizer with one terminator at its end. *)
Lemma postprocess_trailing_terminator :
  postprocess [0x61; 0xA; 0xA] = [0x61; 0xA] /\
  [0x61; 0xA; 0xA] <> [] /\
  is_linebreak (last (postprocess [0x61; 0xA; 0xA]) 0) = true.
Proof. repeat split; [discriminate]. Qed.

(** ** The number of lines *)

Lemma shrinks_count_lf t s :
  shrinks t s ->
  (List.count_occ Z.eq_dec t 0xA%Z <= List.count_occ Z.eq_dec s 0xA%Z)%nat.
Proof.
  induction 1 as [| c t s _ IH | c t s _ IH | u c t s Hne Hu Hc _ IH].
  - lia.
  - simpl. destruct (Z.eq_dec c 0xA); lia.
  - simpl. destruct (Z.eq_dec c 0xA); lia.
  - rewrite count_occ_app, (count_lf_line u Hu). simpl.
    destruct (Z.eq_dec c 0xA); lia.
Qed.

Lemma count_lines_lf_only s :
  (forall c, In c s -> is_linebreak c = true -> c = 0xA) ->
  forall q, (count_lines q s <= S (List.count_occ Z.eq_dec s 0xA%Z))%nat.
Proof.
  induction s as [| c s IH]; intros H q.
  - destruct q; simpl; lia.
  - assert (Hs : forall x, In x s -> is_linebreak x = true -> x = 0xA)
      by (intros x Hx; apply H; now right).
    destruct (is_linebreak c) eqn:L.
    + assert (c = 0xA) by (apply H; [now left | exact L]). subst c.
      cbn [count_lines List.count_occ].
      destruct (Z.eq_dec 0xA 0xA) as [_ | N]; [| congruence].
      change (0xA =? 0xD) with false. change (0xA =? 0xA) with true.
      cbn [andb]. change (is_linebreak 0xA) with true.
      pose proof (IH Hs Closed). destruct q; cbn iota; lia.
    + rewrite (count_lines_plain q c s L).
      pose proof (IH Hs Opened). simpl.
      destruct (Z.eq_dec c 0xA); lia.
Qed.

Lemma postprocess_count_lf s :
  (List.count_occ Z.eq_dec (postprocess s) 0xA%Z
   <= Nat.pred (length (splitlines s)))%nat.
Proof.
  destruct s as [| c s]; [reflexivity |].
  unfold postprocess. cbv zeta.
  set (t2 := month_pass (pvalue_pass (c :: s))).
  etransitivity; [apply shrinks_count_lf, slide_pass_shrinks |].
  etransitivity.
  { unfold terminology_pass, replace.
    etransitivity; apply shrinks_count_lf, replace_from_shrinks;
      try reflexivity; try discriminate; repeat constructor. }
  rewrite (title_pass_count_lf t2).
  apply Nat.pred_le_mono. rewrite !splitlines_length. unfold t2.
  etransitivity; [apply shrinks_count_lines, month_pass_shrinks |].
  apply shrinks_count_lines, pvalue_pass_shrinks.
Qed.

(** C7. The output of the normalizer has as many lines as its input or
    fewer, where the lines of a text are those that [splitlines] finds:
    passes 1, 2, 4 and 5 delete characters or replace a character that is
    no line boundary by characters that are none, and pass 3 rejoins the
    lines it has split.  Counted in line feeds: the output holds fewer
    line feeds than the input has lines, hence no more line feeds than the
    input when the line feed is the only line boundary of the input. *)
Theorem postprocess_no_more_lines :
  (forall s, (length (splitlines (postprocess s)) <= length (splitlines s))%nat) /\
  (forall s, (List.count_occ Z.eq_dec (postprocess s) 0xA%Z
              <= Nat.pred (length (splitlines s)))%nat) /\
  (forall s, (forall c, In c s -> is_linebreak c = true -> c = 0xA) ->
             (List.count_occ Z.eq_dec (postprocess s) 0xA%Z
              <= List.count_occ Z.eq_dec s 0xA%Z)%nat).
Proof.
  split; [| split].
  - intros s. destruct s as [| c s]; [reflexivity |].
    unfold postprocess.
    set (t1 := pvalue_pass (c :: s)). set (t2 := month_pass t1).
    set (t3 := title_pass t2). set (t4 := terminology_pass t3).
    rewrite (splitlines_length (slide_pass t4)).
    etransitivity; [apply shrinks_count_lines, slide_pass_shrinks |].
    etransitivity; [apply terminology_pass_lines |].
    rewrite <- (splitlines_length t3). unfold t3.
    etransitivity; [apply title_pass_lines |].
    rewrite !splitlines_length.
    etransitivity; [apply shrinks_count_lines, month_pass_shrinks |].
    apply shrinks_count_lines, pvalue_pass_shrinks.
  - exact postprocess_count_lf.
  - intros s H. etransitivity; [apply postprocess_count_lf |].
    rewrite splitlines_length.
    pose proof (count_lines_lf_only s H Closed). lia.
Qed.

Lemma postprocess_no_more_lines_witness :
  (List.count_occ Z.eq_dec
     (postprocess [0x50; 0xA; 0x3D; 0xA; 0x31; 0xA]%Z) 0xA%Z
   <= List.count_occ Z.eq_dec [0x50; 0xA; 0x3D; 0xA; 0x31; 0xA]%Z 0xA%Z)%nat.
Proof.
  apply (proj2 (proj2 postprocess_no_more_lines)).
  intros c Hin Hc. simpl in Hin.
  repeat (destruct Hin as [<- | Hin]; [first [reflexivity | discriminate Hc] |]).
  destruct Hin.
Defined.

(** ** Pass 2: the month suffix *)

Lemma month_sub_cons prev c s :
  sub_from re_month s_kagetsu 0 prev (c :: s)
  = (if match prev with Some d => is_digit d | None => false end
        && (c =? c_month)
     then s_kagetsu else [c])
    ++ sub_from re_month s_kagetsu 0 (Some c) s.
Proof.
  rewrite (sub_from_cons _ _ nonempty_month), match_month.
  unfold month_len. destruct prev as [d |]; [| reflexivity].
  destruct (is_digit d && (c =? c_month)); reflexivity.
Qed.

Lemma month_sub_app prev a b :
  sub_from re_month s_kagetsu 0 prev (a ++ b)
  = sub_from re_month s_kagetsu 0 prev a
    ++ sub_from re_month s_kagetsu 0 (fold_left (fun _ c => Some c) a prev) b.
Proof.
  revert prev. induction a as [| c a IH]; intros prev.
  - rewrite (sub_from_nil _ _ nonempty_month). reflexivity.
  - rewrite <- app_comm_cons, !month_sub_cons, IH, app_assoc. reflexivity.
Qed.

Lemma month_sub_prev prev s :
  match prev with Some d => is_digit d | None => false end = false ->
  sub_from re_month s_kagetsu 0 prev s = month_pass s.
Proof.
  intros H. unfold month_pass, sub. destruct s as [| c s].
  - now rewrite !(sub_from_nil _ _ nonempty_month).
  - rewrite !month_sub_cons, H. reflexivity.
Qed.

Lemma month_sub_idem s : forall prev,
  sub_from re_month s_kagetsu 0 prev (sub_from re_month s_kagetsu 0 prev s)
  = sub_from re_month s_kagetsu 0 prev s.
Proof.
  induction s as [| c s IH]; intros prev.
  - now rewrite !(sub_from_nil _ _ nonempty_month).
  - rewrite month_sub_cons.
    destruct (match prev with Some d => is_digit d | None => false end
              && (c =? c_month)) eqn:E.
    + apply andb_true_iff in E. destruct E as [_ E].
      apply Z.eqb_eq in E. subst c.
      change (s_kagetsu ++ sub_from re_month s_kagetsu 0 (Some c_month) s)
        with (0x30F6 :: c_month :: sub_from re_month s_kagetsu 0 (Some c_month) s).
      rewrite month_sub_cons.
      replace (0x30F6 =? c_month) with false by reflexivity.
      rewrite andb_false_r. cbn [app].
      rewrite month_sub_cons. cbn [is_digit]. 
      replace (is_digit 0x30F6) with false by reflexivity.
      cbn [andb app]. now rewrite IH.
    + cbn [app]. rewrite month_sub_cons, E. cbn [app]. now rewrite IH.
Qed.

Lemma digit_not_month d : is_digit d = true -> (d =? c_month) = false.
Proof.
  intros H. destruct (d =? c_month) eqn:E; [| reflexivity].
  apply Z.eqb_eq in E. subst d. discriminate H.
Qed.

Lemma month_pass_digit pre d post :
  is_digit d = true ->
  month_pass (pre ++ d :: post)
  = month_pass pre ++ d :: sub_from re_month s_kagetsu 0 (Some d) post.
Proof.
  intros Hd. unfold month_pass, sub.
  rewrite month_sub_app, month_sub_cons, (digit_not_month d Hd), andb_false_r.
  reflexivity.
Qed.

(** C6. A digit directly followed by U+6708 has that character rewritten
    to U+30F6 U+6708 and is itself kept; nothing is rewritten where the
    suffix is already there; the pass is idempotent; and the normalizer
    maps 4 U+6708 to 4 U+30F6 U+6708 and leaves the latter as it is. *)
Theorem month_pass_correct :
  (forall pre d post, is_digit d = true ->
     month_pass (pre ++ d :: c_month :: post)
     = month_pass pre ++ d :: 0x30F6 :: c_month :: month_pass post) /\
  (forall pre d post, is_digit d = true ->
     month_pass (pre ++ d :: 0x30F6 :: c_month :: post)
     = month_pass pre ++ d :: 0x30F6 :: c_month :: month_pass post) /\
  (forall s, month_pass (month_pass s) = month_pass s) /\
  postprocess [0x34; c_month] = [0x34; 0x30F6; c_month] /\
  postprocess [0x34; 0x30F6; c_month] = [0x34; 0x30F6; c_month].
Proof.
  split; [| split; [| split; [| split; reflexivity]]].
  - intros pre d post Hd. rewrite (month_pass_digit pre d _ Hd).
    rewrite month_sub_cons. cbn [is_digit]. rewrite Hd, Z.eqb_refl. cbn [andb].
    rewrite (month_sub_prev (Some c_month) post) by reflexivity. reflexivity.
  - intros pre d post Hd. rewrite (month_pass_digit pre d _ Hd).
    rewrite month_sub_cons.
    replace (0x30F6 =? c_month) with false by reflexivity.
    rewrite andb_false_r. cbn [app].
    rewrite month_sub_cons.
    replace (is_digit 0x30F6) with false by reflexivity. cbn [andb app].
    rewrite (month_sub_prev (Some c_month) post) by reflexivity. reflexivity.
  - intros s. apply month_sub_idem.
Qed.

Lemma month_pass_correct_witness :
  is_digit 0x37 = true /\
  month_pass ([0x61] ++ 0x37 :: c_month :: [0x62])
  = month_pass [0x61] ++ 0x37 :: 0x30F6 :: c_month :: month_pass [0x62].
Proof.
  split; [reflexivity |].
  apply (proj1 month_pass_correct [0x61] 0x37 [0x62]). reflexivity.
Defined.

(** ** Passes without a match *)

Lemma sub_from_unmatched r repl (len : str -> option nat) :
  (forall prev s, match_at r prev s <> Some 0%nat) ->
  (forall prev s, match_at r prev s = len s) ->
  forall s prev, unmatched len s -> sub_from r repl 0 prev s = s.
Proof.
  intros Hne Hlen. induction s as [| c s IH]; intros prev H.
  - now apply sub_from_nil.
  - rewrite (sub_from_cons _ _ Hne), Hlen.
    destruct H as [H1 H2]. rewrite H1. f_equal. now apply IH.
Qed.

Lemma no_pvariant_unmatched s :
  Forall (fun c => is_pvariant c = false) s -> unmatched pvalue_len s.
Proof.
  induction 1 as [| c s Hc _ IH]; simpl; [exact I |].
  rewrite Hc. now split.
Qed.

Lemma pvalue_pass_noop s :
  Forall (fun c => is_pvariant c = false) s -> pvalue_pass s = s.
Proof.
  intros H. apply (sub_from_unmatched _ _ pvalue_len nonempty_pvalue match_pvalue).
  now apply no_pvariant_unmatched.
Qed.

Lemma month_pass_noop s : ~ In c_month s -> month_pass s = s.
Proof.
  unfold month_pass, sub. generalize (@None Z).
  induction s as [| c s IH]; intros prev H.
  - now apply sub_from_nil, nonempty_month.
  - rewrite month_sub_cons.
    destruct (c =? c_month) eqn:E.
    + apply Z.eqb_eq in E. subst c. exfalso. apply H. now left.
    + rewrite andb_false_r. cbn [app]. f_equal. apply IH.
      intros Hin. apply H. now right.
Qed.

Lemma strip_title_noop ls : Forall blank ls -> strip_title ls = ls.
Proof.
  induction 1 as [| l ls Hl _ IH]; cbn [strip_title]; [reflexivity |].
  unfold blank in Hl. rewrite Hl, IH. reflexivity.
Qed.

Lemma count_occ_cons_zero old c s :
  count_occ old (c :: s) = 0%nat ->
  starts_with old (c :: s) = false /\ count_occ old s = 0%nat.
Proof.
  cbn [count_occ]. destruct (starts_with old (c :: s)); [discriminate |].
  intros H. split; [reflexivity | exact H].
Qed.

Lemma replace_noop old new s :
  count_occ old s = 0%nat -> replace old new s = s.
Proof.
  unfold replace. induction s as [| c s IH]; intros H; [reflexivity |].
  apply count_occ_cons_zero in H. destruct H as [H1 H2].
  cbn [replace_from]. rewrite H1. f_equal. now apply IH.
Qed.

Lemma terminology_pass_noop s :
  count_occ s_taishogun s = 0%nat -> count_occ s_freedom_from s = 0%nat ->
  terminology_pass s = s.
Proof.
  intros H1 H2. unfold terminology_pass.
  rewrite (replace_noop s_taishogun _ s H1). now apply replace_noop.
Qed.

Lemma no_slide_unmatched s :
  count_occ s_slide_ni s = 0%nat -> unmatched slide_len s.
Proof.
  induction s as [| c s IH]; intros H; [exact I |].
  apply count_occ_cons_zero in H. destruct H as [H1 H2].
  split; [| now apply IH]. unfold slide_len. now rewrite H1.
Qed.

Lemma slide_pass_noop s : count_occ s_slide_ni s = 0%nat -> slide_pass s = s.
Proof.
  intros H. apply (sub_from_unmatched _ _ slide_len nonempty_slide match_slide).
  now apply no_slide_unmatched.
Qed.

(** ** The item assignment never raises *)

Lemma title_loop_strip_title rest : forall pre,
  title_loop (pre ++ rest) rest (length pre) = Some (pre ++ strip_title rest).
Proof.
  induction rest as [| line rest IH]; intros pre; cbn [title_loop strip_title].
  - reflexivity.
  - destruct (strip line) as [| x t].
    + replace (pre ++ line :: rest) with ((pre ++ [line]) ++ rest)
        by (rewrite <- app_assoc; reflexivity).
      replace (S (length pre)) with (length (pre ++ [line]))
        by (rewrite length_app; simpl; lia).
      rewrite IH, <- app_assoc. reflexivity.
    + unfold assign_item.
      assert (L : (length pre <? length (pre ++ line :: rest))%nat = true).
      { apply Nat.ltb_lt. rewrite length_app. simpl. lia. }
      rewrite L. f_equal.
      rewrite firstn_app, firstn_all, Nat.sub_diag. simpl firstn.
      rewrite app_nil_r. f_equal. f_equal.
      replace (S (length pre)) with (length pre + 1)%nat by lia.
      rewrite skipn_app, Nat.add_comm.
      replace (1 + length pre - length pre)%nat with 1%nat by lia.
      rewrite skipn_all2 by lia. reflexivity.
Qed.

Lemma postprocess_raising_returns text :
  postprocess_raising text = Some (postprocess text).
Proof.
  destruct text as [| c s]; [reflexivity |].
  unfold postprocess_raising, postprocess, title_pass.
  cbv zeta. pose proof (title_loop_strip_title
    (splitlines (month_pass (pvalue_pass (c :: s)))) []) as H.
  simpl app in H. simpl length in H. rewrite H. reflexivity.
Qed.

(** ** Patterns that do not look behind *)
Section Indep.

Variable r : regex.
Variable repl : str.
Variable len : str -> option nat.

Hypothesis nonempty : forall prev s, match_at r prev s <> Some 0%nat.
Hypothesis match_len : forall prev s, match_at r prev s = len s.
Hypothesis len_bound : forall s n, len s = Some n -> (n <= length s)%nat.

Lemma sub_from_prev : forall s skip prev prev',
  sub_from r repl skip prev s = sub_from r repl skip prev' s.
Proof.
  induction s as [| c s IH]; intros skip prev prev'.
  - now rewrite !(sub_from_nil _ _ nonempty).
  - destruct skip as [| k].
    + rewrite !(sub_from_cons _ _ nonempty), !match_len.
      destruct (len (c :: s)); reflexivity.
    + cbn [sub_from]. reflexivity.
Qed.

Lemma sub_from_skipn : forall s skip prev,
  sub_from r repl skip prev s = sub r repl (skipn skip s).
Proof.
  unfold sub. induction s as [| c s IH]; intros skip prev.
  - rewrite skipn_nil. now rewrite !(sub_from_nil _ _ nonempty).
  - destruct skip as [| k].
    + apply sub_from_prev.
    + cbn [sub_from skipn]. apply IH.
Qed.

Lemma sub_cons c s :
  sub r repl (c :: s)
  = match len (c :: s) with
    | Some n => repl ++ sub r repl (skipn (Nat.pred n) s)
    | None => c :: sub r repl s
    end.
Proof.
  unfold sub at 1. rewrite (sub_from_cons _ _ nonempty), match_len.
  destruct (len (c :: s)) as [n |].
  - now rewrite sub_from_skipn.
  - f_equal. apply sub_from_prev.
Qed.

(** When no match that starts in [pre] is affected by what follows,
    [pre] and [tail] are rewritten apart. *)
Lemma sub_app tail : forall pre,
  (forall a x u, pre = a ++ x :: u -> len (x :: u ++ tail) = len (x :: u)) ->
  sub r repl (pre ++ tail) = sub r repl pre ++ sub r repl tail.
Proof.
  intros pre. remember (length pre) as m eqn:Hm. revert pre Hm.
  induction m as [m IH] using lt_wf_ind. intros pre Hm Hloc.
  destruct pre as [| x pre].
  - unfold sub at 2. now rewrite (sub_from_nil _ _ nonempty).
  - rewrite <- app_comm_cons, !sub_cons.
    rewrite (Hloc [] x pre eq_refl).
    destruct (len (x :: pre)) as [n |] eqn:E.
    + apply len_bound in E. simpl in E.
      rewrite skipn_app.
      replace (Nat.pred n - length pre)%nat with 0%nat by lia.
      simpl skipn at 2. rewrite <- app_assoc. f_equal.
      apply (IH (length (skipn (Nat.pred n) pre))).
      * rewrite length_skipn. subst m. simpl. lia.
      * reflexivity.
      * intros a y u Hu. apply (Hloc (x :: firstn (Nat.pred n) pre ++ a)).
        rewrite <- (firstn_skipn (Nat.pred n) pre) at 1. rewrite Hu.
        rewrite <- app_comm_cons, <- app_assoc. reflexivity.
    + rewrite <- app_comm_cons. f_equal.
      apply (IH (length pre)); [subst m; simpl; lia | reflexivity |].
      intros a y u Hu. apply (Hloc (x :: a)). now rewrite Hu.
Qed.

End Indep.

Lemma drop_while_app p a b :
  drop_while p (a ++ b)
  = if forallb p a then drop_while p b else drop_while p a ++ b.
Proof.
  induction a as [| c a IH]; simpl; [reflexivity |].
  destruct (p c); simpl; [exact IH | reflexivity].
Qed.

Lemma take_while_app p a b :
  take_while p (a ++ b)
  = if forallb p a then a ++ take_while p b else take_while p a.
Proof.
  induction a as [| c a IH]; simpl; [reflexivity |].
  destruct (p c); simpl; [| reflexivity].
  rewrite IH. now destruct (forallb p a).
Qed.

Lemma forallb_drop_while p a : forallb p a = true -> drop_while p a = [].
Proof.
  induction a as [| c a IH]; simpl; [reflexivity |].
  destruct (p c); simpl; [exact IH | discriminate].
Qed.

Lemma forallb_take_while p a : forallb p a = true -> take_while p a = a.
Proof.
  induction a as [| c a IH]; simpl; [reflexivity |].
  destruct (p c); simpl; [| discriminate]. intros H. now rewrite IH.
Qed.

Lemma not_forallb_drop_while p a :
  forallb p a = false -> drop_while p a <> [].
Proof.
  induction a as [| c a IH]; simpl; [discriminate |].
  destruct (p c); simpl; [exact IH | discriminate].
Qed.

Lemma take_while_length p s : (length (take_while p s) <= length s)%nat.
Proof.
  induction s as [| c s IH]; simpl; [lia |]. destruct (p c); simpl; lia.
Qed.

Lemma take_drop_length p s :
  (length (take_while p s) + length (drop_while p s) = length s)%nat.
Proof. rewrite <- length_app, take_drop_while. reflexivity. Qed.

Lemma drop_while_In p s e t : drop_while p s = e :: t -> In e s.
Proof.
  induction s as [| c s IH]; simpl; [discriminate |].
  destruct (p c).
  - intros H. right. now apply IH.
  - intros H. injection H as -> _. now left.
Qed.

(** ** Pass 1: the p-value notation *)

Lemma pvalue_len_bound s n : pvalue_len s = Some n -> (n <= length s)%nat.
Proof.
  unfold pvalue_len. destruct s as [| c s]; [discriminate |].
  destruct (is_pvariant c); [| discriminate].
  destruct (drop_while is_space s) as [| e t] eqn:D; [discriminate |].
  destruct (e =? 0x3D); [| discriminate].
  intros H. injection H as <-.
  pose proof (take_drop_length is_space s) as L. rewrite D in L.
  pose proof (take_while_length is_space t). simpl in *. lia.
Qed.

(** A match never reaches over a character that is neither whitespace nor
    the equals sign. *)
Lemma pvalue_len_stop x u c t :
  is_space c = false -> (c =? 0x3D) = false ->
  pvalue_len (x :: u ++ c :: t) = pvalue_len (x :: u).
Proof.
  intros Hs He. unfold pvalue_len.
  destruct (is_pvariant x); [| reflexivity].
  rewrite drop_while_app, take_while_app.
  destruct (forallb is_space u) eqn:F.
  - rewrite (forallb_drop_while _ _ F). simpl. now rewrite Hs, He.
  - destruct (drop_while is_space u) as [| e v] eqn:D.
    + now apply not_forallb_drop_while in F.
    + rewrite <- app_comm_cons. destruct (e =? 0x3D); [| reflexivity].
      rewrite take_while_app. destruct (forallb is_space v) eqn:F'.
      * rewrite (forallb_take_while _ _ F'). simpl. rewrite Hs.
        now rewrite app_nil_r.
      * reflexivity.
Qed.

Lemma pvalue_sub_app pre c tail :
  is_pvariant c = true ->
  pvalue_pass (pre ++ c :: tail) = pvalue_pass pre ++ pvalue_pass (c :: tail).
Proof.
  intros Hc. unfold pvalue_pass.
  apply (sub_app _ _ pvalue_len nonempty_pvalue match_pvalue pvalue_len_bound).
  intros a x u _. apply pvalue_len_stop.
  - now apply pvariant_not_space.
  - now apply pvariant_not_eq.
Qed.

Lemma pvalue_len_occurrence c w1 w2 rest :
  is_pvariant c = true ->
  Forall (fun x => is_space x = true) w1 ->
  Forall (fun x => is_space x = true) w2 ->
  pvalue_len (c :: w1 ++ 0x3D :: w2 ++ rest)
  = Some (S (length w1) + S (length (w2 ++ take_while is_space rest)))%nat.
Proof.
  intros Hc H1 H2. unfold pvalue_len. rewrite Hc.
  rewrite (drop_while_app_all _ _ _ H1), (take_while_app_all _ _ _ H1).
  simpl drop_while. simpl take_while. rewrite app_nil_r.
  rewrite (take_while_app_all _ _ _ H2). reflexivity.
Qed.

Lemma pvalue_pass_occurrence pre c w1 w2 rest :
  is_pvariant c = true ->
  Forall (fun x => is_space x = true) w1 ->
  Forall (fun x => is_space x = true) w2 ->
  pvalue_pass (pre ++ c :: w1 ++ 0x3D :: w2 ++ rest)
  = pvalue_pass pre ++ s_p_eq ++ pvalue_pass (drop_while is_space rest).
Proof.
  intros Hc H1 H2. rewrite (pvalue_sub_app pre c _ Hc). f_equal.
  unfold pvalue_pass.
  rewrite (sub_cons _ _ pvalue_len nonempty_pvalue match_pvalue).
  rewrite (pvalue_len_occurrence c w1 w2 rest Hc H1 H2). f_equal. f_equal.
  set (m := (w1 ++ 0x3D :: w2 ++ take_while is_space rest)).
  assert (E : w1 ++ 0x3D :: w2 ++ rest = m ++ drop_while is_space rest).
  { unfold m. rewrite <- (take_drop_while is_space rest) at 1.
    rewrite <- !app_assoc, <- app_comm_cons, <- !app_assoc. reflexivity. }
  assert (L : Nat.pred (S (length w1) + S (length (w2 ++ take_while is_space rest)))
              = length m).
  { unfold m. rewrite !length_app. simpl. rewrite !length_app. lia. }
  rewrite E, L, skipn_app, skipn_all, Nat.sub_diag. reflexivity.
Qed.

Lemma no_eq_unmatched s : ~ In 0x3D s -> unmatched pvalue_len s.
Proof.
  induction s as [| c s IH]; intros H; [exact I |].
  split.
  - unfold pvalue_len. destruct (is_pvariant c); [| reflexivity].
    destruct (drop_while is_space s) as [| e t] eqn:D; [reflexivity |].
    destruct (e =? 0x3D) eqn:E; [| reflexivity].
    apply Z.eqb_eq in E. subst e. apply drop_while_In in D.
    exfalso. apply H. now right.
  - apply IH. intros Hin. apply H. now right.
Qed.

(** C1 (amended). An occurrence of P, U+FF50 or U+FF30, optional
    whitespace, the equals sign U+003D and optional whitespace is rewritten
    to the two characters p=; a text without U+003D is left as it is (the
    full-width equals sign is not matched), and so is one without any of
    the three letters (the half-width small p is not matched). *)
Theorem pvalue_pass_correct :
  (forall pre c w1 w2 rest,
     is_pvariant c = true ->
     Forall (fun x => is_space x = true) w1 ->
     Forall (fun x => is_space x = true) w2 ->
     pvalue_pass (pre ++ c :: w1 ++ 0x3D :: w2 ++ rest)
     = pvalue_pass pre ++ s_p_eq ++ pvalue_pass (drop_while is_space rest)) /\
  (forall c, is_pvariant c = true <-> c = 0x50 \/ c = 0xFF50 \/ c = 0xFF30) /\
  (forall s, ~ In 0x3D s -> pvalue_pass s = s) /\
  (forall s, Forall (fun c => is_pvariant c = false) s -> pvalue_pass s = s) /\
  postprocess [0x50; 0x20; 0x3D; 0x20; 0x30; 0x2E; 0x30; 0x33]
  = [0x70; 0x3D; 0x30; 0x2E; 0x30; 0x33].
Proof.
  split; [exact pvalue_pass_occurrence |]. split; [| split; [| split]].
  - intros c. split; [apply pvariant_cases |].
    intros [-> | [-> | ->]]; reflexivity.
  - intros s H.
    apply (sub_from_unmatched _ _ pvalue_len nonempty_pvalue match_pvalue).
    now apply no_eq_unmatched.
  - exact pvalue_pass_noop.
  - reflexivity.
Qed.

Lemma pvalue_pass_correct_witness :
  pvalue_pass ([0x61] ++ 0xFF30 :: [0x20; 0x3000] ++ 0x3D :: [0x9] ++ [0x20; 0x31])
  = pvalue_pass [0x61] ++ s_p_eq ++ pvalue_pass (drop_while is_space [0x20; 0x31]).
Proof.
  apply (proj1 pvalue_pass_correct); [reflexivity | |];
    repeat constructor.
Defined.

(** C1, as stated, fails on its own example: the full-width equals sign
    U+FF1D is not the equals sign of the pattern, so P U+FF1D 0.03 is
    returned unchanged. *)
Lemma postprocess_fullwidth_equals :
  postprocess [0x50; 0xFF1D; 0x30; 0x2E; 0x30; 0x33]
  = [0x50; 0xFF1D; 0x30; 0x2E; 0x30; 0x33] /\
  postprocess [0x50; 0xFF1D; 0x30; 0x2E; 0x30; 0x33]
  <> [0x70; 0x3D; 0x30; 0x2E; 0x30; 0x33].
Proof. split; [reflexivity | discriminate]. Qed.

Lemma pvalue_pass_cons c s :
  pvalue_pass (c :: s)
  = match pvalue_len (c :: s) with
    | Some n => s_p_eq ++ pvalue_pass (skipn (Nat.pred n) s)
    | None => c :: pvalue_pass s
    end.
Proof. apply (sub_cons _ _ pvalue_len nonempty_pvalue match_pvalue). Qed.

(** What stands behind leading whitespace is not turned into an equals
    sign by the pass. *)
Lemma pvalue_pass_after_space s :
  match drop_while is_space s with
  | e :: _ => (e =? 0x3D) = false
  | [] => True
  end ->
  match drop_while is_space (pvalue_pass s) with
  | e :: _ => (e =? 0x3D) = false
  | [] => True
  end.
Proof.
  induction s as [| x t IH]; [intros _; exact I |].
  rewrite pvalue_pass_cons. cbn [drop_while].
  destruct (is_space x) eqn:Sx.
  - unfold pvalue_len. rewrite (space_not_pvariant x Sx).
    cbn [drop_while]. rewrite Sx. exact IH.
  - intros Hx. destruct (pvalue_len (x :: t)); cbn [drop_while s_p_eq app].
    + reflexivity.
    + now rewrite Sx.
Qed.

Lemma pvalue_pass_unmatched s : unmatched pvalue_len (pvalue_pass s).
Proof.
  remember (length s) as m eqn:Hm. revert s Hm.
  induction m as [m IH] using lt_wf_ind. intros s Hm.
  destruct s as [| c s]; [exact I |].
  rewrite pvalue_pass_cons. destruct (pvalue_len (c :: s)) as [n |] eqn:E.
  - cbn [s_p_eq app unmatched]. split; [reflexivity |]. split; [reflexivity |].
    apply (IH (length (skipn (Nat.pred n) s))); [| reflexivity].
    rewrite length_skipn. subst m. simpl. lia.
  - cbn [unmatched]. split.
    + unfold pvalue_len in *. destruct (is_pvariant c); [| reflexivity].
      pose proof (pvalue_pass_after_space s) as A.
      destruct (drop_while is_space s) as [| e t].
      * specialize (A I).
        destruct (drop_while is_space (pvalue_pass s)); [reflexivity |].
        now rewrite A.
      * destruct (e =? 0x3D) eqn:Ee; [discriminate E |].
        specialize (A eq_refl).
        destruct (drop_while is_space (pvalue_pass s)); [reflexivity |].
        now rewrite A.
    + apply (IH (length s)); [subst m; simpl; lia | reflexivity].
Qed.

Lemma pvalue_pass_idem s : pvalue_pass (pvalue_pass s) = pvalue_pass s.
Proof.
  apply (sub_from_unmatched _ _ pvalue_len nonempty_pvalue match_pvalue).
  apply pvalue_pass_unmatched.
Qed.

(** ** Pass 4: the terminology *)

Lemma replace_from_skipn old new : forall s skip,
  replace_from old new skip s = replace old new (skipn skip s).
Proof.
  unfold replace. induction s as [| c s IH]; intros skip.
  - now rewrite skipn_nil.
  - destruct skip as [| k]; [reflexivity |]. cbn [replace_from skipn]. apply IH.
Qed.

Lemma replace_cons old new c s :
  replace old new (c :: s)
  = if starts_with old (c :: s)
    then new ++ replace old new (skipn (Nat.pred (length old)) s)
    else c :: replace old new s.
Proof.
  unfold replace at 1. cbn [replace_from].
  destruct (starts_with old (c :: s)); [| reflexivity].
  now rewrite replace_from_skipn.
Qed.

(** A prefix of the result that avoids the first character of [new] is a
    prefix of the input. *)
Lemma replace_prefix old new h new' :
  new = h :: new' ->
  forall s v, ~ In h v ->
    starts_with v (replace old new s) = true -> starts_with v s = true.
Proof.
  intros Hn. induction s as [| d s IH]; intros v Hv.
  - destruct v; [reflexivity | simpl; discriminate].
  - destruct v as [| x v]; [reflexivity |].
    rewrite replace_cons. destruct (starts_with old (d :: s)).
    + subst new. cbn [app starts_with]. intros H.
      apply andb_true_iff in H. destruct H as [H _]. apply Z.eqb_eq in H.
      exfalso. apply Hv. now left.
    + cbn [starts_with]. intros H. apply andb_true_iff in H.
      destruct H as [H1 H2]. rewrite H1. cbn [andb].
      apply IH; [| exact H2]. intros Hin. apply Hv. now right.
Qed.

Lemma count_occ_skip o w new R :
  ~ In o new -> count_occ (o :: w) (new ++ R) = count_occ (o :: w) R.
Proof.
  induction new as [| x new IH]; intros H; [reflexivity |].
  rewrite <- app_comm_cons. cbn [count_occ starts_with].
  destruct (x =? o) eqn:E.
  - apply Z.eqb_eq in E. exfalso. apply H. now left.
  - cbn [andb]. rewrite Nat.add_0_l. apply IH. intros Hin. apply H. now right.
Qed.

Lemma count_occ_skipn w : forall s k,
  count_occ w s = 0%nat -> count_occ w (skipn k s) = 0%nat.
Proof.
  induction s as [| c s IH]; intros k H; [now rewrite skipn_nil |].
  destruct k as [| k]; [exact H |].
  apply count_occ_cons_zero in H. cbn [skipn]. now apply IH.
Qed.

(** No occurrence of [w] is left, nor made, by a replacement whose text
    does not hold the first character of [w] and whose first character is
    not in [w]: either because [w] is the replaced text itself, or because
    the input holds no [w]. *)
Lemma replace_count_zero old new o w h new' :
  new = h :: new' -> ~ In o new -> ~ In h (o :: w) ->
  forall s,
    (old = o :: w \/ forall k, count_occ (o :: w) (skipn k s) = 0%nat) ->
    count_occ (o :: w) (replace old new s) = 0%nat.
Proof.
  intros Hn Ho Hh s. remember (length s) as m eqn:Hm. revert s Hm.
  induction m as [m IH] using lt_wf_ind. intros s Hm Hs.
  destruct s as [| c s]; [reflexivity |].
  rewrite replace_cons. destruct (starts_with old (c :: s)) eqn:E.
  - rewrite (count_occ_skip o w new _ Ho).
    apply (IH (length (skipn (Nat.pred (length old)) s))); [| reflexivity |].
    + rewrite length_skipn. subst m. simpl. lia.
    + destruct Hs as [Hs | Hs]; [now left | right].
      intros k. rewrite skipn_skipn. apply (Hs (S (k + Nat.pred (length old)))).
  - assert (F : starts_with (o :: w) (c :: s) = false).
    { destruct Hs as [<- | Hs]; [exact E |].
      specialize (Hs 0%nat). cbn [skipn] in Hs.
      now apply count_occ_cons_zero in Hs. }
    cbn [count_occ].
    assert (R : count_occ (o :: w) (replace old new s) = 0%nat).
    { apply (IH (length s)); [subst m; simpl; lia | reflexivity |].
      destruct Hs as [Hs | Hs]; [now left | right].
      intros k. apply (Hs (S k)). }
    rewrite R.
    destruct (starts_with (o :: w) (c :: replace old new s)) eqn:G;
      [| reflexivity].
    exfalso. cbn [starts_with] in G, F. apply andb_true_iff in G.
    destruct G as [G1 G2]. rewrite G1 in F. cbn [andb] in F.
    rewrite (replace_prefix old new h new' Hn s w) in F; [discriminate | | exact G2].
    intros Hin. apply Hh. now right.
Qed.

Lemma count_zero_all_skipn w s :
  count_occ w s = 0%nat -> forall k, count_occ w (skipn k s) = 0%nat.
Proof. intros H k. now apply count_occ_skipn. Qed.

Lemma terminology_pass_clean s :
  count_occ s_taishogun (terminology_pass s) = 0%nat /\
  count_occ s_freedom_from (terminology_pass s) = 0%nat.
Proof.
  unfold terminology_pass. split.
  - apply (replace_count_zero s_freedom_from s_kaihi 0x5BFE [0x7167; 0x7FA4]
             0x56DE [0x907F] eq_refl).
    + simpl. intros [H | [H | []]]; discriminate H.
    + simpl. intros [H | [H | [H | []]]]; discriminate H.
    + right. apply count_zero_all_skipn.
      apply (replace_count_zero s_taishogun s_control 0x5BFE [0x7167; 0x7FA4]
               0x30B3 [0x30F3; 0x30C8; 0x30ED; 0x30FC; 0x30EB; 0x7FA4] eq_refl).
      * simpl. intuition discriminate.
      * simpl. intuition discriminate.
      * now left.
  - apply (replace_count_zero s_freedom_from s_kaihi 0x46
             [0x72; 0x65; 0x65; 0x64; 0x6F; 0x6D; 0x20; 0x66; 0x72; 0x6F; 0x6D]
             0x56DE [0x907F] eq_refl).
    + simpl. intuition discriminate.
    + simpl. intuition discriminate.
    + now left.
Qed.

Lemma terminology_pass_idem s :
  terminology_pass (terminology_pass s) = terminology_pass s.
Proof.
  destruct (terminology_pass_clean s) as [H1 H2].
  now apply terminology_pass_noop.
Qed.

(** C2 (amended). Passes 1, 2 and 4 are idempotent. *)
Theorem passes_idempotent :
  (forall s, pvalue_pass (pvalue_pass s) = pvalue_pass s) /\
  (forall s, month_pass (month_pass s) = month_pass s) /\
  (forall s, terminology_pass (terminology_pass s) = terminology_pass s).
Proof.
  split; [exact pvalue_pass_idem |].
  split; [intros s; apply month_sub_idem | exact terminology_pass_idem].
Qed.

(** C2, as stated, fails: pass 3 and with it the whole battery are not
    idempotent.  Of two terminators at the end one is dropped by each
    run. *)
Lemma postprocess_not_idempotent :
  postprocess (postprocess [0x61; 0xA; 0xA]) <> postprocess [0x61; 0xA; 0xA] /\
  title_pass (title_pass [0x61; 0xA; 0xA]) <> title_pass [0x61; 0xA; 0xA].
Proof. split; discriminate. Qed.

(** An occurrence of [w] cannot begin in [u] and run into a character that
    [w] does not hold behind its first. *)
Lemma starts_with_straddle o : forall w u t,
  ~ In o w -> starts_with w (u ++ o :: t) = starts_with w u.
Proof.
  induction w as [| y w IH]; intros u t H; [reflexivity |].
  destruct u as [| x u]; cbn [app starts_with].
  - destruct (o =? y) eqn:E; [| reflexivity].
    apply Z.eqb_eq in E. exfalso. apply H. now left.
  - rewrite IH; [reflexivity |]. intros Hin. apply H. now right.
Qed.

Lemma starts_with_self w t : starts_with w (w ++ t) = true.
Proof.
  induction w as [| o w IH]; [reflexivity |].
  cbn [app starts_with]. now rewrite Z.eqb_refl, IH.
Qed.

Lemma starts_with_length w s :
  starts_with w s = true -> (length w <= length s)%nat.
Proof.
  revert s. induction w as [| o w IH]; intros s; [simpl; lia |].
  destruct s as [| c s]; [discriminate |]. cbn [starts_with length].
  intros H. apply andb_true_iff in H. destruct H as [_ H].
  apply IH in H. lia.
Qed.




Lemma splitlines_Forall (P : Z -> Prop) s :
  Forall P s -> Forall (Forall P) (splitlines s).
Proof.
  induction s as [s IH] using (well_founded_induction
    (well_founded_ltof _ (@length Z))).
  intros H. destruct s as [| c s]; [constructor |].
  inversion H as [| ? ? Hc Hs]; subst.
  cbn [splitlines]. destruct (is_linebreak c).
  - constructor; [constructor |].
    destruct s as [| d s]; [constructor |].
    destruct ((c =? 0xD) && (d =? 0xA)).
    + apply IH; [unfold ltof; simpl; lia |]. now inversion Hs.
    + apply IH; [unfold ltof; simpl; lia | exact Hs].
  - pose proof (IH s ltac:(unfold ltof; simpl; lia) Hs) as Hl.
    destruct (splitlines s) as [| l ls].
    + repeat constructor. assumption.
    + inversion Hl; subst. constructor; [now constructor | assumption].
Qed.

Lemma Forall_join (P : Z -> Prop) sep ls :
  Forall P sep -> Forall (Forall P) ls -> Forall P (join sep ls).
Proof.
  intros Hsep. induction 1 as [| l ls Hl Hls IH]; cbn [join]; [constructor |].
  destruct ls as [| l' ls']; [exact Hl |].
  apply Forall_app. split; [exact Hl |]. apply Forall_app. now split.
Qed.







(** ** Pass 3: the title line *)

Lemma skipn_take_while p s :
  skipn (length (take_while p s)) s = drop_while p s.
Proof.
  induction s as [| c s IH]; [reflexivity |]. simpl.
  destruct (p c); [exact IH | reflexivity].
Qed.

Lemma open_sub_behind s : forall d,
  sub_from re_open [] 0 (Some d) s = s.
Proof.
  induction s as [| c s IH]; intros d.
  - now apply sub_from_nil, nonempty_open.
  - rewrite (sub_from_cons _ _ nonempty_open), match_open. cbn [open_len].
    now rewrite IH.
Qed.

Lemma open_sub_skip s : forall k d,
  sub_from re_open [] k (Some d) s = skipn k s.
Proof.
  induction s as [| c s IH]; intros k d.
  - rewrite skipn_nil. now apply sub_from_nil, nonempty_open.
  - destruct k as [| k]; [apply open_sub_behind |].
    cbn [sub_from skipn]. apply IH.
Qed.

(** Line 234 removes the leading run of opening glyphs. *)
Lemma sub_open t : sub re_open [] t = drop_while is_opening t.
Proof.
  unfold sub. destruct t as [| c t].
  - now apply sub_from_nil, nonempty_open.
  - rewrite (sub_from_cons _ _ nonempty_open), match_open. cbn [open_len].
    cbn [drop_while]. destruct (is_opening c).
    + cbn [app Nat.pred]. rewrite open_sub_skip. apply skipn_take_while.
    + now rewrite open_sub_behind.
Qed.

Lemma at_eol_no_lf s : ~ In 0xA s -> at_eol s = true -> s = [].
Proof.
  destruct s as [| c s]; [reflexivity |]. cbn [at_eol].
  intros H E. apply andb_true_iff in E. destruct E as [E _].
  apply Z.eqb_eq in E. subst c. exfalso. apply H. now left.
Qed.

Lemma drop_while_nil_forallb p s : drop_while p s = [] -> forallb p s = true.
Proof.
  induction s as [| c s IH]; [reflexivity |]. simpl.
  destruct (p c); [exact IH | discriminate].
Qed.

Lemma drop_while_incl p s c : In c (drop_while p s) -> In c s.
Proof.
  induction s as [| x s IH]; simpl; [tauto |].
  destruct (p x); [intros H; right; now apply IH | tauto].
Qed.

Lemma close_len_no_lf c s :
  ~ In 0xA (c :: s) ->
  close_len (c :: s)
  = if forallb is_closing (c :: s) then Some (length (c :: s)) else None.
Proof.
  intros H. cbn [close_len forallb]. destruct (is_closing c); [| reflexivity].
  cbn [andb]. destruct (forallb is_closing s) eqn:F.
  - rewrite (forallb_drop_while _ _ F), (forallb_take_while _ _ F). reflexivity.
  - destruct (at_eol (drop_while is_closing s)) eqn:E; [| reflexivity].
    apply at_eol_no_lf in E.
    + apply drop_while_nil_forallb in E. congruence.
    + intros Hin. apply H. right. now apply (drop_while_incl is_closing).
Qed.

(** Line 235 removes the trailing run of glyphs of the closing class from
    a text without line feed. *)
Lemma sub_close t : ~ In 0xA t -> sub re_close [] t = drop_trailing is_closing t.
Proof.
  induction t as [| c t IH]; intros H.
  - unfold sub. now apply sub_from_nil, nonempty_close.
  - rewrite (sub_cons _ _ close_len nonempty_close match_close).
    rewrite (close_len_no_lf c t H). cbn [drop_trailing].
    destruct (forallb is_closing (c :: t)).
    + cbn [length Nat.pred app]. rewrite skipn_all.
      unfold sub. now apply sub_from_nil, nonempty_close.
    + f_equal. apply IH. intros Hin. apply H. now right.
Qed.

(** Lines 233-235 in closed form. *)
Lemma clean_title_closed line :
  Forall (fun c => is_linebreak c = false) line ->
  clean_title line
  = drop_trailing is_closing (drop_while is_opening (strip line)).
Proof.
  intros H. unfold clean_title. cbv zeta.
  rewrite sub_open. apply sub_close.
  assert (F : Forall (fun c => is_linebreak c = false)
                (drop_while is_opening (strip line)))
    by now apply Forall_drop_while, Forall_strip.
  rewrite Forall_forall in F. intros Hin. now apply F in Hin.
Qed.

Lemma forallb_agree (p q : Z -> bool) s :
  (forall c, In c s -> p c = q c) -> forallb p s = forallb q s.
Proof.
  induction s as [| c s IH]; intros H; [reflexivity |]. cbn [forallb].
  rewrite (H c (or_introl eq_refl)), IH; [reflexivity |].
  intros d Hd. apply H. now right.
Qed.

Lemma forallb_weaken (p r : Z -> bool) s :
  (forall c, p c = true -> r c = true) ->
  forallb p s = true -> forallb r s = true.
Proof.
  intros H. rewrite !forallb_forall. intros F c Hc. now apply H, F.
Qed.

(** Two classes that agree on the trailing run of their union remove the
    same suffix. *)
Lemma drop_trailing_agree (p q r : Z -> bool) :
  (forall c, p c = true -> r c = true) ->
  (forall c, q c = true -> r c = true) ->
  forall s,
    (forall c, In c (trailing_run r s) -> p c = q c) ->
    drop_trailing p s = drop_trailing q s.
Proof.
  intros Hp Hq. induction s as [| c s IH]; intros H; [reflexivity |].
  cbn [drop_trailing]. cbn [trailing_run] in H.
  destruct (forallb r (c :: s)) eqn:R.
  - rewrite (forallb_agree p q (c :: s) H).
    destruct (forallb q (c :: s)); [reflexivity |]. f_equal. apply IH.
    intros d Hd. apply H. right.
    cbn [forallb] in R. apply andb_true_iff in R. destruct R as [_ R].
    destruct s as [| e s]; [destruct Hd |]. cbn [trailing_run] in Hd.
    now rewrite R in Hd.
  - destruct (forallb p (c :: s)) eqn:P;
      [apply (forallb_weaken p r _ Hp) in P; congruence |].
    destruct (forallb q (c :: s)) eqn:Q;
      [apply (forallb_weaken q r _ Hq) in Q; congruence |].
    f_equal. now apply IH.
Qed.

(** Where the title line ends in no white corner bracket, line 235
    removes the trailing run of glyphs of the matching closing set. *)
Lemma clean_title_spec line :
  Forall (fun c => is_linebreak c = false) line ->
  plain_tail line = true ->
  clean_title line = spec_title_line line.
Proof.
  intros H T. rewrite (clean_title_closed line H). unfold spec_title_line.
  apply (drop_trailing_agree _ _
           (fun c => is_closing_spec c || white_corner c)).
  - intros c. unfold is_closing, is_closing_spec, white_corner.
    rewrite !orb_true_iff. tauto.
  - intros c E. now rewrite E.
  - intros c Hc. unfold plain_tail in T. rewrite forallb_forall in T.
    apply T in Hc. apply negb_true_iff in Hc.
    unfold white_corner in Hc. apply orb_false_iff in Hc.
    destruct Hc as [E1 E2]. unfold is_closing, is_closing_spec.
    now rewrite E1, E2.
Qed.

Lemma strip_title_first pre line post :
  Forall blank pre -> ~ blank line ->
  strip_title (pre ++ line :: post) = pre ++ clean_title line :: post.
Proof.
  intros Hpre Hline. induction Hpre as [| l pre Hl _ IH]; cbn [app strip_title].
  - unfold blank in Hline. destruct (strip line); [congruence | reflexivity].
  - unfold blank in Hl. rewrite Hl, IH. reflexivity.
Qed.

(** C3 (amended). The text is split into lines; the first line that is
    not blank is replaced by its trimmed form without the leading run of
    opening glyphs and without the trailing run of glyphs of the matching
    closing set; every other line keeps its content; the lines are joined
    with line feeds.  This is stated for a title line that ends in no run
    of closing glyphs with a white corner bracket U+300E or U+300F in it.
    Without a non-blank line the result is the lines of the text joined
    with line feeds. *)
Theorem title_pass_correct :
  (forall text pre line post,
     splitlines text = pre ++ line :: post ->
     Forall blank pre -> ~ blank line -> plain_tail line = true ->
     title_pass text = join [0xA] (pre ++ spec_title_line line :: post)) /\
  (forall text,
     Forall blank (splitlines text) ->
     title_pass text = join [0xA] (splitlines text)) /\
  postprocess [0x300C; 0x54; 0x49; 0x54; 0x4C; 0x45; 0x300D; 0xA;
               0x300C; 0x78; 0x300D]
  = [0x54; 0x49; 0x54; 0x4C; 0x45; 0xA; 0x300C; 0x78; 0x300D].
Proof.
  split; [| split; [| reflexivity]].
  - intros text pre line post E Hpre Hline Ht. unfold title_pass.
    rewrite E, (strip_title_first pre line post Hpre Hline). f_equal. f_equal.
    f_equal. apply clean_title_spec; [| exact Ht].
    pose proof (splitlines_no_linebreak text) as F. rewrite E in F.
    apply Forall_app in F. destruct F as [_ F]. now inversion F.
  - intros text H. unfold title_pass. now rewrite strip_title_noop.
Qed.

Lemma title_pass_correct_witness :
  title_pass [0x20; 0xD; 0xA; 0x20; 0x201C; 0x61; 0x300E; 0x62; 0x300F; 0x63;
              0x201D; 0x20; 0xD; 0x22; 0x62]
  = join [0xA]
      ([[0x20]]
       ++ spec_title_line [0x20; 0x201C; 0x61; 0x300E; 0x62; 0x300F; 0x63;
                           0x201D; 0x20]
       :: [[0x22; 0x62]]).
Proof.
  apply (proj1 title_pass_correct); [reflexivity | | | reflexivity].
  - repeat constructor.
  - unfold blank. discriminate.
Defined.

(** C3, as stated, fails: a text without a non-blank line is not returned
    unchanged, since its lines are joined anew. *)
Lemma postprocess_blank_text_changed :
  Forall blank (splitlines [0xA]) /\ postprocess [0xA] = [] /\
  postprocess [0xA] <> [0xA].
Proof.
  split; [repeat constructor | split; [reflexivity | discriminate]].
Qed.

(** ** Pass 5: sentences that refer to the slide *)

Lemma slide_len_bound s n : slide_len s = Some n -> (n <= length s)%nat.
Proof.
  unfold slide_len. destruct (starts_with s_slide_ni s) eqn:E; [| discriminate].
  apply starts_with_length in E. unfold slide_tail_len.
  destruct (drop_while not_nl_maru (skipn 5 s)) as [| c t] eqn:D; [discriminate |].
  destruct ((c =? c_maru) && has_verb (take_while not_nl_maru (skipn 5 s)));
    [| discriminate].
  intros H. injection H as <-.
  pose proof (take_drop_length not_nl_maru (skipn 5 s)) as L.
  rewrite D, length_skipn in L. simpl in *. lia.
Qed.

Lemma slide_pass_cons c s :
  slide_pass (c :: s)
  = match slide_len (c :: s) with
    | Some n => slide_pass (skipn (Nat.pred n) s)
    | None => c :: slide_pass s
    end.
Proof.
  unfold slide_pass. rewrite (sub_cons _ _ slide_len nonempty_slide match_slide).
  now destruct (slide_len (c :: s)).
Qed.

Lemma slide_ni_in_class : Forall (fun c => not_nl_maru c = true) s_slide_ni.
Proof. repeat constructor. Qed.

(** The match at a span: the words, a run [x] with a verb, the full stop. *)
Lemma slide_len_span x post :
  Forall (fun c => not_nl_maru c = true) x -> has_verb x = true ->
  slide_len (s_slide_ni ++ x ++ c_maru :: post)
  = Some (length (s_slide_ni ++ x ++ [c_maru])).
Proof.
  intros Hx Hv. unfold slide_len. rewrite starts_with_self.
  change 5%nat with (length s_slide_ni) at 1.
  rewrite skipn_app, skipn_all, Nat.sub_diag. cbn [app skipn].
  unfold slide_tail_len.
  rewrite (drop_while_app_all _ _ _ Hx), (take_while_app_all _ _ _ Hx).
  cbn [drop_while take_while]. rewrite app_nil_r.
  replace (not_nl_maru c_maru) with false by reflexivity.
  rewrite Z.eqb_refl, Hv. cbn [andb]. f_equal.
  rewrite !length_app. simpl. lia.
Qed.

Lemma slide_pass_span x post :
  Forall (fun c => not_nl_maru c = true) x -> has_verb x = true ->
  slide_pass (s_slide_ni ++ x ++ c_maru :: post) = slide_pass post.
Proof.
  intros Hx Hv.
  change (s_slide_ni ++ x ++ c_maru :: post)
    with (0x30B9 :: ([0x30E9; 0x30A4; 0x30C9; 0x306B] ++ x ++ c_maru :: post)).
  rewrite slide_pass_cons.
  change (0x30B9 :: ([0x30E9; 0x30A4; 0x30C9; 0x306B] ++ x ++ c_maru :: post))
    with (s_slide_ni ++ x ++ c_maru :: post).
  rewrite (slide_len_span x post Hx Hv). f_equal.
  replace ([0x30E9; 0x30A4; 0x30C9; 0x306B] ++ x ++ c_maru :: post)
    with (([0x30E9; 0x30A4; 0x30C9; 0x306B] ++ x ++ [c_maru]) ++ post)
    by (rewrite <- !app_assoc; reflexivity).
  replace (Nat.pred (length (s_slide_ni ++ x ++ [c_maru])))
    with (length ([0x30E9; 0x30A4; 0x30C9; 0x306B] ++ x ++ [c_maru]))
    by (rewrite !length_app; simpl; lia).
  rewrite skipn_app, skipn_all, Nat.sub_diag. reflexivity.
Qed.

(** The words do not begin in front of a span and end inside it. *)
Lemma starts_with_cons o w c s :
  starts_with (o :: w) (c :: s) = (c =? o) && starts_with w s.
Proof. reflexivity. Qed.

Lemma slide_ni_straddle u t :
  starts_with s_slide_ni (u ++ s_slide_ni ++ t) = starts_with s_slide_ni u
  \/ u = [].
Proof.
  destruct u as [| c u]; [now right |]. left.
  unfold s_slide_ni. rewrite <- !app_comm_cons, !starts_with_cons.
  rewrite (starts_with_straddle 0x30B9 [0x30E9; 0x30A4; 0x30C9; 0x306B]).
  - reflexivity.
  - simpl. intuition discriminate.
Qed.

(** Sentences before a span that do not hold the words are kept, and the
    span is deleted. *)
Lemma slide_pass_unrelated_before pre x post :
  count_occ s_slide_ni pre = 0%nat ->
  Forall (fun c => not_nl_maru c = true) x -> has_verb x = true ->
  slide_pass (pre ++ s_slide_ni ++ x ++ c_maru :: post) = pre ++ slide_pass post.
Proof.
  intros Hpre Hx Hv. unfold slide_pass at 1.
  rewrite (sub_app _ _ slide_len nonempty_slide match_slide slide_len_bound).
  - fold (slide_pass pre). fold (slide_pass (s_slide_ni ++ x ++ c_maru :: post)).
    rewrite (slide_pass_noop pre Hpre). f_equal.
    now apply slide_pass_span.
  - intros a y u E.
    assert (F : starts_with s_slide_ni (y :: u) = false).
    { apply (count_occ_skipn _ _ (length a)) in Hpre.
      rewrite E, skipn_app, skipn_all, Nat.sub_diag in Hpre.
      cbn [app skipn] in Hpre. now apply count_occ_cons_zero in Hpre. }
    unfold slide_len.
    destruct (slide_ni_straddle (y :: u) (x ++ c_maru :: post)) as [St | St];
      [| discriminate St].
    rewrite app_comm_cons. rewrite St, F. reflexivity.
Qed.

(** A match that begins in front of a span ends in front of it or with
    it. *)
Lemma slide_len_before_span c pre x post n :
  Forall (fun c => not_nl_maru c = true) x ->
  slide_len (c :: pre ++ s_slide_ni ++ x ++ c_maru :: post) = Some n ->
  (Nat.pred n <= length pre)%nat
  \/ Nat.pred n = (length pre + length (s_slide_ni ++ x ++ [c_maru]))%nat.
Proof.
  intros Hx. unfold slide_len.
  destruct (slide_ni_straddle (c :: pre) (x ++ c_maru :: post)) as [St | St];
    [| discriminate St].
  rewrite app_comm_cons, St.
  destruct (starts_with s_slide_ni (c :: pre)) eqn:E; [| discriminate].
  apply starts_with_length in E.
  change (length s_slide_ni) with 5%nat in E. cbn [length] in E.
  rewrite skipn_app.
  replace (5 - length (c :: pre))%nat with 0%nat by (cbn [length]; lia).
  rewrite skipn_O.
  assert (LA : (length (skipn 5 (c :: pre)) + 5 = length (c :: pre))%nat)
    by (rewrite length_skipn; cbn [length]; lia).
  set (A := skipn 5 (c :: pre)) in *. unfold slide_tail_len.
  rewrite drop_while_app, take_while_app.
  assert (B : Forall (fun c => not_nl_maru c = true) (s_slide_ni ++ x))
    by (apply Forall_app; split; [apply slide_ni_in_class | exact Hx]).
  replace (s_slide_ni ++ x ++ c_maru :: post)
    with ((s_slide_ni ++ x) ++ c_maru :: post)
    by (rewrite <- app_assoc; reflexivity).
  destruct (forallb not_nl_maru A) eqn:F.
  - rewrite (drop_while_app_all _ _ _ B), (take_while_app_all _ _ _ B).
    cbn [drop_while take_while].
    replace (not_nl_maru c_maru) with false by reflexivity.
    match goal with |- context [if ?b then _ else _] => destruct b end;
      cbn beta iota; [| discriminate].
    intros H. injection H as <-. right.
    rewrite !length_app. cbn [length] in *. rewrite !length_app.
    cbn [length]. change (length s_slide_ni) with 5%nat. lia.
  - destruct (drop_while not_nl_maru A) as [| e v] eqn:D.
    + now apply not_forallb_drop_while in F.
    + rewrite <- app_comm_cons.
      match goal with |- context [if ?b then _ else _] => destruct b end;
        cbn beta iota; [| discriminate].
      intros H. injection H as <-. left.
      pose proof (take_drop_length not_nl_maru A) as L.
      rewrite D in L. cbn [length] in *. lia.
Qed.

Lemma subseq_skipn t : forall s k, subseq t (skipn k s) -> subseq t s.
Proof.
  induction s as [| c s IH]; intros k H.
  - now rewrite skipn_nil in H.
  - destruct k as [| k]; [exact H |]. apply subseq_drop, (IH k), H.
Qed.

(** Every span is deleted, whatever stands in front of it: of the text up
    to its full stop only characters in front of the span remain, and the
    text behind it is treated on its own. *)
Lemma slide_pass_span_deleted x post :
  Forall (fun c => not_nl_maru c = true) x -> has_verb x = true ->
  forall pre, exists pre',
    subseq pre' pre /\
    slide_pass (pre ++ s_slide_ni ++ x ++ c_maru :: post)
    = pre' ++ slide_pass post.
Proof.
  intros Hx Hv pre. remember (length pre) as m eqn:Hm. revert pre Hm.
  induction m as [m IH] using lt_wf_ind. intros pre Hm.
  destruct pre as [| c pre].
  - exists []. split; [constructor | now apply slide_pass_span].
  - rewrite <- app_comm_cons, slide_pass_cons.
    destruct (slide_len (c :: pre ++ s_slide_ni ++ x ++ c_maru :: post))
      as [n |] eqn:E.
    + destruct (slide_len_before_span c pre x post n Hx E) as [L | L].
      * rewrite skipn_app.
        replace (Nat.pred n - length pre)%nat with 0%nat by lia.
        cbn [skipn].
        destruct (IH (length (skipn (Nat.pred n) pre))
                    ltac:(rewrite length_skipn; subst m; simpl; lia)
                    (skipn (Nat.pred n) pre) eq_refl) as [pre' [Hs Hp]].
        exists pre'. split; [| exact Hp].
        apply subseq_drop, (subseq_skipn _ _ (Nat.pred n)), Hs.
      * exists []. split.
        { clear. apply subseq_drop.
          induction pre as [| y pre IHp]; constructor. exact IHp. }
        replace (pre ++ s_slide_ni ++ x ++ c_maru :: post)
          with ((pre ++ s_slide_ni ++ x ++ [c_maru]) ++ post)
          by (rewrite <- !app_assoc; reflexivity).
        rewrite L, <- length_app, skipn_app, skipn_all, Nat.sub_diag.
        reflexivity.
    + destruct (IH (length pre) ltac:(subst m; simpl; lia) pre eq_refl)
        as [pre' [Hs Hp]].
      exists (c :: pre'). split; [now apply subseq_keep |].
      rewrite Hp. reflexivity.
Qed.

Lemma starts_with_split w : forall s,
  starts_with w s = true -> s = w ++ skipn (length w) s.
Proof.
  induction w as [| o w IH]; intros s; [reflexivity |].
  destruct s as [| c s]; [discriminate |]. cbn [starts_with length skipn app].
  intros H. apply andb_true_iff in H. destruct H as [E H].
  apply Z.eqb_eq in E. subst c. f_equal. now apply IH.
Qed.

Lemma take_while_Forall p s : Forall (fun c => p c = true) (take_while p s).
Proof.
  induction s as [| c s IH]; simpl; [constructor |].
  destruct (p c) eqn:E; constructor; assumption.
Qed.

(** A match of the pattern of line 243 is made of the words, a run free
    of line feed and full stop that holds a verb, and a full stop. *)
Lemma slide_len_inv s n :
  slide_len s = Some n ->
  exists x post,
    s = s_slide_ni ++ x ++ c_maru :: post /\
    Forall (fun c => not_nl_maru c = true) x /\ has_verb x = true.
Proof.
  unfold slide_len. destruct (starts_with s_slide_ni s) eqn:E; [| discriminate].
  apply starts_with_split in E. change (length s_slide_ni) with 5%nat in E.
  unfold slide_tail_len.
  destruct (drop_while not_nl_maru (skipn 5 s)) as [| c t] eqn:D;
    [discriminate |].
  destruct (c =? c_maru) eqn:M; [| discriminate]. cbn [andb].
  destruct (has_verb (take_while not_nl_maru (skipn 5 s))) eqn:V;
    [| discriminate].
  intros _. apply Z.eqb_eq in M. subst c.
  exists (take_while not_nl_maru (skipn 5 s)), t. repeat split.
  - rewrite <- D, take_drop_while. exact E.
  - apply take_while_Forall.
  - exact V.
Qed.

Lemma contains_app_r w a b :
  contains w b = true -> contains w (a ++ b) = true.
Proof.
  intros H. induction a as [| c a IH]; [exact H |].
  cbn [app contains]. now rewrite IH, orb_true_r.
Qed.

Lemma has_verb_app_r a b : has_verb b = true -> has_verb (a ++ b) = true.
Proof.
  unfold has_verb. rewrite !orb_true_iff.
  intros [H | H]; [left | right]; now apply contains_app_r.
Qed.

(** A stretch of the text at no position of which a match begins is
    copied. *)
Lemma slide_pass_kept rest : forall y,
  (forall a c v, y = a ++ c :: v -> slide_len (c :: v ++ rest) = None) ->
  slide_pass (y ++ rest) = y ++ slide_pass rest.
Proof.
  induction y as [| d y IH]; intros H; [reflexivity |].
  rewrite <- !app_comm_cons, slide_pass_cons, (H [] d y eq_refl).
  f_equal. apply IH. intros a c v E. apply (H (d :: a)). now rewrite E.
Qed.

(** No match runs into a line feed or into the end of the text. *)
Lemma slide_len_no_stop v rest :
  Forall (fun c => not_nl_maru c = true) v ->
  rest = [] \/ (exists post, rest = 0xA :: post) ->
  slide_len (v ++ rest) = None.
Proof.
  intros Hv Hr. destruct (slide_len (v ++ rest)) as [n |] eqn:E;
    [| reflexivity].
  apply slide_len_inv in E. destruct E as (x & post & E & Hx & _).
  apply (f_equal (drop_while not_nl_maru)) in E.
  rewrite (drop_while_app_all _ _ _ Hv) in E.
  rewrite (drop_while_app_all _ _ _ slide_ni_in_class) in E.
  rewrite (drop_while_app_all _ _ _ Hx) in E.
  destruct Hr as [-> | [post' ->]]; discriminate E.
Qed.

(** No match ends at a full stop with no verb in front of it. *)
Lemma slide_len_no_verb v post :
  Forall (fun c => not_nl_maru c = true) v -> has_verb v = false ->
  slide_len (v ++ c_maru :: post) = None.
Proof.
  intros Hv Hn. destruct (slide_len (v ++ c_maru :: post)) as [n |] eqn:E;
    [| reflexivity].
  apply slide_len_inv in E. destruct E as (x & post' & E & Hx & V).
  apply (f_equal (take_while not_nl_maru)) in E.
  rewrite (take_while_app_all _ _ _ Hv) in E.
  rewrite (take_while_app_all _ _ _ slide_ni_in_class) in E.
  rewrite (take_while_app_all _ _ _ Hx) in E.
  cbn [take_while] in E.
  replace (not_nl_maru c_maru) with false in E by reflexivity.
  rewrite !app_nil_r in E. subst v.
  now rewrite (has_verb_app_r s_slide_ni x V) in Hn.
Qed.

(** Text without the words in front of the words is copied. *)
Lemma slide_pass_before_words pre t :
  count_occ s_slide_ni pre = 0%nat ->
  slide_pass (pre ++ s_slide_ni ++ t) = pre ++ slide_pass (s_slide_ni ++ t).
Proof.
  intros Hpre. unfold slide_pass at 1.
  rewrite (sub_app _ _ slide_len nonempty_slide match_slide slide_len_bound).
  - fold (slide_pass pre). fold (slide_pass (s_slide_ni ++ t)).
    now rewrite (slide_pass_noop pre Hpre).
  - intros a y u E.
    assert (F : starts_with s_slide_ni (y :: u) = false).
    { apply (count_occ_skipn _ _ (length a)) in Hpre.
      rewrite E, skipn_app, skipn_all, Nat.sub_diag in Hpre.
      cbn [app skipn] in Hpre. now apply count_occ_cons_zero in Hpre. }
    unfold slide_len.
    destruct (slide_ni_straddle (y :: u) t) as [St | St];
      [| discriminate St].
    rewrite app_comm_cons. rewrite St, F. reflexivity.
Qed.

Lemma has_verb_words x : has_verb (s_slide_ni ++ x) = has_verb x.
Proof.
  unfold s_slide_ni. rewrite <- !app_comm_cons, !has_verb_cons. reflexivity.
Qed.

Lemma has_verb_suffix a v : has_verb (a ++ v) = false -> has_verb v = false.
Proof.
  intros H. destruct (has_verb v) eqn:V; [| reflexivity].
  now rewrite (has_verb_app_r a v V) in H.
Qed.

(** Behind the words, a run that ends at a line feed or at the end of
    the text is kept, and so is the line feed. *)
Lemma slide_pass_no_stop x rest :
  Forall (fun c => not_nl_maru c = true) x ->
  rest = [] \/ (exists post, rest = 0xA :: post) ->
  slide_pass ((s_slide_ni ++ x) ++ rest) = (s_slide_ni ++ x) ++ slide_pass rest.
Proof.
  intros Hx Hr. apply slide_pass_kept. intros a c v E.
  rewrite app_comm_cons. apply slide_len_no_stop; [| exact Hr].
  assert (B : Forall (fun c => not_nl_maru c = true) (s_slide_ni ++ x))
    by (apply Forall_app; split; [apply slide_ni_in_class | exact Hx]).
  rewrite E in B. apply Forall_app in B. tauto.
Qed.

(** Behind the words, a run without a verb is kept with its full stop. *)
Lemma slide_pass_no_verb x post :
  Forall (fun c => not_nl_maru c = true) x -> has_verb x = false ->
  slide_pass ((s_slide_ni ++ x) ++ c_maru :: post)
  = (s_slide_ni ++ x) ++ c_maru :: slide_pass post.
Proof.
  intros Hx Hn. rewrite slide_pass_kept.
  - f_equal. now rewrite slide_pass_cons.
  - intros a c v E. rewrite app_comm_cons.
    assert (B : Forall (fun c => not_nl_maru c = true) (s_slide_ni ++ x))
      by (apply Forall_app; split; [apply slide_ni_in_class | exact Hx]).
    rewrite <- (has_verb_words x), E in Hn. rewrite E in B.
    apply Forall_app in B. apply has_verb_suffix in Hn.
    now apply slide_len_no_verb.
Qed.

(** C5 (amended). A span made of the words U+30B9 U+30E9 U+30A4 U+30C9
    U+306B, a run without line feed and full stop that holds U+63D0 U+793A
    or U+8868 U+793A, and the full stop U+3002 is deleted from the words
    up to and including that full stop and no further: whatever stands in
    front of the span, the result is made of characters kept from there
    and of the result for the text behind the span.  Text before and
    behind it that does not hold the words is kept as it is, and so is the
    part of the sentence in front of the words.  Nothing is deleted from a
    text without the words, and nothing where the run behind the words
    reaches its full stop without a verb, or reaches a line feed or the
    end of the text before a full stop. *)
Theorem slide_pass_correct :
  (forall x pre post,
     Forall (fun c => not_nl_maru c = true) x -> has_verb x = true ->
     exists pre',
       subseq pre' pre /\
       slide_pass (pre ++ s_slide_ni ++ x ++ c_maru :: post)
       = pre' ++ slide_pass post) /\
  (forall x pre post,
     Forall (fun c => not_nl_maru c = true) x -> has_verb x = true ->
     count_occ s_slide_ni pre = 0%nat ->
     slide_pass (pre ++ s_slide_ni ++ x ++ c_maru :: post)
     = pre ++ slide_pass post) /\
  (forall x pre post,
     Forall (fun c => not_nl_maru c = true) x -> has_verb x = true ->
     count_occ s_slide_ni pre = 0%nat -> count_occ s_slide_ni post = 0%nat ->
     slide_pass (pre ++ s_slide_ni ++ x ++ c_maru :: post) = pre ++ post) /\
  (forall s, count_occ s_slide_ni s = 0%nat -> slide_pass s = s) /\
  (forall x pre post,
     Forall (fun c => not_nl_maru c = true) x -> has_verb x = false ->
     count_occ s_slide_ni pre = 0%nat ->
     slide_pass (pre ++ s_slide_ni ++ x ++ c_maru :: post)
     = pre ++ s_slide_ni ++ x ++ c_maru :: slide_pass post) /\
  (forall x pre post,
     Forall (fun c => not_nl_maru c = true) x ->
     count_occ s_slide_ni pre = 0%nat ->
     slide_pass (pre ++ s_slide_ni ++ x ++ 0xA :: post)
     = pre ++ s_slide_ni ++ x ++ 0xA :: slide_pass post) /\
  (forall x pre,
     Forall (fun c => not_nl_maru c = true) x ->
     count_occ s_slide_ni pre = 0%nat ->
     slide_pass (pre ++ s_slide_ni ++ x) = pre ++ s_slide_ni ++ x) /\
  postprocess ([0x41; c_maru] ++ s_slide_ni ++ ([0x78] ++ s_teiji ++ [0x79])
               ++ c_maru :: [0x42; c_maru])
  = [0x41; c_maru; 0x42; c_maru].
Proof.
  split; [| split; [| split; [| split; [| split; [| split; [| split]]]]]];
    [| | | exact slide_pass_noop | | | | reflexivity].
  - intros x pre post Hx Hv. now apply slide_pass_span_deleted.
  - intros x pre post Hx Hv Hpre. now apply slide_pass_unrelated_before.
  - intros x pre post Hx Hv Hpre Hpost.
    rewrite (slide_pass_unrelated_before pre x post Hpre Hx Hv).
    now rewrite (slide_pass_noop post Hpost).
  - intros x pre post Hx Hn Hpre.
    rewrite (slide_pass_before_words pre _ Hpre), (app_assoc s_slide_ni).
    rewrite (slide_pass_no_verb x post Hx Hn), <- app_assoc. reflexivity.
  - intros x pre post Hx Hpre.
    rewrite (slide_pass_before_words pre _ Hpre), (app_assoc s_slide_ni).
    rewrite (slide_pass_no_stop x (0xA :: post) Hx); [| right; now exists post].
    rewrite slide_pass_cons, <- app_assoc. reflexivity.
  - intros x pre Hx Hpre.
    rewrite (slide_pass_before_words pre _ Hpre).
    rewrite <- (app_nil_r (s_slide_ni ++ x)).
    rewrite (slide_pass_no_stop x [] Hx); [| now left].
    reflexivity.
Qed.

Lemma slide_pass_correct_witness :
  slide_pass ([0x41; c_maru] ++ s_slide_ni ++ ([0x78] ++ s_hyoji ++ [0x79])
              ++ c_maru :: [0x42; c_maru])
  = [0x41; c_maru] ++ [0x42; c_maru].
Proof.
  apply (proj1 (proj2 (proj2 slide_pass_correct))).
  - repeat constructor.
  - reflexivity.
  - reflexivity.
  - reflexivity.
Defined.

(** C5, as stated, fails: a sentence in which the word for the slide is
    followed by another particle than U+306B and then by the verb is kept;
    of a sentence with the words only the part from the words on is
    deleted and the part in front of them runs into the next sentence; a
    sentence that ends with U+FF1F or with a line feed is kept. *)
Lemma postprocess_keeps_slide_sentence :
  postprocess [0x30B9; 0x30E9; 0x30A4; 0x30C9; 0x3067; 0x63D0; 0x793A;
               0x3059; 0x308B; 0x3002]
  = [0x30B9; 0x30E9; 0x30A4; 0x30C9; 0x3067; 0x63D0; 0x793A;
     0x3059; 0x308B; 0x3002] /\
  postprocess [0x41; 0x30B9; 0x30E9; 0x30A4; 0x30C9; 0x306B; 0x63D0; 0x793A;
               0x3002; 0x42; 0x3002]
  = [0x41; 0x42; 0x3002] /\
  postprocess [0x30B9; 0x30E9; 0x30A4; 0x30C9; 0x306B; 0x63D0; 0x793A; 0xFF1F]
  = [0x30B9; 0x30E9; 0x30A4; 0x30C9; 0x306B; 0x63D0; 0x793A; 0xFF1F] /\
  postprocess [0x30B9; 0x30E9; 0x30A4; 0x30C9; 0x306B; 0x63D0; 0x793A; 0xA;
               0x42; 0x3002]
  = [0x30B9; 0x30E9; 0x30A4; 0x30C9; 0x306B; 0x63D0; 0x793A; 0xA;
     0x42; 0x3002].
Proof. repeat split; vm_compute; reflexivity. Qed.

(** ** A text without a non-blank line *)

Lemma drop_trailing_nil p s : drop_trailing p s = [] -> forallb p s = true.
Proof.
  destruct s as [| c s]; [reflexivity |]. cbn [drop_trailing].
  destruct (forallb p (c :: s)); [reflexivity | discriminate].
Qed.

Lemma blank_all_space l : blank l -> Forall (fun c => is_space c = true) l.
Proof.
  unfold blank, strip. intros H. apply drop_trailing_nil in H.
  destruct (drop_while is_space l) as [| c t] eqn:D.
  - apply drop_while_nil_forallb in D. apply Forall_forall.
    now apply forallb_forall.
  - apply drop_while_head in D. cbn [forallb] in H. now rewrite D in H.
Qed.

Lemma splitlines_cover s c :
  In c s ->
  is_linebreak c = true \/ exists l, In l (splitlines s) /\ In c l.
Proof.
  induction s as [s IH] using (well_founded_induction
    (well_founded_ltof _ (@length Z))).
  destruct s as [| x s]; [intros [] |].
  cbn [splitlines]. destruct (is_linebreak x) eqn:L.
  - intros [<- | Hin]; [now left |].
    destruct s as [| d s]; [destruct Hin |].
    destruct ((x =? 0xD) && (d =? 0xA)) eqn:E.
    + destruct Hin as [<- | Hin].
      * left. apply andb_true_iff in E. destruct E as [_ E].
        apply Z.eqb_eq in E. now subst d.
      * destruct (IH s ltac:(unfold ltof; simpl; lia) Hin)
          as [H | [l [Hl Hc]]]; [now left | right].
        exists l. split; [now right | exact Hc].
    + destruct (IH (d :: s) ltac:(unfold ltof; simpl; lia) Hin)
        as [H | [l [Hl Hc]]]; [now left | right].
      exists l. split; [now right | exact Hc].
  - intros [<- | Hin].
    + right. destruct (splitlines s) as [| l ls].
      * exists [x]. split; now left.
      * exists (x :: l). split; now left.
    + destruct (IH s ltac:(unfold ltof; simpl; lia) Hin)
        as [H | [l [Hl Hc]]]; [now left | right].
      destruct (splitlines s) as [| l0 ls]; [destruct Hl |].
      destruct Hl as [<- | Hl].
      * exists (x :: l0). split; [now left | now right].
      * exists l. split; [now right | exact Hc].
Qed.

Lemma blank_text_all_space s :
  Forall blank (splitlines s) -> Forall (fun c => is_space c = true) s.
Proof.
  intros H. apply Forall_forall. intros c Hc.
  destruct (splitlines_cover s c Hc) as [L | [l [Hl Hcl]]].
  - now apply linebreak_is_space.
  - rewrite Forall_forall in H. specialize (H l Hl).
    apply blank_all_space in H. rewrite Forall_forall in H. now apply H.
Qed.

Lemma count_occ_head_absent o w s : ~ In o s -> count_occ (o :: w) s = 0%nat.
Proof.
  induction s as [| c s IH]; intros H; [reflexivity |].
  cbn [count_occ starts_with]. destruct (c =? o) eqn:E.
  - apply Z.eqb_eq in E. exfalso. apply H. now left.
  - cbn [andb]. apply IH. intros Hin. apply H. now right.
Qed.

Lemma space_text_absent s c :
  Forall (fun x => is_space x = true) s -> is_space c = false -> ~ In c s.
Proof.
  intros H Hc Hin. rewrite Forall_forall in H. apply H in Hin. congruence.
Qed.

(** Passes 1, 2, 4 and 5 find nothing in a text of whitespace. *)
Lemma space_text_fixed s :
  Forall (fun x => is_space x = true) s ->
  pvalue_pass s = s /\ month_pass s = s /\ terminology_pass s = s /\
  slide_pass s = s.
Proof.
  intros H. repeat split.
  - apply pvalue_pass_noop. revert H. apply Forall_impl.
    intros c. apply space_not_pvariant.
  - apply month_pass_noop. now apply (space_text_absent s c_month H).
  - apply terminology_pass_noop; apply count_occ_head_absent;
      now apply (space_text_absent s _ H).
  - apply slide_pass_noop, count_occ_head_absent.
    now apply (space_text_absent s _ H).
Qed.

Lemma postprocess_blank_text c s :
  Forall blank (splitlines (c :: s)) ->
  postprocess (c :: s) = join [0xA] (splitlines (c :: s)).
Proof.
  intros H. pose proof (blank_text_all_space _ H) as Sp.
  destruct (space_text_fixed _ Sp) as [P1 [P2 _]].
  unfold postprocess. cbv zeta. rewrite P1, P2.
  unfold title_pass. rewrite (strip_title_noop _ H).
  assert (J : Forall (fun x => is_space x = true)
                (join [0xA] (splitlines (c :: s)))).
  { apply Forall_join; [repeat constructor | now apply splitlines_Forall]. }
  destruct (space_text_fixed _ J) as [_ [_ [P4 P5]]].
  now rewrite P4, P5.
Qed.

(** A substitution copies a text in which its pattern has no match. *)
Lemma sub_from_no_match r repl : forall s prev,
  no_match r prev s -> sub_from r repl 0 prev s = s.
Proof.
  induction s as [| c s IH]; intros prev [H1 H2]; cbn [sub_from].
  - now rewrite H1.
  - rewrite H1. f_equal. now apply IH.
Qed.

Lemma sub_no_match r repl s : no_match r None s -> sub r repl s = s.
Proof. apply sub_from_no_match. Qed.

(** Without a match of the two bracket patterns the title line is
    replaced by its trimmed form. *)
Lemma clean_title_no_match line :
  no_match re_open None (strip line) -> no_match re_close None (strip line) ->
  clean_title line = strip line.
Proof.
  intros Ho Hc. unfold clean_title. cbv zeta.
  rewrite (sub_no_match re_open [] _ Ho). now apply sub_no_match.
Qed.

Lemma title_pass_no_match text pre line post :
  splitlines text = pre ++ line :: post ->
  Forall blank pre -> ~ blank line ->
  no_match re_open None (strip line) -> no_match re_close None (strip line) ->
  title_pass text = join [0xA] (pre ++ strip line :: post).
Proof.
  intros E Hpre Hline Ho Hc. unfold title_pass.
  rewrite E, (strip_title_first pre line post Hpre Hline).
  now rewrite (clean_title_no_match line Ho Hc).
Qed.

(** C8 (amended). The normalizer returns a text for every input: its one
    step that can raise, the item assignment of the title loop, never
    does.  The empty string is returned as it is; passes 1, 2, 4 and 5
    return a text in which their pattern has no match as it is; the title
    step, when neither bracket pattern matches the trimmed title line,
    removes no glyph, but it still replaces that line by its trimmed form
    and joins the lines anew, so that a text without any match comes back
    as its lines, the title line trimmed, joined with line feeds. *)
Theorem postprocess_never_raises :
  (forall text, postprocess_raising text = Some (postprocess text)) /\
  postprocess_raising [] = Some [] /\
  postprocess [] = [] /\
  (forall s, no_match re_pvalue None s -> pvalue_pass s = s) /\
  (forall s, no_match re_month None s -> month_pass s = s) /\
  (forall s, count_occ s_taishogun s = 0%nat ->
             count_occ s_freedom_from s = 0%nat -> terminology_pass s = s) /\
  (forall s, no_match re_slide None s -> slide_pass s = s) /\
  (forall text pre line post,
     splitlines text = pre ++ line :: post ->
     Forall blank pre -> ~ blank line ->
     no_match re_open None (strip line) ->
     no_match re_close None (strip line) ->
     title_pass text = join [0xA] (pre ++ strip line :: post)) /\
  (forall ls, Forall blank ls -> strip_title ls = ls) /\
  (forall text,
     Forall blank (splitlines text) ->
     title_pass text = join [0xA] (splitlines text)) /\
  (forall text pre line post,
     no_match re_pvalue None text -> no_match re_month None text ->
     splitlines text = pre ++ line :: post ->
     Forall blank pre -> ~ blank line ->
     no_match re_open None (strip line) ->
     no_match re_close None (strip line) ->
     count_occ s_taishogun (join [0xA] (pre ++ strip line :: post)) = 0%nat ->
     count_occ s_freedom_from (join [0xA] (pre ++ strip line :: post))
     = 0%nat ->
     no_match re_slide None (join [0xA] (pre ++ strip line :: post)) ->
     postprocess text = join [0xA] (pre ++ strip line :: post)) /\
  (forall c s, Forall blank (splitlines (c :: s)) ->
               postprocess (c :: s) = join [0xA] (splitlines (c :: s))).
Proof.
  split; [exact postprocess_raising_returns |].
  split; [reflexivity |]. split; [reflexivity |].
  split; [intros s; apply sub_no_match |].
  split; [intros s; apply sub_no_match |].
  split; [exact terminology_pass_noop |].
  split; [intros s; apply sub_no_match |].
  split; [exact title_pass_no_match |].
  split; [exact strip_title_noop |].
  split; [intros text H; unfold title_pass; now rewrite strip_title_noop |].
  split; [| exact postprocess_blank_text].
  intros text pre line post H1 H2 E Hpre Hline Ho Hc H4a H4b H5.
  destruct text as [| c s].
  - destruct pre; discriminate E.
  - unfold postprocess. cbv zeta.
    unfold pvalue_pass. rewrite (sub_no_match _ _ _ H1).
    unfold month_pass. rewrite (sub_no_match _ _ _ H2).
    rewrite (title_pass_no_match _ pre line post E Hpre Hline Ho Hc).
    rewrite (terminology_pass_noop _ H4a H4b).
    unfold slide_pass. now apply sub_no_match.
Qed.

Lemma postprocess_never_raises_witness :
  postprocess_raising [0x61; 0xA; 0x201C; 0x62] = Some [0x61; 0xA; 0x201C; 0x62]
  /\ pvalue_pass [0x50; 0x3C; 0x31] = [0x50; 0x3C; 0x31]
  /\ month_pass [0x56DB; 0x6708] = [0x56DB; 0x6708]
  /\ title_pass [0x20; 0xA; 0x20; 0x61; 0x20; 0xA; 0x62]
     = join [0xA] ([[0x20]] ++ strip [0x20; 0x61; 0x20] :: [[0x62]])
  /\ postprocess [0x20; 0xD; 0xA; 0x3000; 0xA]
     = join [0xA] (splitlines [0x20; 0xD; 0xA; 0x3000; 0xA]).
Proof.
  split; [| split; [| split; [| split]]].
  - exact (proj1 postprocess_never_raises [0x61; 0xA; 0x201C; 0x62]).
  - apply (proj1 (proj2 (proj2 (proj2 postprocess_never_raises)))).
    cbn [no_match]. repeat split; reflexivity.
  - apply (proj1 (proj2 (proj2 (proj2 (proj2 postprocess_never_raises))))).
    cbn [no_match]. repeat split; reflexivity.
  - apply (proj1 (proj2 (proj2 (proj2 (proj2 (proj2 (proj2 (proj2
             postprocess_never_raises)))))))).
    + reflexivity.
    + repeat constructor.
    + unfold blank. discriminate.
    + repeat split; reflexivity.
    + repeat split; reflexivity.
  - apply (proj2 (proj2 (proj2 (proj2 (proj2 (proj2 (proj2 (proj2 (proj2
             (proj2 (proj2 postprocess_never_raises))))))))))).
    repeat constructor.
Defined.

(** C8, as stated, fails in one part: a text in which no pass finds a
    match is not always returned as it is, since the title step rewrites
    the line terminators and trims the title line. *)
Lemma postprocess_changes_unmatched_text :
  Forall (fun c => is_pvariant c = false) [0x20; 0xD; 0x20] /\
  ~ In c_month [0x20; 0xD; 0x20] /\
  Forall blank (splitlines [0x20; 0xD; 0x20]) /\
  count_occ s_taishogun [0x20; 0xD; 0x20] = 0%nat /\
  count_occ s_freedom_from [0x20; 0xD; 0x20] = 0%nat /\
  count_occ s_slide_ni [0x20; 0xD; 0x20] = 0%nat /\
  postprocess [0x20; 0xD; 0x20] = [0x20; 0xA; 0x20] /\
  postprocess [0x20; 0xD; 0x20] <> [0x20; 0xD; 0x20] /\
  no_match re_pvalue None [0x20; 0x61; 0x20] /\
  no_match re_month None [0x20; 0x61; 0x20] /\
  no_match re_open None (strip [0x20; 0x61; 0x20]) /\
  no_match re_close None (strip [0x20; 0x61; 0x20]) /\
  count_occ s_taishogun [0x61] = 0%nat /\
  count_occ s_freedom_from [0x61] = 0%nat /\
  no_match re_slide None [0x61] /\
  postprocess [0x20; 0x61; 0x20] = [0x61] /\
  postprocess [0x20; 0x61; 0x20] <> [0x20; 0x61; 0x20].
Proof.
  repeat split; try (repeat constructor; fail); try discriminate.
  simpl. intros [H | [H | [H | []]]]; discriminate H.
Qed.

Import Retry.

(** ** The retry policy of [call_llm] *)

Lemma retried_iff_api_error e :
  retry call_llm_policy (Raised e) = issubclass e APIError.
Proof. destruct e; reflexivity. Qed.

Lemma wait_bounds n : 2 <= wait call_llm_policy n <= 20.
Proof. cbn [wait call_llm_policy]. unfold wait_exponential. lia. Qed.

Lemma call_llm_returns service fuel :
  (4 <= fuel)%nat ->
  exists o slept,
    call_llm service fuel = Some (o, slept) /\
    (length slept <= 3)%nat /\
    slept = firstn (length slept) [2; 2; 4] /\
    o = service (S (length slept)).
Proof.
  intros Hf. destruct fuel as [| [| [| [| f]]]]; try lia.
  unfold call_llm. cbn [attempts stop call_llm_policy stop_after_attempt Nat.leb].
  destruct (negb _).
  { exists (service 1%nat), []. repeat split; simpl; lia. }
  cbn [app]. destruct (negb _).
  { exists (service 2%nat), [wait_exponential 1 2 20 1]. repeat split; simpl; lia. }
  cbn [app]. destruct (negb _).
  { exists (service 3%nat), [wait_exponential 1 2 20 1; wait_exponential 1 2 20 2].
    repeat split; simpl; lia. }
  cbn [app]. destruct (negb _).
  { exists (service 4%nat),
      [wait_exponential 1 2 20 1; wait_exponential 1 2 20 2;
       wait_exponential 1 2 20 3]. repeat split; simpl; lia. }
  exists (service 4%nat),
    [wait_exponential 1 2 20 1; wait_exponential 1 2 20 2;
     wait_exponential 1 2 20 3]. repeat split; simpl; lia.
Qed.

Lemma call_llm_not_retried service fuel o :
  (1 <= fuel)%nat -> service 1%nat = o -> retry call_llm_policy o = false ->
  call_llm service fuel = Some (o, []).
Proof.
  intros Hf Ho Hr. destruct fuel as [| f]; [lia |].
  unfold call_llm. cbn [attempts]. now rewrite Ho, Hr.
Qed.

Lemma call_llm_fourth_attempt service fuel e1 e2 e3 :
  (4 <= fuel)%nat ->
  service 1%nat = Raised e1 -> issubclass e1 APIError = true ->
  service 2%nat = Raised e2 -> issubclass e2 APIError = true ->
  service 3%nat = Raised e3 -> issubclass e3 APIError = true ->
  call_llm service fuel = Some (service 4%nat, [2; 2; 4]).
Proof.
  intros Hf H1 A1 H2 A2 H3 A3. destruct fuel as [| [| [| [| f]]]]; try lia.
  unfold call_llm. cbn [attempts].
  rewrite H1, retried_iff_api_error, A1. cbn [negb stop call_llm_policy
    stop_after_attempt Nat.leb app].
  rewrite H2. fold call_llm_policy. rewrite retried_iff_api_error, A2.
  cbn [negb stop call_llm_policy stop_after_attempt Nat.leb app].
  rewrite H3. fold call_llm_policy. rewrite retried_iff_api_error, A3.
  cbn [negb stop call_llm_policy stop_after_attempt Nat.leb app].
  destruct (negb _); reflexivity.
Qed.

(** C4 (amended). [call_llm] makes at most four attempts and sleeps 2, 2
    and 4 time units between them, every wait lying between 2 and 20; an
    attempt is repeated exactly when it raised an instance of [APIError],
    which covers rate limit and timeout and also authentication failure
    and malformed request; any other outcome reaches the caller at once;
    after three such failures the caller receives the outcome of the
    fourth attempt, be it the text or the exception. *)
Theorem call_llm_retry_policy :
  (forall service fuel, (4 <= fuel)%nat ->
     exists o slept,
       call_llm service fuel = Some (o, slept) /\
       (length slept <= 3)%nat /\
       slept = firstn (length slept) [2; 2; 4] /\
       o = service (S (length slept))) /\
  (forall n, 2 <= wait call_llm_policy n <= 20) /\
  (forall e, retry call_llm_policy (Raised e) = issubclass e APIError) /\
  (forall text, retry call_llm_policy (Returned text) = false) /\
  issubclass RateLimitError APIError = true /\
  issubclass APITimeoutError APIError = true /\
  issubclass AuthenticationError APIError = true /\
  issubclass BadRequestError APIError = true /\
  issubclass OtherError APIError = false /\
  (forall service fuel o, (1 <= fuel)%nat ->
     service 1%nat = o -> retry call_llm_policy o = false ->
     call_llm service fuel = Some (o, [])) /\
  (forall service fuel e1 e2 e3, (4 <= fuel)%nat ->
     service 1%nat = Raised e1 -> issubclass e1 APIError = true ->
     service 2%nat = Raised e2 -> issubclass e2 APIError = true ->
     service 3%nat = Raised e3 -> issubclass e3 APIError = true ->
     call_llm service fuel = Some (service 4%nat, [2; 2; 4])).
Proof.
  split; [exact call_llm_returns |].
  split; [exact wait_bounds |].
  split; [exact retried_iff_api_error |].
  split; [reflexivity |].
  repeat (split; [reflexivity |]).
  split; [exact call_llm_not_retried | exact call_llm_fourth_attempt].
Qed.

Lemma call_llm_retry_policy_witness :
  call_llm (fun n => if (n <? 4)%nat then Raised RateLimitError
                     else Returned [0x61]) 7
  = Some (Returned [0x61], [2; 2; 4]).
Proof.
  pose proof (proj2 (proj2 (proj2 (proj2 (proj2 (proj2 (proj2 (proj2 (proj2
    (proj2 call_llm_retry_policy)))))))))) as H.
  apply (H (fun n => if (n <? 4)%nat then Raised RateLimitError
                     else Returned [0x61])
           7%nat RateLimitError RateLimitError RateLimitError);
    solve [reflexivity | lia].
Defined.

(** C4, as stated, fails: an authentication failure is an instance of
    [APIError], so it does not reach the caller at once but is followed by
    a sleep and a second attempt. *)
Lemma call_llm_retries_auth_failure :
  call_llm (fun n => if (n <? 2)%nat then Raised AuthenticationError
                     else Returned [0x61]) 4
  = Some (Returned [0x61], [2]) /\
  call_llm (fun n => if (n <? 2)%nat then Raised BadRequestError
                     else Returned [0x61]) 4
  <> Some (Raised BadRequestError, []).
Proof. split; [reflexivity | discriminate]. Qed.

(* ------------------------------------------------------------------ *)
(** * Properties of the application *)
(* ------------------------------------------------------------------ *)

Import App AppProps.

(** ** [split] and [to_docx] *)

Lemma split_nonempty sep s : split sep s <> [].
Proof.
  destruct s as [| c s]; simpl; [discriminate |].
  destruct (c =? sep); [discriminate |].
  destruct (split sep s); discriminate.
Qed.

Lemma join_cons sep l ls :
  ls <> [] -> join sep (l :: ls) = l ++ sep ++ join sep ls.
Proof. destruct ls as [| l' ls']; [congruence | reflexivity]. Qed.

Lemma join_split sep s : join [sep] (split sep s) = s.
Proof.
  induction s as [| c s IH]; [reflexivity |].
  cbn [split]. destruct (c =? sep) eqn:E.
  - apply Z.eqb_eq in E. subst c.
    rewrite join_cons by apply split_nonempty. now rewrite IH.
  - pose proof (split_nonempty sep s) as N.
    destruct (split sep s) as [| l ls]; [congruence |].
    destruct ls as [| l' ls'].
    + simpl in *. now rewrite IH.
    + rewrite join_cons in * by discriminate.
      rewrite <- IH. reflexivity.
Qed.

Lemma split_no_sep sep s : Forall (fun l => ~ In sep l) (split sep s).
Proof.
  induction s as [| c s IH]; [repeat constructor; intros [] |].
  cbn [split]. destruct (c =? sep) eqn:E.
  - constructor; [intros [] | exact IH].
  - destruct (split sep s) as [| l ls].
    + repeat constructor. intros [H | []]. subst c.
      now rewrite Z.eqb_refl in E.
    + inversion IH as [| ? ? Hl Hls]; subst. constructor; [| exact Hls].
      intros [H | H]; [| now apply Hl]. subst c.
      now rewrite Z.eqb_refl in E.
Qed.

Lemma split_length sep s :
  length (split sep s) = S (List.count_occ Z.eq_dec s sep).
Proof.
  induction s as [| c s IH]; [reflexivity |].
  cbn [split List.count_occ]. destruct (Z.eq_dec c sep) as [-> | N].
  - rewrite Z.eqb_refl. cbn [length]. now rewrite IH.
  - apply Z.eqb_neq in N. rewrite N.
    pose proof (split_nonempty sep s) as Hn.
    destruct (split sep s) as [| l ls]; [congruence |]. exact IH.
Qed.

Lemma split_chars sep s l c : In l (split sep s) -> In c l -> In c s.
Proof.
  revert l. induction s as [| x s IH]; intros l.
  - simpl. intros [<- | []] [].
  - cbn [split]. destruct (x =? sep).
    + intros [<- | H] Hc; [destruct Hc |]. right. now apply (IH l).
    + pose proof (split_nonempty sep s) as Hn.
      destruct (split sep s) as [| l0 ls]; [congruence |].
      intros [<- | H] Hc.
      * destruct Hc as [-> | Hc]; [now left |].
        right. apply (IH l0); [now left | exact Hc].
      * right. apply (IH l); [now right | exact Hc].
Qed.

(** X1. The paragraphs that [to_docx] adds are the pieces of the text
    between line feeds: joined with line feeds they give the text back,
    none of them holds a line feed, and there is one more of them than the
    text has line feeds (one paragraph for the empty text). *)
Theorem to_docx_paragraphs_roundtrip save_docx text :
  to_docx save_docx text = save_docx (split 0xA text) /\
  join [0xA] (split 0xA text) = text /\
  Forall (fun para => ~ In 0xA para) (split 0xA text) /\
  length (split 0xA text) = S (List.count_occ Z.eq_dec text 0xA).
Proof.
  split; [reflexivity |]. split; [apply join_split |].
  split; [apply split_no_sep | apply split_length].
Qed.

(** X2. No paragraph of the document made from a normalized text holds a
    line boundary of any kind, so no paragraph is broken inside. *)
Theorem to_docx_postprocess_no_linebreak text para c :
  In para (split 0xA (postprocess text)) -> In c para ->
  is_linebreak c = false.
Proof.
  intros Hp Hc. destruct (is_linebreak c) eqn:L; [| reflexivity].
  pose proof (split_chars _ _ _ _ Hp Hc) as Hin.
  pose proof (postprocess_linebreaks _ _ Hin L) as E. subst c.
  pose proof (split_no_sep 0xA (postprocess text)) as F.
  rewrite Forall_forall in F. now apply F in Hp.
Qed.

Lemma to_docx_postprocess_no_linebreak_witness :
  is_linebreak 0x62 = false.
Proof.
  apply (to_docx_postprocess_no_linebreak [0x61; 0xD; 0x62] [0x62] 0x62);
    simpl; tauto.
Defined.

(** X3. The document made from a normalized text has no more paragraphs
    than the raw text has lines, and one paragraph when the raw text is
    empty. *)
Theorem to_docx_postprocess_paragraph_count text :
  (length (split 0xA (postprocess text))
   <= Nat.max 1 (length (splitlines text)))%nat.
Proof.
  rewrite split_length. pose proof (postprocess_count_lf text). lia.
Qed.

Lemma split_join_lines ls :
  ls <> [] -> Forall (fun l => ~ In 0xA l) ls ->
  split 0xA (join [0xA] ls) = ls.
Proof.
  intros Hne H. induction H as [| l ls Hl Hls IH]; [congruence |].
  destruct ls as [| l' ls'].
  - clear IH Hne. cbn [join]. induction l as [| c l IHl]; [reflexivity |].
    cbn [split]. destruct (c =? 0xA) eqn:E.
    + apply Z.eqb_eq in E. exfalso. apply Hl. now left.
    + rewrite IHl; [reflexivity |]. intros Hin. apply Hl. now right.
  - rewrite join_cons by discriminate. specialize (IH ltac:(discriminate)).
    clear Hne. induction l as [| c l IHl].
    + cbn [app split]. rewrite Z.eqb_refl. now rewrite IH.
    + rewrite <- app_comm_cons. cbn [split]. destruct (c =? 0xA) eqn:E.
      * apply Z.eqb_eq in E. exfalso. apply Hl. now left.
      * rewrite IHl; [reflexivity |]. intros Hin. apply Hl. now right.
Qed.

(** X4. Splitting at line feeds undoes the join of pass 3: the text that
    leaves the title step has, as its paragraphs, exactly the lines of the
    text that entered it, with the title line cleaned. *)
Theorem split_title_pass text :
  splitlines text <> [] ->
  split 0xA (title_pass text) = strip_title (splitlines text).
Proof.
  intros H. unfold title_pass. apply split_join_lines.
  - intros E. apply (f_equal (@length str)) in E.
    rewrite strip_title_length in E. destruct (splitlines text); [congruence |].
    discriminate E.
  - pose proof (strip_title_Forall _ _ (splitlines_no_linebreak text)) as F.
    revert F. apply Forall_impl. intros l Fl Hin.
    rewrite Forall_forall in Fl. apply Fl in Hin. discriminate Hin.
Qed.

Lemma split_title_pass_witness :
  split 0xA (title_pass [0x201C; 0x61; 0x201D; 0xD; 0xA; 0x62])
  = strip_title (splitlines [0x201C; 0x61; 0x201D; 0xD; 0xA; 0x62]).
Proof. apply split_title_pass. discriminate. Defined.

(** ** [extract_slides_text] *)

Lemma extract_pages_map pages :
  ~ In PageRaises pages -> extract_pages pages = Some (map page_text pages).
Proof.
  induction pages as [| p ps IH]; intros H; [reflexivity |].
  cbn [extract_pages]. rewrite IH by (intros Hin; apply H; now right).
  destruct p; try reflexivity. exfalso. apply H. now left.
Qed.

Lemma extract_pages_raises pages :
  In PageRaises pages -> extract_pages pages = None.
Proof.
  induction pages as [| p ps IH]; [intros [] |].
  intros [-> | H]; [reflexivity |]. cbn [extract_pages].
  rewrite (IH H). now destruct p.
Qed.

(** X5. [extract_slides_text] returns one text per page, in page order,
    with the empty string for a page without text; when the file cannot
    be opened or one page raises, nothing is returned at all. *)
Theorem extract_slides_text_pages open_pdf uploaded_pdf :
  (forall pages, open_pdf uploaded_pdf = Some pages ->
     ~ In PageRaises pages ->
     extract_slides_text open_pdf uploaded_pdf = Some (map page_text pages)) /\
  (forall pages, open_pdf uploaded_pdf = Some pages ->
     In PageRaises pages ->
     extract_slides_text open_pdf uploaded_pdf = None) /\
  (open_pdf uploaded_pdf = None ->
   extract_slides_text open_pdf uploaded_pdf = None).
Proof.
  unfold extract_slides_text. split; [| split].
  - intros pages -> H. now apply extract_pages_map.
  - intros pages -> H. now apply extract_pages_raises.
  - now intros ->.
Qed.

Lemma extract_slides_text_pages_witness :
  extract_slides_text (fun _ => Some [PageText [0x61]; PageNone; PageText [0x62]]) []
  = Some [[0x61]; []; [0x62]].
Proof.
  apply (proj1 (extract_slides_text_pages
           (fun _ => Some [PageText [0x61]; PageNone; PageText [0x62]]) [])
           [PageText [0x61]; PageNone; PageText [0x62]]).
  - reflexivity.
  - simpl. intros [H | [H | [H | []]]]; discriminate H.
Defined.

(** ** [strip] *)

Lemma forallb_drop_trailing p s :
  forallb p s = false -> forallb p (drop_trailing p s) = false.
Proof.
  induction s as [| c s IH]; [discriminate |].
  intros H. cbn [drop_trailing]. rewrite H. cbn [forallb] in *.
  destruct (p c); [| reflexivity]. cbn [andb] in *. now apply IH.
Qed.

Lemma drop_trailing_idem p s :
  drop_trailing p (drop_trailing p s) = drop_trailing p s.
Proof.
  induction s as [| c s IH]; [reflexivity |].
  cbn [drop_trailing]. destruct (forallb p (c :: s)) eqn:F; [reflexivity |].
  cbn [drop_trailing]. rewrite IH.
  replace (forallb p (c :: drop_trailing p s)) with false; [reflexivity |].
  cbn [forallb] in *. destruct (p c); [| reflexivity]. cbn [andb] in *.
  symmetry. now apply forallb_drop_trailing.
Qed.

Lemma drop_trailing_head p s c t :
  drop_trailing p s = c :: t -> exists t', s = c :: t'.
Proof.
  destruct s as [| x s]; [discriminate |]. cbn [drop_trailing].
  destruct (forallb p (x :: s)); [discriminate |].
  intros H. injection H as -> _. now exists s.
Qed.

Lemma strip_idem s : strip (strip s) = strip s.
Proof.
  unfold strip at 1.
  assert (H : drop_while is_space (strip s) = strip s).
  { unfold strip. destruct (drop_trailing is_space (drop_while is_space s))
      as [| c t] eqn:E; [reflexivity |].
    destruct (drop_trailing_head _ _ _ _ E) as [t' D].
    apply drop_while_head in D. cbn [drop_while]. now rewrite D. }
  rewrite H. unfold strip. apply drop_trailing_idem.
Qed.

Lemma strip_all_space s :
  Forall (fun c => is_space c = true) s -> strip s = [].
Proof.
  intros H. unfold strip.
  assert (F : forallb is_space s = true)
    by (apply forallb_forall; now apply Forall_forall).
  now rewrite (forallb_drop_while _ _ F).
Qed.

Lemma strip_no_space s : Forall (fun c => is_space c = false) s -> strip s = s.
Proof.
  intros H. unfold strip.
  assert (D : drop_while is_space s = s).
  { destruct H as [| c s Hc Hs]; [reflexivity |]. simpl. now rewrite Hc. }
  rewrite D. clear D. induction H as [| c s Hc Hs IH]; [reflexivity |].
  cbn [drop_trailing forallb]. rewrite Hc. cbn [andb]. now rewrite IH.
Qed.

(** ** The script *)

Lemma str_eqb_eq a b : str_eqb a b = true <-> a = b.
Proof.
  revert b. induction a as [| x a IH]; intros [| y b]; simpl;
    try (split; [discriminate | discriminate]); [tauto |].
  rewrite andb_true_iff, Z.eqb_eq, IH. split.
  - intros [-> ->]. reflexivity.
  - intros H. injection H as -> ->. now split.
Qed.

Lemma encode_char_none c : encode_char c = None <-> surrogate c = true.
Proof.
  unfold encode_char, surrogate.
  destruct (c <? 0x80) eqn:A; [split; [discriminate | lia] |].
  destruct (c <? 0x800) eqn:B; [split; [discriminate | lia] |].
  destruct ((0xD800 <=? c) && (c <=? 0xDFFF)); [tauto |].
  destruct (c <? 0x10000); split; discriminate.
Qed.

Lemma encode_none text :
  encode text = None <-> exists c, In c text /\ surrogate c = true.
Proof.
  induction text as [| c text IH]; cbn [encode].
  - split; [discriminate | intros [c [[] _]]].
  - pose proof (encode_char_none c) as E.
    destruct (encode_char c) as [b |].
    + destruct (encode text) as [bs |].
      * split; [discriminate |]. intros [x [[<- | Hin] Hx]].
        -- apply E in Hx. discriminate Hx.
        -- assert (N : Some bs = None) by (apply IH; now exists x).
           discriminate N.
      * split; [| reflexivity]. intros _.
        destruct (proj1 IH eq_refl) as [x [Hin Hx]].
        exists x. split; [now right | exact Hx].
    + split; [| reflexivity]. intros _. exists c. split; [now left |].
      now apply E.
Qed.

Lemma encode_app a b :
  encode (a ++ b)
  = match encode a, encode b with
    | Some x, Some y => Some (x ++ y)
    | _, _ => None
    end.
Proof.
  induction a as [| c a IH]; cbn [app encode].
  - now destruct (encode b).
  - rewrite IH. destruct (encode_char c) as [x |]; [| reflexivity].
    destruct (encode a) as [xs |]; [| reflexivity].
    destruct (encode b) as [ys |]; [| reflexivity].
    now rewrite app_assoc.
Qed.

Section ScriptFacts.

Variable sha256_hexdigest : bytes -> str.
Variable RULES : str.
Variable open_pdf : bytes -> option (list page).
Variable save_docx : list str -> option bytes.

Let script := script sha256_hexdigest RULES open_pdf save_docx.
Let generate := generate sha256_hexdigest RULES open_pdf save_docx.
Let login_step := login_step sha256_hexdigest.

(** What a generation step can do to the session. *)
Lemma generate_cases w service fuel ss ss' h :
  generate w service fuel ss = Some (ss', h) ->
  (ss' = ss /\ (h = Crashed \/ (exists e, h = StopError e) \/ h = display ss))
  \/ (exists name pdf_bytes slides raw_text sleeps data key,
        uploaded w = Some (name, pdf_bytes) /\ run_btn w = true /\
        extract_slides_text open_pdf pdf_bytes = Some slides /\
        call_llm (service (join page_break slides)) fuel
        = Some (Returned raw_text, sleeps) /\
        save_docx (split 0xA (postprocess raw_text)) = Some data /\
        cache_key sha256_hexdigest RULES name pdf_bytes = Some key /\
        ss' = {| auth_ok := auth_ok ss; api_key := api_key ss;
                 gen_text := Some (postprocess raw_text);
                 docx_bytes := Some data; last_key := Some key |} /\
        h = Done (Some (postprocess raw_text, data, s_dl ++ key))).
Proof.
  unfold generate, App.generate.
  destruct (uploaded w) as [[name pdf_bytes] |];
    [| intros H; injection H as <- <-; left; tauto].
  destruct (run_btn w); [| intros H; injection H as <- <-; left; tauto].
  destruct (extract_slides_text open_pdf pdf_bytes) as [slides |] eqn:X;
    [| intros H; injection H as <- <-; left; tauto].
  cbv zeta.
  destruct (cache_key sha256_hexdigest RULES name pdf_bytes) as [key |] eqn:K;
    [| intros H; injection H as <- <-; left; tauto].
  destruct (call_llm (service (join page_break slides)) fuel)
    as [[[raw_text | e] sleeps] |] eqn:C; [| | discriminate].
  - unfold to_docx.
    destruct (save_docx (split 0xA (postprocess raw_text))) as [data |] eqn:D.
    + intros H. injection H as <- <-. right.
      exists name, pdf_bytes, slides, raw_text, sleeps, data, key.
      repeat split; try reflexivity; assumption.
    + intros H. injection H as <- <-. left. split; [reflexivity |].
      right. left. now exists OtherError.
  - intros H. injection H as <- <-. left. split; [reflexivity |].
    right. left. now exists e.
Qed.

Lemma generate_returns w service fuel ss :
  (4 <= fuel)%nat -> exists r, generate w service fuel ss = Some r.
Proof.
  intros Hf. unfold generate, App.generate.
  destruct (uploaded w) as [[name pdf_bytes] |]; [| eexists; reflexivity].
  destruct (run_btn w); [| eexists; reflexivity].
  destruct (extract_slides_text open_pdf pdf_bytes) as [slides |];
    [| eexists; reflexivity].
  cbv zeta.
  destruct (cache_key sha256_hexdigest RULES name pdf_bytes) as [key |];
    [| eexists; reflexivity].
  destruct (call_llm_returns (service (join page_break slides)) fuel Hf)
    as [o [slept [C _]]]. rewrite C.
  destruct o as [raw_text | e]; [| eexists; reflexivity].
  destruct (to_docx save_docx (postprocess raw_text)); eexists; reflexivity.
Qed.

Lemma script_returns env w service fuel ss :
  (4 <= fuel)%nat -> exists r, script env w service fuel ss = Some r.
Proof.
  intros Hf. unfold script, App.script.
  destruct (App.login_step sha256_hexdigest env w ss) as [ss1 |];
    [| eexists; reflexivity].
  destruct (auth_ok ss1) as [[|] |]; try (eexists; reflexivity).
  destruct (strip _); [eexists; reflexivity |].
  now apply generate_returns.
Qed.

(** What the login block can do to the session. *)
Lemma login_step_cases env w ss ss1 :
  login_step env w ss = Some ss1 ->
  artifacts ss1 = artifacts ss /\
  ((login w = false /\ ss1 = ss) \/
   (login w = true /\ api_key ss1 = Some (strip (input_api_key w)) /\
    ((_get_password_hash env = [] /\ auth_ok ss1 = Some true) \/
     (exists b, _get_password_hash env <> [] /\
        encode (input_pw w) = Some b /\
        auth_ok ss1
        = Some (str_eqb (sha256_hexdigest b) (_get_password_hash env)))))).
Proof.
  unfold login_step, App.login_step, _sha256.
  destruct (_get_password_hash env) as [| x h] eqn:E.
  - destruct (login w).
    + intros H. injection H as <-. split; [reflexivity |]. right.
      repeat split. now left.
    + intros H. injection H as <-. split; [reflexivity |]. now left.
  - destruct (login w).
    + destruct (encode (input_pw w)) as [b |]; [| discriminate].
      intros H. injection H as <-. split; [reflexivity |]. right.
      repeat split. right. exists b. repeat split. discriminate.
    + intros H. injection H as <-. split; [reflexivity |]. now left.
Qed.

(** The shape of a run: the login block, the gate, the generation. *)
Lemma script_cases env w service fuel ss ss' h :
  script env w service fuel ss = Some (ss', h) ->
  (login_step env w ss = None /\ ss' = ss /\ h = Crashed) \/
  (exists ss1, login_step env w ss = Some ss1 /\
     ((auth_ok ss1 <> Some true /\ ss' = ss1 /\ h = StopInfo) \/
      (auth_ok ss1 = Some true /\
       strip (match api_key ss1 with Some k => k | None => [] end) = [] /\
       ss' = ss1 /\ h = StopNoKey) \/
      (auth_ok ss1 = Some true /\
       strip (match api_key ss1 with Some k => k | None => [] end) <> [] /\
       generate w service fuel ss1 = Some (ss', h)))).
Proof.
  unfold script, App.script, login_step.
  destruct (App.login_step sha256_hexdigest env w ss) as [ss1 |].
  - intros H. right. exists ss1. split; [reflexivity |].
    destruct (auth_ok ss1) as [[|] |] eqn:A.
    + destruct (strip _) eqn:K.
      * injection H as <- <-. right. left. tauto.
      * right. right. repeat split; [discriminate | exact H].
    + injection H as <- <-. left. repeat split. discriminate.
    + injection H as <- <-. left. repeat split. discriminate.
  - intros H. injection H as <- <-. left. tauto.
Qed.

End ScriptFacts.

Section ScriptTheorems.

Variable sha256_hexdigest : bytes -> str.
Variable RULES : str.
Variable open_pdf : bytes -> option (list page).
Variable save_docx : list str -> option bytes.

Let script := script sha256_hexdigest RULES open_pdf save_docx.
Let generate := generate sha256_hexdigest RULES open_pdf save_docx.
Let login_step := login_step sha256_hexdigest.
Let step := step sha256_hexdigest RULES open_pdf save_docx.
Let run := run sha256_hexdigest RULES open_pdf save_docx.

Lemma generate_keeps_login w service fuel ss ss' h :
  generate w service fuel ss = Some (ss', h) ->
  auth_ok ss' = auth_ok ss /\ api_key ss' = api_key ss /\
  h <> StopInfo /\ h <> StopNoKey.
Proof.
  intros H. apply generate_cases in H.
  destruct H as [[-> H] | H].
  - repeat split; destruct H as [-> | [[e ->] | ->]]; try discriminate;
      unfold display; destruct (gen_text ss), (docx_bytes ss); discriminate.
  - destruct H as (name & pdf & slides & raw & sl & data & key & _ & _ & _ & _
                   & _ & _ & -> & ->).
    repeat split; discriminate.
Qed.

(** X6. Without a configured password hash (the variable is unset, empty
    or whitespace only) a press of the login button logs in with any
    password: the run does not stop at the login notice and leaves
    [auth_ok] true and the trimmed API key in the session. *)
Theorem login_without_password env w service fuel ss :
  (4 <= fuel)%nat ->
  (env = None \/ exists v, env = Some v /\ Forall (fun c => is_space c = true) v) ->
  login w = true ->
  exists ss' h,
    script env w service fuel ss = Some (ss', h) /\
    auth_ok ss' = Some true /\
    api_key ss' = Some (strip (input_api_key w)) /\
    h <> StopInfo.
Proof.
  intros Hf Henv Hl.
  assert (E : _get_password_hash env = []).
  { destruct Henv as [-> | [v [-> Hv]]]; [reflexivity |].
    now apply strip_all_space. }
  destruct (script_returns sha256_hexdigest RULES open_pdf save_docx
              env w service fuel ss Hf) as [[ss' h] R].
  exists ss', h. split; [exact R |].
  apply script_cases in R. destruct R as [[L _] | [ss1 [L R]]].
  - unfold login_step, App.login_step in L. rewrite E, Hl in L. discriminate.
  - apply login_step_cases in L. destruct L as [_ [[Hl' _] | [_ [K A]]]];
      [congruence |].
    destruct A as [[_ A] | [b [N _]]]; [| congruence].
    destruct R as [[N _] | [(_ & _ & -> & ->) | (_ & _ & G)]].
    + congruence.
    + repeat split; [assumption | assumption | discriminate].
    + apply generate_keeps_login in G. destruct G as (G1 & G2 & G3 & _).
      rewrite G1, G2. now repeat split.
Qed.

(** X7. With a configured password hash, a press of the login button
    sets [auth_ok] to the comparison of the digest of the entered
    password with the trimmed hash: it is true exactly when they are
    equal.  A wrong password ends the run at the login notice, also when
    the session was logged in before, and leaves the artifacts alone. *)
Theorem login_checks_password env w service fuel ss b :
  (4 <= fuel)%nat ->
  _get_password_hash env <> [] -> login w = true ->
  encode (input_pw w) = Some b ->
  exists ss' h,
    script env w service fuel ss = Some (ss', h) /\
    (auth_ok ss' = Some true <-> sha256_hexdigest b = _get_password_hash env) /\
    (auth_ok ss' = Some false <-> sha256_hexdigest b <> _get_password_hash env) /\
    api_key ss' = Some (strip (input_api_key w)) /\
    (sha256_hexdigest b <> _get_password_hash env ->
     h = StopInfo /\ artifacts ss' = artifacts ss).
Proof.
  intros Hf Hh Hl Hb.
  destruct (script_returns sha256_hexdigest RULES open_pdf save_docx
              env w service fuel ss Hf) as [[ss' h] R].
  exists ss', h. split; [exact R |].
  apply script_cases in R. destruct R as [[L _] | [ss1 [L R]]].
  - unfold login_step, App.login_step, _sha256 in L.
    rewrite Hl, Hb in L. destruct (_get_password_hash env); [congruence |].
    discriminate L.
  - apply login_step_cases in L.
    destruct L as [Art [[Hl' _] | [_ [K A]]]]; [congruence |].
    destruct A as [[N _] | [b' [_ [Hb' A]]]]; [congruence |].
    assert (b' = b) by congruence. subst b'.
    assert (Q : forall ss2, auth_ok ss2 = auth_ok ss1 ->
              (auth_ok ss2 = Some true
               <-> sha256_hexdigest b = _get_password_hash env) /\
              (auth_ok ss2 = Some false
               <-> sha256_hexdigest b <> _get_password_hash env)).
    { intros ss2 ->. rewrite A.
      destruct (str_eqb (sha256_hexdigest b) (_get_password_hash env)) eqn:Q.
      - apply str_eqb_eq in Q.
        split; split; intros; try reflexivity; try assumption; congruence.
      - assert (sha256_hexdigest b <> _get_password_hash env).
        { intros Heq. apply str_eqb_eq in Heq. congruence. }
        split; split; intros; try reflexivity; try assumption; congruence. }
    assert (A1 : auth_ok ss' = auth_ok ss1 /\ api_key ss' = api_key ss1 /\
                 (auth_ok ss1 <> Some true -> h = StopInfo /\ ss' = ss1)).
    { destruct R as [(N & -> & ->) | [(T & _ & -> & ->) | (T & _ & G)]].
      - split; [reflexivity |]. split; [reflexivity |]. now split.
      - split; [reflexivity |]. split; [reflexivity |]. intros N. congruence.
      - apply generate_keeps_login in G. destruct G as (G1 & G2 & _).
        split; [exact G1 |]. split; [exact G2 |]. intros N. congruence. }
    destruct A1 as (A1 & A2 & A3). destruct (Q ss' A1) as [Q1 Q2].
    split; [exact Q1 |]. split; [exact Q2 |].
    split; [now rewrite A2 |].
    intros Hne. apply Q2 in Hne. rewrite A1 in Hne.
    destruct A3 as [-> ->]; [congruence |]. now split.
Qed.

(** X8. A run reaches the generation step or the display only when the
    session is logged in and holds an API key that is not empty. *)
Theorem script_needs_login env w service fuel ss ss' h :
  script env w service fuel ss = Some (ss', h) ->
  (exists e, h = StopError e) \/ (exists shown, h = Done shown) ->
  auth_ok ss' = Some true /\
  exists k, api_key ss' = Some k /\ k <> [] /\ strip k <> [].
Proof.
  intros R Hh. apply script_cases in R.
  destruct R as [(_ & _ & ->) | [ss1 [L R]]];
    [destruct Hh as [[? Hh] | [? Hh]]; discriminate Hh |].
  destruct R as [(_ & _ & ->) | [(_ & _ & _ & ->) | (T & K & G)]];
    try (destruct Hh as [[? Hh] | [? Hh]]; discriminate Hh).
  apply generate_keeps_login in G. destruct G as (G1 & G2 & _).
  rewrite G1, G2. split; [exact T |].
  destruct (api_key ss1) as [k |]; [| now contradiction K].
  exists k. repeat split; [| exact K]. intros ->. now apply K.
Qed.

(** X9. A run that stops at the login notice or at the missing key has
    left the artifacts alone and has not depended on the API at all: with
    any other answers of the service, and any number of attempts allowed,
    it ends in the same way. *)
Theorem script_gate_no_request env w service fuel ss ss' h :
  script env w service fuel ss = Some (ss', h) ->
  h = StopInfo \/ h = StopNoKey ->
  artifacts ss' = artifacts ss /\
  forall service' fuel', script env w service' fuel' ss = Some (ss', h).
Proof.
  intros R Hh. apply script_cases in R.
  destruct R as [(_ & _ & ->) | [ss1 [L R]]];
    [destruct Hh as [Hh | Hh]; discriminate Hh |].
  pose proof (proj1 (login_step_cases _ _ _ _ _ L)) as Art.
  unfold script, App.script. unfold login_step in L. rewrite L.
  destruct R as [(N & -> & ->) | [(T & K & -> & ->) | (_ & _ & G)]].
  - split; [exact Art |]. intros service' fuel'.
    destruct (auth_ok ss1) as [[|] |]; [congruence | reflexivity | reflexivity].
  - split; [exact Art |]. intros service' fuel'. now rewrite T, K.
  - apply generate_keeps_login in G. destruct G as (_ & _ & G3 & G4).
    destruct Hh; contradiction.
Qed.

(** X10. A run changes the artifacts only by a generation that succeeds:
    a file is uploaded and the button pressed, the slides are read, the
    service returns a text for the slides joined by the page break, and
    the document is written.  The run then stores the normalized form of
    just that text, the document made from it and the key of the uploaded
    file, and shows just these; a run that fails, in whatever way, leaves
    the artifacts of an earlier generation in place. *)
Theorem script_artifacts env w service fuel ss ss' h :
  script env w service fuel ss = Some (ss', h) ->
  (artifacts ss' = artifacts ss /\
   (h = Crashed \/ h = StopInfo \/ h = StopNoKey \/ (exists e, h = StopError e)
    \/ h = display ss'))
  \/ (exists name pdf_bytes slides raw_text sleeps data key,
        uploaded w = Some (name, pdf_bytes) /\ run_btn w = true /\
        extract_slides_text open_pdf pdf_bytes = Some slides /\
        call_llm (service (join page_break slides)) fuel
        = Some (Returned raw_text, sleeps) /\
        save_docx (split 0xA (postprocess raw_text)) = Some data /\
        cache_key sha256_hexdigest RULES name pdf_bytes = Some key /\
        artifacts ss' = (Some (postprocess raw_text), Some data, Some key) /\
        h = Done (Some (postprocess raw_text, data, s_dl ++ key))).
Proof.
  intros R. apply script_cases in R.
  destruct R as [(_ & -> & ->) | [ss1 [L R]]]; [left; tauto |].
  pose proof (proj1 (login_step_cases _ _ _ _ _ L)) as Art.
  destruct R as [(N & -> & ->) | [(T & K & -> & ->) | (_ & _ & G)]];
    [left; tauto | left; tauto |].
  apply generate_cases in G. destruct G as [[-> G] | G].
  - left. split; [exact Art |]. destruct G as [-> | [E | ->]]; tauto.
  - destruct G as (name & pdf & slides & raw & sl & data & key & U & B & X & C
                   & D & K & -> & ->).
    right. exists name, pdf, slides, raw, sl, data, key.
    repeat split; assumption.
Qed.

(** X11. A run in which neither the login button nor the generation is
    triggered leaves the whole session as it was, whatever the answers of
    the service and the number of attempts allowed. *)
Theorem script_idle env w service fuel ss :
  login w = false -> uploaded w = None \/ run_btn w = false ->
  exists h, script env w service fuel ss = Some (ss, h).
Proof.
  intros Hl Hg. unfold script, App.script, App.login_step.
  rewrite Hl. destruct (_get_password_hash env);
    (destruct (auth_ok ss) as [[|] |]; [| eexists; reflexivity ..];
     destruct (strip _); [eexists; reflexivity |];
     unfold App.generate;
     destruct Hg as [-> | Hg];
     [eexists; reflexivity |
      rewrite Hg; destruct (uploaded w) as [[? ?] |]; eexists; reflexivity]).
Qed.

Lemma consistent_login env w ss ss1 :
  login_step env w ss = Some ss1 ->
  consistent save_docx ss -> consistent save_docx ss1.
Proof.
  intros L [C1 C2]. apply login_step_cases in L.
  destruct L as [Art [[_ ->] | [_ [K _]]]]; [now split |].
  unfold artifacts in Art. injection Art as A1 A2 A3.
  unfold consistent. rewrite A1, A2, A3, K. split; [exact C1 |].
  apply strip_idem.
Qed.

Lemma consistent_script env w service fuel ss ss' h :
  script env w service fuel ss = Some (ss', h) ->
  consistent save_docx ss -> consistent save_docx ss'.
Proof.
  intros R C. apply script_cases in R.
  destruct R as [(_ & -> & _) | [ss1 [L R]]]; [exact C |].
  pose proof (consistent_login _ _ _ _ L C) as C1.
  destruct R as [(_ & -> & _) | [(_ & _ & -> & _) | (_ & _ & G)]];
    [exact C1 | exact C1 |].
  apply generate_cases in G. destruct G as [[-> _] | G]; [exact C1 |].
  destruct G as (name & pdf & slides & raw & sl & data & key & _ & _ & _ & _
                 & D & _ & -> & _).
  destruct C1 as [_ C2]. split; [| exact C2]. cbn.
  split; [exact D | now exists raw].
Qed.

Lemma consistent_step env ss ev :
  consistent save_docx ss -> consistent save_docx (step env ss ev).
Proof.
  intros C. destruct ev as [w service |]; cbn.
  - destruct (App.script sha256_hexdigest RULES open_pdf save_docx env w
                service 4 ss) as [[ss' h] |] eqn:R; [| exact C].
    now apply (consistent_script env w service 4%nat ss ss' h).
  - destruct C as [_ C2]. now split.
Qed.

(** X12. Whatever runs and uploads have happened since the session
    began: the text, the document and the key are stored together or not
    at all; the stored document is the one made from the stored text; the
    stored text is a result of the normalizer and holds no line boundary
    but the line feed; the stored API key is trimmed; and the display
    shows something exactly when a text is stored. *)
Theorem session_consistent env evs :
  consistent save_docx (run env evs) /\
  (forall text c, gen_text (run env evs) = Some text -> In c text ->
     is_linebreak c = true -> c = 0xA) /\
  (display (run env evs) = Done None <-> gen_text (run env evs) = None).
Proof.
  assert (C : consistent save_docx (run env evs)).
  { unfold run, App.run.
    assert (G : forall ss, consistent save_docx ss ->
              consistent save_docx
                (fold_left (App.step sha256_hexdigest RULES open_pdf save_docx env)
                   evs ss)).
    { induction evs as [| ev evs IH]; intros ss Hs; [exact Hs |].
      cbn [fold_left]. apply IH. now apply consistent_step. }
    apply G. split; exact I. }
  split; [exact C |]. destruct C as [C _]. unfold display. split.
  - intros text c Ht Hin Hc. rewrite Ht in C.
    destruct (docx_bytes (run env evs)); [| contradiction].
    destruct (last_key (run env evs)); [| contradiction].
    destruct C as [_ [raw ->]]. now apply (postprocess_linebreaks raw).
  - destruct (gen_text (run env evs)), (docx_bytes (run env evs)),
      (last_key (run env evs)); try contradiction;
      split; intros; try reflexivity; discriminate.
Qed.

Lemma generate_idle w service fuel ss :
  uploaded w = None \/ run_btn w = false ->
  generate w service fuel ss = Some (ss, display ss).
Proof.
  intros Hg. unfold generate, App.generate. destruct Hg as [-> | Hg].
  - reflexivity.
  - rewrite Hg. now destruct (uploaded w) as [[? ?] |].
Qed.

(** X13. After the callback of the uploader nothing of an earlier
    generation is left in the session or shown by a run that does not
    generate, while the login state is as before. *)
Theorem reset_output_hides env w service fuel ss ss' h :
  uploaded w = None \/ run_btn w = false ->
  script env w service fuel (_reset_output ss) = Some (ss', h) ->
  (forall shown, h <> Done (Some shown)) /\
  artifacts ss' = (None, None, None) /\
  auth_ok (_reset_output ss) = auth_ok ss /\
  api_key (_reset_output ss) = api_key ss.
Proof.
  intros Hg R. apply script_cases in R.
  destruct R as [(_ & -> & ->) | [ss1 [L R]]];
    [repeat split; discriminate |].
  pose proof (proj1 (login_step_cases _ _ _ _ _ L)) as Art.
  change (artifacts (_reset_output ss)) with
    (@None str, @None bytes, @None str) in Art.
  destruct R as [(_ & -> & ->) | [(_ & _ & -> & ->) | (_ & _ & G)]];
    try (repeat split; [discriminate | exact Art]).
  pose proof (generate_idle w service fuel ss1 Hg) as GI.
  unfold generate in GI. rewrite GI in G. injection G as <- <-.
  repeat split; [| exact Art].
  unfold display. unfold artifacts in Art. injection Art as A1 _ _.
  rewrite A1. discriminate.
Qed.

(** X14. The login block raises exactly when a password hash is
    configured, the login button is pressed and the entered password holds
    a surrogate code point, which the UTF-8 codec refuses; the run then
    ends with that exception and the session as it was. *)
Theorem login_crash env w ss :
  (login_step env w ss = None <->
   _get_password_hash env <> [] /\ login w = true /\
   exists c, In c (input_pw w) /\ surrogate c = true) /\
  (login_step env w ss = None ->
   forall service fuel, script env w service fuel ss = Some (ss, Crashed)).
Proof.
  split.
  - unfold login_step, App.login_step, _sha256.
    destruct (_get_password_hash env) as [| x hsh].
    + split; [destruct (login w); discriminate | intros [N _]; congruence].
    + destruct (login w).
      * destruct (encode (input_pw w)) as [b |] eqn:E.
        -- split; [discriminate |]. intros (_ & _ & S).
           apply encode_none in S. congruence.
        -- split; [| reflexivity]. intros _. split; [discriminate |].
           split; [reflexivity |]. now apply encode_none.
      * split; [discriminate | intros (_ & N & _); discriminate N].
  - intros L service fuel. unfold script, App.script.
    unfold login_step in L. now rewrite L.
Qed.

(** X15. The cache key is the digest of the file name, the content and
    the rules laid end to end, so it cannot tell where the name ends: a
    tail of the name moved to the front of the content gives the same
    key. *)
Theorem cache_key_concatenation name tail tail_bytes pdf_bytes :
  encode tail = Some tail_bytes ->
  cache_key sha256_hexdigest RULES (name ++ tail) pdf_bytes
  = cache_key sha256_hexdigest RULES name (tail_bytes ++ pdf_bytes).
Proof.
  intros E. unfold cache_key, hash_bytes. rewrite encode_app, E.
  destruct (encode name) as [n |]; [| reflexivity].
  destruct (encode RULES) as [r |]; [| reflexivity].
  now rewrite <- !app_assoc.
Qed.

Section Hexdigest.

(** [hexdigest()] returns 64 lower-case hexadecimal digits. *)
Hypothesis hexdigest_shape : forall b,
  length (sha256_hexdigest b) = 64%nat /\
  Forall (fun c => lower_hex c = true) (sha256_hexdigest b).

(** X16. A configured hash that is not made of 64 lower-case hexadecimal
    digits (once trimmed) lets nobody in: whatever password is entered, a
    press of the login button ends at the login notice with [auth_ok]
    false, or with the exception of the codec. *)
Theorem malformed_hash_locks_out env w service fuel ss ss' h :
  _get_password_hash env <> [] ->
  (length (_get_password_hash env) <> 64%nat \/
   exists c, In c (_get_password_hash env) /\ lower_hex c = false) ->
  login w = true ->
  script env w service fuel ss = Some (ss', h) ->
  (h = StopInfo /\ auth_ok ss' = Some false) \/ (h = Crashed /\ ss' = ss).
Proof.
  intros Hne Hbad Hl R. apply script_cases in R.
  destruct R as [(_ & -> & ->) | [ss1 [L R]]]; [now right |]. left.
  apply login_step_cases in L. destruct L as [_ [[Hl' _] | [_ [_ A]]]];
    [congruence |].
  destruct A as [[N _] | [b [_ [_ A]]]]; [congruence |].
  assert (F : str_eqb (sha256_hexdigest b) (_get_password_hash env) = false).
  { destruct (str_eqb _ _) eqn:Q; [| reflexivity]. apply str_eqb_eq in Q.
    destruct (hexdigest_shape b) as [H1 H2]. rewrite Q in H1, H2.
    destruct Hbad as [Hlen | [c [Hin Hc]]]; [congruence |].
    rewrite Forall_forall in H2. apply H2 in Hin. congruence. }
  rewrite F in A.
  destruct R as [(_ & -> & ->) | [(T & _) | (T & _)]];
    [now split | congruence | congruence].
Qed.

End Hexdigest.

End ScriptTheorems.

Lemma login_checks_password_witness :
  exists ss' h,
    App.script (fun _ => [0x61; 0x62]) [] (fun _ => None) (fun _ => None)
      (Some [0x20; 0x61; 0x62; 0xA])
      {| input_pw := [0x78]; input_api_key := [0x73; 0x6B];
         login := true; uploaded := None; run_btn := false |}
      (fun _ _ => Raised OtherError) 4 empty_session = Some (ss', h) /\
    (auth_ok ss' = Some true
     <-> [0x61; 0x62] = _get_password_hash (Some [0x20; 0x61; 0x62; 0xA])) /\
    (auth_ok ss' = Some false
     <-> [0x61; 0x62] <> _get_password_hash (Some [0x20; 0x61; 0x62; 0xA])) /\
    api_key ss' = Some (strip [0x73; 0x6B]) /\
    ([0x61; 0x62] <> _get_password_hash (Some [0x20; 0x61; 0x62; 0xA]) ->
     h = StopInfo /\ artifacts ss' = artifacts empty_session).
Proof.
  apply (login_checks_password (fun _ => [0x61; 0x62]) [] (fun _ => None)
           (fun _ => None) (Some [0x20; 0x61; 0x62; 0xA])
           {| input_pw := [0x78]; input_api_key := [0x73; 0x6B];
              login := true; uploaded := None; run_btn := false |}
           (fun _ _ => Raised OtherError) 4%nat empty_session [0x78]).
  - lia.
  - discriminate.
  - reflexivity.
  - reflexivity.
Defined.

Lemma script_needs_login_witness :
  auth_ok {| auth_ok := Some true; api_key := Some [0x6B]; gen_text := None;
             docx_bytes := None; last_key := None |} = Some true /\
  exists k,
    api_key {| auth_ok := Some true; api_key := Some [0x6B]; gen_text := None;
               docx_bytes := None; last_key := None |} = Some k /\
    k <> [] /\ strip k <> [].
Proof.
  apply (script_needs_login (fun _ => []) [] (fun _ => None) (fun _ => None)
           None
           {| input_pw := []; input_api_key := []; login := false;
              uploaded := None; run_btn := false |}
           (fun _ _ => Raised OtherError) 0%nat
           {| auth_ok := Some true; api_key := Some [0x6B]; gen_text := None;
              docx_bytes := None; last_key := None |}
           _ (Done None)).
  - reflexivity.
  - right. now exists None.
Defined.

Lemma script_gate_no_request_witness :
  artifacts empty_session = artifacts empty_session /\
  forall service' fuel',
    App.script (fun _ => []) [] (fun _ => None) (fun _ => None) None
      {| input_pw := []; input_api_key := []; login := false;
         uploaded := Some ([0x61], []); run_btn := true |}
      service' fuel' empty_session = Some (empty_session, StopInfo).
Proof.
  apply (script_gate_no_request (fun _ => []) [] (fun _ => None)
           (fun _ => None) None
           {| input_pw := []; input_api_key := []; login := false;
              uploaded := Some ([0x61], []); run_btn := true |}
           (fun _ _ => Raised OtherError) 0%nat empty_session).
  - reflexivity.
  - now left.
Defined.

Lemma script_idle_witness :
  exists h,
    App.script (fun _ => []) [] (fun _ => None) (fun _ => None) None
      {| input_pw := []; input_api_key := []; login := false;
         uploaded := Some ([0x61], []); run_btn := false |}
      (fun _ _ => Raised OtherError) 0 empty_session
    = Some (empty_session, h).
Proof.
  apply script_idle; [reflexivity | now right].
Defined.

Lemma reset_output_hides_witness :
  artifacts {| auth_ok := Some true; api_key := Some [0x6B];
               gen_text := None; docx_bytes := None; last_key := None |}
  = (None, None, None).
Proof.
  apply (proj1 (proj2 (reset_output_hides (fun _ => []) [] (fun _ => None)
           (fun _ => None) None
           {| input_pw := []; input_api_key := [0x6B]; login := true;
              uploaded := None; run_btn := false |}
           (fun _ _ => Raised OtherError) 0%nat
           {| auth_ok := None; api_key := None; gen_text := Some [0x61];
              docx_bytes := Some [0x1]; last_key := Some [0x6B] |}
           _ (Done None) ltac:(now left) eq_refl))).
Defined.

Lemma cache_key_concatenation_witness :
  cache_key (fun b => b) [0x52] ([0x61] ++ [0x62; 0x3042]) [0x25]
  = cache_key (fun b => b) [0x52] [0x61] ([0x62; 0xE3; 0x81; 0x82] ++ [0x25]).
Proof. apply cache_key_concatenation. reflexivity. Defined.

Lemma malformed_hash_locks_out_witness :
  (StopInfo = StopInfo /\
   auth_ok {| auth_ok := Some false; api_key := Some []; gen_text := None;
              docx_bytes := None; last_key := None |} = Some false)
  \/ (StopInfo = Crashed /\
      {| auth_ok := Some false; api_key := Some []; gen_text := None;
         docx_bytes := None; last_key := None |} = empty_session).
Proof.
  apply (malformed_hash_locks_out (fun _ => repeat 0x30 64) []
           (fun _ => None) (fun _ => None)
           ltac:(intros b; split; [reflexivity | repeat constructor])
           (Some (repeat 0x41 64))
           {| input_pw := [0x78]; input_api_key := []; login := true;
              uploaded := None; run_btn := false |}
           (fun _ _ => Raised OtherError) 0%nat empty_session).
  - discriminate.
  - right. exists 0x41. split; [now left | reflexivity].
  - reflexivity.
  - reflexivity.
Defined.

Lemma login_without_password_witness :
  exists ss' h,
    App.script (fun _ => []) [] (fun _ => None) (fun _ => None)
      (Some [0x20; 0xA])
      {| input_pw := [0x78]; input_api_key := [0x20; 0x73; 0x6B; 0x20];
         login := true; uploaded := None; run_btn := false |}
      (fun _ _ => Raised OtherError) 4 empty_session = Some (ss', h) /\
    auth_ok ss' = Some true /\
    api_key ss' = Some (strip [0x20; 0x73; 0x6B; 0x20]) /\
    h <> StopInfo.
Proof.
  apply (login_without_password (fun _ => []) [] (fun _ => None)
           (fun _ => None) (Some [0x20; 0xA])).
  - lia.
  - right. exists [0x20; 0xA]. split; [reflexivity | repeat constructor].
  - reflexivity.
Defined.


Lemma script_artifacts_witness :
  (artifacts {| auth_ok := Some true; api_key := Some [0x6B];
                gen_text := Some (postprocess [0x50; 0x20; 0x3D; 0x31]);
                docx_bytes := Some [0x1]; last_key := Some [0x66; 0x25; 0x52] |}
   = artifacts {| auth_ok := Some true; api_key := Some [0x6B];
                  gen_text := None; docx_bytes := None; last_key := None |} /\
   (Done (Some (postprocess [0x50; 0x20; 0x3D; 0x31], [0x1],
                s_dl ++ [0x66; 0x25; 0x52])) = Crashed \/
    Done (Some (postprocess [0x50; 0x20; 0x3D; 0x31], [0x1],
                s_dl ++ [0x66; 0x25; 0x52])) = StopInfo \/
    Done (Some (postprocess [0x50; 0x20; 0x3D; 0x31], [0x1],
                s_dl ++ [0x66; 0x25; 0x52])) = StopNoKey \/
    (exists e, Done (Some (postprocess [0x50; 0x20; 0x3D; 0x31], [0x1],
                           s_dl ++ [0x66; 0x25; 0x52])) = StopError e) \/
    Done (Some (postprocess [0x50; 0x20; 0x3D; 0x31], [0x1],
                s_dl ++ [0x66; 0x25; 0x52]))
    = display {| auth_ok := Some true; api_key := Some [0x6B];
                 gen_text := Some (postprocess [0x50; 0x20; 0x3D; 0x31]);
                 docx_bytes := Some [0x1];
                 last_key := Some [0x66; 0x25; 0x52] |}))
  \/ (exists name pdf_bytes slides raw_text sleeps data key,
        uploaded {| input_pw := []; input_api_key := []; login := false;
                    uploaded := Some ([0x66], [0x25]); run_btn := true |}
        = Some (name, pdf_bytes) /\
        run_btn {| input_pw := []; input_api_key := []; login := false;
                   uploaded := Some ([0x66], [0x25]); run_btn := true |}
        = true /\
        extract_slides_text (fun _ => Some [PageText [0x61]]) pdf_bytes
        = Some slides /\
        call_llm ((fun (_ : str) (_ : nat) => Returned [0x50; 0x20; 0x3D; 0x31])
                    (join page_break slides)) 4
        = Some (Returned raw_text, sleeps) /\
        (fun _ : list str => Some [0x1]) (split 0xA (postprocess raw_text))
        = Some data /\
        cache_key (fun b => b) [0x52] name pdf_bytes = Some key /\
        artifacts {| auth_ok := Some true; api_key := Some [0x6B];
                     gen_text := Some (postprocess [0x50; 0x20; 0x3D; 0x31]);
                     docx_bytes := Some [0x1];
                     last_key := Some [0x66; 0x25; 0x52] |}
        = (Some (postprocess raw_text), Some data, Some key) /\
        Done (Some (postprocess [0x50; 0x20; 0x3D; 0x31], [0x1],
                    s_dl ++ [0x66; 0x25; 0x52]))
        = Done (Some (postprocess raw_text, data, s_dl ++ key))).
Proof.
  apply (script_artifacts (fun b => b) [0x52]
           (fun _ => Some [PageText [0x61]]) (fun _ => Some [0x1]) None
           {| input_pw := []; input_api_key := []; login := false;
              uploaded := Some ([0x66], [0x25]); run_btn := true |}
           (fun _ _ => Returned [0x50; 0x20; 0x3D; 0x31]) 4%nat
           {| auth_ok := Some true; api_key := Some [0x6B];
              gen_text := None; docx_bytes := None; last_key := None |}).
  reflexivity.
Defined.

(** ** The cleaned title line *)

Lemma drop_trailing_last p : forall s t c,
  drop_trailing p s = t ++ [c] -> p c = false.
Proof.
  induction s as [| x s IH]; intros t c.
  - destruct t; discriminate.
  - cbn [drop_trailing]. destruct (forallb p (x :: s)) eqn:F.
    + destruct t; discriminate.
    + destruct t as [| y t]; cbn [app]; intros H; injection H as -> H.
      * apply drop_trailing_nil in H. cbn [forallb] in F.
        rewrite H, andb_true_r in F. exact F.
      * now apply (IH t).
Qed.

(** X17. The line that replaces the title line neither begins with a
    glyph of the opening class nor ends with a glyph of the closing
    class. *)
Theorem title_line_cleaned text line :
  In line (splitlines text) ->
  (forall c t, clean_title line = c :: t -> is_opening c = false) /\
  (forall t c, clean_title line = t ++ [c] -> is_closing c = false).
Proof.
  intros Hin.
  assert (F : Forall (fun c => is_linebreak c = false) line).
  { pose proof (splitlines_no_linebreak text) as G.
    rewrite Forall_forall in G. now apply G. }
  rewrite (clean_title_closed line F). split.
  - intros c t E. destruct (drop_trailing_head _ _ _ _ E) as [t' D].
    now apply drop_while_head in D.
  - intros t c E. now apply drop_trailing_last in E.
Qed.

Lemma title_line_cleaned_witness :
  (forall c t, clean_title [0x201C; 0x300C; 0x61; 0x300D; 0x22] = c :: t ->
     is_opening c = false) /\
  (forall t c, clean_title [0x201C; 0x300C; 0x61; 0x300D; 0x22] = t ++ [c] ->
     is_closing c = false).
Proof.
  apply (title_line_cleaned [0x201C; 0x300C; 0x61; 0x300D; 0x22; 0xA; 0x62]).
  simpl. tauto.
Defined.

(** ** Whitespace around the configured hash *)

Lemma drop_trailing_app_all p s w :
  Forall (fun c => p c = true) w ->
  drop_trailing p (s ++ w) = drop_trailing p s.
Proof.
  intros Hw. assert (F : forallb p w = true)
    by (apply forallb_forall; now apply Forall_forall).
  induction s as [| c s IH].
  - cbn [app drop_trailing]. destruct w as [| x w]; [reflexivity |].
    cbn [drop_trailing]. now rewrite F.
  - rewrite <- app_comm_cons. cbn [drop_trailing forallb].
    rewrite forallb_app, F, andb_true_r, IH. reflexivity.
Qed.

Lemma strip_surrounded w1 s w2 :
  Forall (fun c => is_space c = true) w1 ->
  Forall (fun c => is_space c = true) w2 ->
  strip (w1 ++ s ++ w2) = strip s.
Proof.
  intros H1 H2. unfold strip.
  rewrite (drop_while_app_all _ _ _ H1), drop_while_app.
  destruct (forallb is_space s) eqn:F.
  - rewrite (forallb_drop_while _ _ F).
    assert (F2 : forallb is_space w2 = true)
      by (apply forallb_forall; now apply Forall_forall).
    now rewrite (forallb_drop_while _ _ F2).
  - now apply drop_trailing_app_all.
Qed.

(** X18. Whitespace around the value of the variable, such as a line
    feed at its end, does not change the required hash, and the required
    hash is itself trimmed. *)
Theorem password_hash_trimmed w1 v w2 :
  Forall (fun c => is_space c = true) w1 ->
  Forall (fun c => is_space c = true) w2 ->
  _get_password_hash (Some (w1 ++ v ++ w2)) = _get_password_hash (Some v) /\
  strip (_get_password_hash (Some v)) = _get_password_hash (Some v).
Proof.
  intros H1 H2. unfold _get_password_hash. split.
  - now apply strip_surrounded.
  - apply strip_idem.
Qed.

Lemma password_hash_trimmed_witness :
  _get_password_hash (Some ([0x20; 0x9] ++ [0x61; 0x20; 0x62] ++ [0xD; 0xA]))
  = _get_password_hash (Some [0x61; 0x20; 0x62]) /\
  strip (_get_password_hash (Some [0x61; 0x20; 0x62]))
  = _get_password_hash (Some [0x61; 0x20; 0x62]).
Proof. apply password_hash_trimmed; repeat constructor. Defined.

(** ** Failures of a generation *)

Section ScriptErrors.

Variable sha256_hexdigest : bytes -> str.
Variable RULES : str.
Variable open_pdf : bytes -> option (list page).
Variable save_docx : list str -> option bytes.

Let script := script sha256_hexdigest RULES open_pdf save_docx.

(** X19. In a logged-in session, with a file uploaded and the run button
    pressed: a file that cannot be read ends the run with an exception
    that no handler catches, whereas an exception of [call_llm] or of the
    document writer is caught and reported; in each case the session is
    left as it was. *)
Theorem generation_failures env w service fuel ss k name pdf_bytes :
  login w = false -> auth_ok ss = Some true ->
  api_key ss = Some k -> strip k <> [] ->
  uploaded w = Some (name, pdf_bytes) -> run_btn w = true ->
  (extract_slides_text open_pdf pdf_bytes = None ->
   script env w service fuel ss = Some (ss, Crashed)) /\
  (forall slides key e sleeps,
     extract_slides_text open_pdf pdf_bytes = Some slides ->
     cache_key sha256_hexdigest RULES name pdf_bytes = Some key ->
     call_llm (service (join page_break slides)) fuel
     = Some (Raised e, sleeps) ->
     script env w service fuel ss = Some (ss, StopError e)) /\
  (forall slides key raw_text sleeps,
     extract_slides_text open_pdf pdf_bytes = Some slides ->
     cache_key sha256_hexdigest RULES name pdf_bytes = Some key ->
     call_llm (service (join page_break slides)) fuel
     = Some (Returned raw_text, sleeps) ->
     save_docx (split 0xA (postprocess raw_text)) = None ->
     script env w service fuel ss = Some (ss, StopError OtherError)).
Proof.
  intros Hl Ha Hk Hs Hu Hr.
  assert (S0 : forall r,
            App.generate sha256_hexdigest RULES open_pdf save_docx
              w service fuel ss = r ->
            script env w service fuel ss = r).
  { intros r <-. unfold script, App.script, App.login_step. rewrite Hl.
    destruct (_get_password_hash env); rewrite Ha, Hk;
      destruct (strip k); congruence. }
  split; [| split].
  - intros X. apply S0. unfold App.generate. now rewrite Hu, Hr, X.
  - intros slides key e sleeps X K C. apply S0. unfold App.generate.
    rewrite Hu, Hr, X. cbv zeta. now rewrite K, C.
  - intros slides key raw_text sleeps X K C D. apply S0. unfold App.generate.
    rewrite Hu, Hr, X. cbv zeta. rewrite K, C. unfold to_docx. now rewrite D.
Qed.

End ScriptErrors.

Lemma generation_failures_witness :
  App.script (fun b => b) [] (fun _ => None) (fun _ => None) None
    {| input_pw := []; input_api_key := []; login := false;
       uploaded := Some ([0x66], [0x25]); run_btn := true |}
    (fun _ _ => Returned []) 4
    {| auth_ok := Some true; api_key := Some [0x6B]; gen_text := None;
       docx_bytes := None; last_key := None |}
  = Some ({| auth_ok := Some true; api_key := Some [0x6B]; gen_text := None;
             docx_bytes := None; last_key := None |}, Crashed).
Proof.
  apply (proj1 (generation_failures (fun b => b) [] (fun _ => None)
           (fun _ => None) None
           {| input_pw := []; input_api_key := []; login := false;
              uploaded := Some ([0x66], [0x25]); run_btn := true |}
           (fun _ _ => Returned []) 4%nat
           {| auth_ok := Some true; api_key := Some [0x6B]; gen_text := None;
              docx_bytes := None; last_key := None |}
           [0x6B] [0x66] [0x25] eq_refl eq_refl eq_refl
           ltac:(discriminate) eq_refl eq_refl)).
  reflexivity.
Defined.

(** ** When [call_llm] returns a text *)

(** X20. [call_llm] returns a text exactly when one of the first four
    requests returns it and every request before that one raised an
    instance of [APIError]. *)
Theorem call_llm_success_iff service fuel text :
  (4 <= fuel)%nat ->
  ((exists sleeps, call_llm service fuel = Some (Returned text, sleeps)) <->
   exists k, (1 <= k <= 4)%nat /\ service k = Returned text /\
     forall j, (1 <= j < k)%nat ->
       exists e, service j = Raised e /\ issubclass e APIError = true).
Proof.
  intros Hf. destruct fuel as [| [| [| [| f]]]]; try lia. clear Hf.
  unfold call_llm.
  cbn [attempts stop call_llm_policy stop_after_attempt Nat.leb app].
  fold call_llm_policy.
  assert (R : forall o, retry call_llm_policy o = true ->
            exists e, o = Raised e /\ issubclass e APIError = true).
  { intros [t | e] H; [discriminate H |]. exists e. split; [reflexivity |].
    now rewrite <- retried_iff_api_error. }
  assert (N : forall o, retry call_llm_policy o = false ->
            forall e, o = Raised e -> issubclass e APIError = true -> False).
  { intros o H e -> He. rewrite retried_iff_api_error in H. congruence. }
  split.
  - intros [sleeps H].
    destruct (retry call_llm_policy (service 1%nat)) eqn:R1; cbn [negb] in H.
    2: { injection H as H _. exists 1%nat. repeat split; try lia. exact H. }
    destruct (retry call_llm_policy (service 2%nat)) eqn:R2; cbn [negb] in H.
    2: { injection H as H _. exists 2%nat. repeat split; try lia; [exact H |].
         intros j Hj. assert (j = 1%nat) by lia. subst j. now apply R. }
    destruct (retry call_llm_policy (service 3%nat)) eqn:R3; cbn [negb] in H.
    2: { injection H as H _. exists 3%nat. repeat split; try lia; [exact H |].
         intros j Hj. assert (j = 1 \/ j = 2)%nat as [-> | ->] by lia;
           now apply R. }
    assert (H4 : service 4%nat = Returned text).
    { destruct (negb (retry call_llm_policy (service 4%nat)));
        now injection H as H _. }
    exists 4%nat. repeat split; try lia; [exact H4 |].
    intros j Hj. assert (j = 1 \/ j = 2 \/ j = 3)%nat as [-> | [-> | ->]] by lia;
      now apply R.
  - intros [k [Hk [Sk Prev]]].
    assert (Rk : retry call_llm_policy (service k) = false)
      by (rewrite Sk; reflexivity).
    assert (P : forall j, (1 <= j < k)%nat ->
              retry call_llm_policy (service j) = true).
    { intros j Hj. destruct (Prev j Hj) as [e [-> He]].
      now rewrite retried_iff_api_error. }
    assert (k = 1 \/ k = 2 \/ k = 3 \/ k = 4)%nat
      as [-> | [-> | [-> | ->]]] by lia.
    + rewrite Rk. cbn [negb]. rewrite Sk. eauto.
    + rewrite (P 1%nat) by lia. cbn [negb]. rewrite Rk. cbn [negb].
      rewrite Sk. eauto.
    + rewrite (P 1%nat), (P 2%nat) by lia. cbn [negb]. rewrite Rk.
      cbn [negb]. rewrite Sk. eauto.
    + rewrite (P 1%nat), (P 2%nat), (P 3%nat) by lia. cbn [negb].
      rewrite Rk. cbn [negb]. rewrite Sk. eauto.
Qed.

Lemma call_llm_success_iff_witness :
  (exists sleeps,
     call_llm (fun n => if (n <? 2)%nat then Raised APITimeoutError
                        else Returned [0x61]) 5
     = Some (Returned [0x61], sleeps)) <->
  exists k, (1 <= k <= 4)%nat /\
    (fun n => if (n <? 2)%nat then Raised APITimeoutError
              else Returned [0x61]) k = Returned [0x61] /\
    forall j, (1 <= j < k)%nat ->
      exists e, (fun n => if (n <? 2)%nat then Raised APITimeoutError
                          else Returned [0x61]) j = Raised e /\
                issubclass e APIError = true.
Proof. apply call_llm_success_iff. lia. Defined.
